(** * Verification of the Android eBPF object loader (loader/Loader.cpp)

    A shallow embedding of [android::bpf::loadProg] and of the functions it
    is built from, followed by the properties of the loader design that
    hold (or fail) on that code.

    Conventions of the embedding:
    - a C [int] / [unsigned] is a [Z]; conversions between widths are
      written out with [to_int] and [to_u32];
    - a [vector<char>] is a [list Z] of values in [0, 256);
    - a [std::string] is a [string];
    - the [ifstream], the kernel and the log are threaded through a state
      monad [M]; an access outside a vector is the outcome [Undefined]
      and [abort()] is the outcome [Aborted];
    - the allocation of vectors and strings is taken to succeed. *)

From Stdlib Require Import ZArith List String Ascii Bool Lia DecimalString.
Import ListNotations.
Local Open Scope string_scope.
Local Open Scope list_scope.
Local Open Scope Z_scope.

(** [a +++ b] is [a + b] on std::string. *)
Infix "+++" := String.append (right associativity, at level 60).

(* ===================================================================== *)
(** * Strings *)
(* ===================================================================== *)

Module Str.

(** [s.find_last_of(c)]: index of the last occurrence, [None] for npos. *)
Fixpoint find_last_of (s : string) (c : ascii) : option nat :=
  match s with
  | EmptyString => None
  | String a s' =>
      match find_last_of s' c with
      | Some n => Some (S n)
      | None => if Ascii.eqb a c then Some O else None
      end
  end.

(** [s.substr(0, n)], clamped at the end of [s] as std::string does. *)
Fixpoint prefix_len (n : nat) (s : string) : string :=
  match n, s with
  | O, _ => EmptyString
  | S _, EmptyString => EmptyString
  | S n', String a s' => String a (prefix_len n' s')
  end.

(** [s.substr(0, pos)] where [pos] may be npos. *)
Definition substr0 (s : string) (pos : option nat) : string :=
  match pos with
  | None => s
  | Some n => prefix_len n s
  end.

(** [android::base::Split(s, d)] for a one-character delimiter set: the
    pieces between delimiters, empty pieces included, never an empty
    vector. *)
Fixpoint Split (s : string) (d : ascii) : list string :=
  match s with
  | EmptyString => [EmptyString]
  | String a s' =>
      if Ascii.eqb a d then EmptyString :: Split s' d
      else match Split s' d with
           | [] => [String a EmptyString]
           | p :: ps => String a p :: ps
           end
  end.

(** [v.back()] of a vector of strings known to be non-empty. *)
Definition back (v : list string) : string := last v EmptyString.

(** [android::base::StartsWith(s, prefix)]. *)
Fixpoint StartsWith (s p : string) {struct p} : bool :=
  match p, s with
  | EmptyString, _ => true
  | String _ _, EmptyString => false
  | String b p', String a s' => Ascii.eqb a b && StartsWith s' p'
  end.

(** [std::replace(s.begin(), s.end(), from, to)]. *)
Fixpoint replace (from to : ascii) (s : string) : string :=
  match s with
  | EmptyString => EmptyString
  | String a s' =>
      String (if Ascii.eqb a from then to else a) (replace from to s')
  end.

(** [c] does not occur in [s]. *)
Fixpoint lacks (c : ascii) (s : string) : bool :=
  match s with
  | EmptyString => true
  | String a s' => negb (Ascii.eqb a c) && lacks c s'
  end.

(** [s] ends with [suf]. *)
Fixpoint EndsWith (s suf : string) : bool :=
  if String.eqb s suf then true
  else match s with
       | EmptyString => false
       | String _ s' => EndsWith s' suf
       end.

(** The first occurrence of [c], [None] for npos. *)
Fixpoint find_first_of (s : string) (c : ascii) : option nat :=
  match s with
  | EmptyString => None
  | String a s' =>
      if Ascii.eqb a c then Some O
      else option_map S (find_first_of s' c)
  end.

End Str.

(* ===================================================================== *)
(** * Object names *)
(* ===================================================================== *)

(** [pathToObjName], Loader.cpp:73. *)
Definition pathToObjName (path : string) : string :=
  let filename := Str.back (Str.Split path "/") in
  let name := Str.substr0 filename (Str.find_last_of filename ".") in
  Str.substr0 name (Str.find_last_of name "@").

(** The ObjectName as the design document words it: the final path
    component, with the trailing [.o] removed and anything from an [@]
    onward stripped.  This definition follows the document, not the code. *)
Definition spec_ObjectName (path : string) : string :=
  let comp := Str.back (Str.Split path "/") in
  let stem :=
    if Str.EndsWith comp ".o"
    then Str.prefix_len (String.length comp - 2) comp
    else comp in
  Str.substr0 stem (Str.find_first_of stem "@").

(* ===================================================================== *)
(** * Machine integers and byte buffers *)
(* ===================================================================== *)

(** Conversion to [unsigned int] / [__u32]. *)
Definition to_u32 (z : Z) : Z := z mod 2 ^ 32.

(** Conversion to [int] / [__s32] (two's complement wrap-around). *)
Definition to_int (z : Z) : Z := (z + 2 ^ 31) mod 2 ^ 32 - 2 ^ 31.

(** A little-endian unsigned integer held in a run of bytes. *)
Fixpoint le_decode (bytes : list Z) : Z :=
  match bytes with
  | [] => 0
  | b :: bs => b + 256 * le_decode bs
  end.

(** The [n] little-endian bytes of [z mod 2^(8n)]. *)
Fixpoint le_encode (n : nat) (z : Z) : list Z :=
  match n with
  | O => []
  | S n' => z mod 256 :: le_encode n' (z / 256)
  end.

(** The [len] bytes of [buf] that start at byte [off]. *)
Definition slice (off len : nat) (buf : list Z) : list Z :=
  firstn len (skipn off buf).

(** The unsigned field of [len] bytes at offset [off] of a struct image. *)
Definition field (off len : nat) (buf : list Z) : Z :=
  le_decode (slice off len buf).

(** [buf] with the bytes [bs] written at position [off]; the caller has
    checked that they fit. *)
Fixpoint write_at (off : nat) (bs : list Z) (buf : list Z) : list Z :=
  match off, buf with
  | O, _ => bs ++ skipn (List.length bs) buf
  | S off', b :: buf' => b :: write_at off' bs buf'
  | S _, [] => []
  end.

(** A buffer cut into records of [sz] bytes. *)
Fixpoint chunks (fuel sz : nat) (buf : list Z) : list (list Z) :=
  match fuel with
  | O => []
  | S fuel' => firstn sz buf :: chunks fuel' sz (skipn sz buf)
  end.

(** [(T* )buf] read as an array of [buf.size() / sizeof(T)] records. *)
Definition decode_array {T} (sz : nat) (dec : list Z -> T) (buf : list Z)
  : list T :=
  map dec (chunks (List.length buf / sz) sz buf).

(** The C string that starts a buffer: the characters before the first
    NUL, [None] when the buffer ends before a NUL is met (the read runs
    off the end of the vector). *)
Fixpoint cstring (buf : list Z) : option string :=
  match buf with
  | [] => None
  | b :: bs =>
      if b =? 0 then Some EmptyString
      else option_map (String (ascii_of_N (Z.to_N b))) (cstring bs)
  end.

(** [strcmp(buf, name) == 0] for a NUL-free [name]; [None] when the
    comparison has to read past the end of the buffer. *)
Fixpoint strcmp_eq (buf : list Z) (name : string) : option bool :=
  match buf with
  | [] => None
  | b :: bs =>
      match name with
      | EmptyString => Some (b =? 0)
      | String a name' =>
          if b =? Z.of_N (N_of_ascii a) then strcmp_eq bs name'
          else Some false
      end
  end.

(** The bytes of a string, without terminator. *)
Fixpoint bytes_of_string (s : string) : list Z :=
  match s with
  | EmptyString => []
  | String a s' => Z.of_N (N_of_ascii a) :: bytes_of_string s'
  end.

(* ===================================================================== *)
(** * Constants of the kernel and ELF headers *)
(* ===================================================================== *)

(** enum bpf_prog_type (linux/bpf.h). *)
Definition BPF_PROG_TYPE_UNSPEC : Z := 0.
Definition BPF_PROG_TYPE_SOCKET_FILTER : Z := 1.
Definition BPF_PROG_TYPE_KPROBE : Z := 2.
Definition BPF_PROG_TYPE_TRACEPOINT : Z := 5.
Definition BPF_PROG_TYPE_PERF_EVENT : Z := 7.

(** enum bpf_attach_type; Loader.cpp:58 makes the unspecified attach type
    [BPF_CGROUP_INET_INGRESS], which is 0. *)
Definition BPF_CGROUP_INET_INGRESS : Z := 0.
Definition BPF_ATTACH_TYPE_UNSPEC : Z := BPF_CGROUP_INET_INGRESS.

(** enum bpf_map_type (linux/bpf.h). *)
Definition BPF_MAP_TYPE_HASH : Z := 1.
Definition BPF_MAP_TYPE_DEVMAP : Z := 14.
Definition BPF_MAP_TYPE_DEVMAP_HASH : Z := 25.
Definition BPF_MAP_TYPE_RINGBUF : Z := 27.

(** Map flag and instruction encodings (linux/bpf.h, linux/bpf_common.h). *)
Definition BPF_F_RDONLY_PROG : Z := Z.shiftl 1 7.
Definition BPF_PSEUDO_MAP_FD : Z := 1.
Definition BPF_LD : Z := 0.
Definition BPF_IMM : Z := 0.
Definition BPF_DW : Z := 24.

(** errno values (asm-generic/errno.h). *)
Definition ENOMEM : Z := 12.
Definition EINVAL : Z := 22.
Definition ENOTUNIQ : Z := 76.

(** linux/elf.h. *)
Definition SHT_SYMTAB : Z := 2.
Definition STT_FUNC : Z := 2.
Definition ELF_ST_TYPE (info : Z) : Z := Z.land info 15.
Definition ELF64_R_SYM (info : Z) : Z := Z.shiftr info 32.

Definition BPF_FS_PATH : string := "/sys/fs/bpf/".

(** Modelled from the spec: the packing [KVER(a, b, c)] of kernel
    versions is declared in bpf/BpfUtils.h, which is not part of the
    sources; the design document writes 4.14.0 as 0x40e00 and 5.10.0 as
    0x50a00. *)
Definition KVER (a b c : Z) : Z := a * 65536 + b * 256 + c.

(* ===================================================================== *)
(** * ELF records *)
(* ===================================================================== *)

Record Elf64_Ehdr := mkEhdr {
  e_shoff : Z;
  e_shentsize : Z;
  e_shnum : Z;
  e_shstrndx : Z
}.

Record Elf64_Shdr := mkShdr {
  sh_name : Z;
  sh_type : Z;
  sh_offset : Z;
  sh_size : Z
}.

Record Elf64_Sym := mkSym {
  st_name : Z;
  st_info : Z;
  st_shndx : Z;
  st_value : Z
}.

Record Elf64_Rel := mkRel {
  r_offset : Z;
  r_info : Z
}.

Definition sizeof_Ehdr : nat := 64.
Definition sizeof_Shdr : nat := 64.
Definition sizeof_Sym : nat := 24.
Definition sizeof_Rel : nat := 16.
Definition sizeof_bpf_insn : nat := 8.

(** The fields the loader reads, at their offsets in the little-endian
    ELF64 images. *)
Definition decode_Ehdr (b : list Z) : Elf64_Ehdr :=
  mkEhdr (field 40 8 b) (field 58 2 b) (field 60 2 b) (field 62 2 b).

Definition decode_Shdr (b : list Z) : Elf64_Shdr :=
  mkShdr (field 0 4 b) (field 4 4 b) (field 24 8 b) (field 32 8 b).

Definition decode_Sym (b : list Z) : Elf64_Sym :=
  mkSym (field 0 4 b) (field 4 1 b) (field 6 2 b) (field 8 8 b).

Definition decode_Rel (b : list Z) : Elf64_Rel :=
  mkRel (field 0 8 b) (field 8 8 b).

(* ===================================================================== *)
(** * Definition records *)
(* ===================================================================== *)

(** [struct bpf_map_def], the fields that Loader.cpp reads.  The header
    bpf/bpf_map_def.h is not part of the sources: the byte layout of the
    record is a parameter of the platform. *)
Record bpf_map_def := mkMapDef {
  md_type : Z;
  md_key_size : Z;
  md_value_size : Z;
  md_max_entries : Z;
  md_map_flags : Z;
  md_zero : Z;
  md_uid : Z;
  md_gid : Z;
  md_mode : Z;
  md_min_kver : Z;
  md_max_kver : Z;
  md_shared : bool
}.

(** [struct bpf_prog_def], the fields that Loader.cpp reads; its layout
    is a parameter of the platform as well. *)
Record bpf_prog_def := mkProgDef {
  pd_uid : Z;
  pd_gid : Z;
  pd_min_kver : Z;
  pd_max_kver : Z;
  pd_optional : bool
}.

(** [codeSection], Loader.cpp:109. *)
Record codeSection := mkCodeSection {
  cs_type : Z;
  cs_expected_attach_type : Z;
  cs_name : string;
  cs_data : list Z;
  cs_rel_data : list Z;
  cs_prog_def : option bpf_prog_def;
  cs_prog_fd : Z
}.

(** [sectionType], Loader.cpp:83. *)
Record sectionType := mkSectionType {
  snt_name : string;
  snt_type : Z;
  snt_expected_attach_type : Z
}.

(** [sectionNameTypes], Loader.cpp:99. *)
Definition sectionNameTypes : list sectionType :=
  [ mkSectionType "kprobe/" BPF_PROG_TYPE_KPROBE BPF_ATTACH_TYPE_UNSPEC;
    mkSectionType "kretprobe/" BPF_PROG_TYPE_KPROBE BPF_ATTACH_TYPE_UNSPEC;
    mkSectionType "perf_event/" BPF_PROG_TYPE_PERF_EVENT BPF_ATTACH_TYPE_UNSPEC;
    mkSectionType "skfilter/" BPF_PROG_TYPE_SOCKET_FILTER BPF_ATTACH_TYPE_UNSPEC;
    mkSectionType "tracepoint/" BPF_PROG_TYPE_TRACEPOINT BPF_ATTACH_TYPE_UNSPEC;
    mkSectionType "uprobe/" BPF_PROG_TYPE_KPROBE BPF_ATTACH_TYPE_UNSPEC;
    mkSectionType "uretprobe/" BPF_PROG_TYPE_KPROBE BPF_ATTACH_TYPE_UNSPEC ].

(* ===================================================================== *)
(** * The platform: kernel, file system and C++ runtime *)
(* ===================================================================== *)

Inductive LogPrio := LOG_DEBUG | LOG_INFO | LOG_WARN | LOG_ERROR.

Inductive LogArg :=
| ArgInt (z : Z)
| ArgStr (s : string).

(** The fields of [union bpf_attr] set for [BPF_MAP_CREATE]. *)
Record map_create_req := mkMapCreate {
  mreq_map_type : Z;
  mreq_key_size : Z;
  mreq_value_size : Z;
  mreq_max_entries : Z;
  mreq_map_flags : Z;
  mreq_map_name : string
}.

(** The fields of [union bpf_attr] set for [BPF_PROG_LOAD]. *)
Record prog_load_req := mkProgLoad {
  preq_prog_type : Z;
  preq_kern_version : Z;
  preq_license : string;
  preq_insns : list Z;
  preq_insn_cnt : Z;
  preq_log_level : Z;
  preq_log_size : Z;
  preq_expected_attach_type : Z;
  preq_prog_name : string
}.

(** The calls the loader makes into libc and the syscall wrappers. *)
Inductive Syscall :=
| sys_access (path : string)
| sys_mapRetrieveRO (path : string)
| sys_BPF_MAP_CREATE (req : map_create_req)
| sys_bpfGetFdMapType (fd : Z)
| sys_bpfGetFdKeySize (fd : Z)
| sys_bpfGetFdValueSize (fd : Z)
| sys_bpfGetFdMaxEntries (fd : Z)
| sys_bpfGetFdMapFlags (fd : Z)
| sys_bpfGetFdMapId (fd : Z)
| sys_bpfFdPin (fd : Z) (path : string)
| sys_chmod (path : string) (mode : Z)
| sys_chown (path : string) (uid gid : Z)
| sys_retrieveProgram (path : string)
| sys_BPF_PROG_LOAD (req : prog_load_req)
| sys_bpfGetFdProgId (fd : Z).

(** What the loader does that the outside can observe, in order. *)
Inductive Event :=
| ev_log (prio : LogPrio) (fmt : string) (args : list LogArg)
| ev_sys (call : Syscall).

(** What a call leaves behind: its return value, [errno] (meaningful
    after a failure, when it is positive), and for [BPF_PROG_LOAD] the
    NUL-terminated text the verifier wrote to the log buffer. *)
Record SysRet := mkSysRet {
  sr_ret : Z;
  sr_errno : positive;
  sr_log_buf : string
}.

Record Platform := mkPlatform {
  kstate : Type;
  (** the kernel and file system, as a transition function *)
  sys : Syscall -> kstate -> SysRet * kstate;
  (** [kernelVersion()] of bpf/BpfUtils.h *)
  kernelVersion : Z;
  (** [getpagesize()], sampled once (Loader.cpp:71) *)
  page_size : Z;
  (** the integer in /sys/fs/fuse/bpf_prog_type_fuse, 0 when unreadable
      (getFuseProgType, Loader.cpp:288) *)
  getFuseProgType : Z;
  (** [std::sort(begin, end, symCompare)] *)
  std_sort : list Elf64_Sym -> list Elf64_Sym;
  (** the layout of the records of bpf/bpf_map_def.h *)
  sizeof_bpf_map_def : nat;
  decode_bpf_map_def : list Z -> bpf_map_def;
  sizeof_bpf_prog_def : nat;
  decode_bpf_prog_def : list Z -> bpf_prog_def
}.

(** Modelled from the spec: [isAtLeastKernelVersion] is declared in
    bpf/BpfUtils.h, which is not part of the sources; the design document
    has the device-map-hash downgrade apply when "the kernel is older
    than 5.4.0". *)
Definition isAtLeastKernelVersion (P : Platform) (major minor sub : Z) : bool :=
  KVER major minor sub <=? kernelVersion P.

(** [symCompare], Loader.cpp:268. *)
Definition symCompare (a b : Elf64_Sym) : bool := st_value a <? st_value b.

(** Reasons for which a run has no defined result. *)
Inductive Fault :=
| OutOfBounds (vec : string) (index : Z) (size : nat)
| Unterminated (what : string)
| BufferOverflow (what : string).

(* ===================================================================== *)
(** * The loader monad *)
(* ===================================================================== *)

Section Loader.

Variable P : Platform.

(** The [ifstream] (position and failbit), the kernel, and the trace. *)
Record State := mkState {
  st_pos : Z;
  st_fail : bool;
  st_kern : kstate P;
  st_events : list Event
}.

Inductive Outcome (A : Type) :=
| Ret (a : A) (s : State)
| Undefined (f : Fault)
| Aborted.

Arguments Ret {A} a s.
Arguments Undefined {A} f.
Arguments Aborted {A}.

Definition M (A : Type) : Type := State -> Outcome A.

Definition pure {A} (a : A) : M A := fun s => Ret a s.

Definition bind {A B} (c : M A) (k : A -> M B) : M B :=
  fun s =>
    match c s with
    | Ret a s' => k a s'
    | Undefined f => Undefined f
    | Aborted => Aborted
    end.

Notation "x <- c ;; k" := (bind c (fun x => k))
  (at level 61, c at next level, right associativity).
Notation "' pat <- c ;; k" := (bind c (fun x => match x with pat => k end))
  (at level 61, pat pattern, c at next level, right associativity).
Notation "c ;;; k" := (bind c (fun _ => k))
  (at level 61, right associativity).

Definition undefined {A} (f : Fault) : M A := fun _ => Undefined f.

(** [abort()]. *)
Definition abort {A} : M A := fun _ => Aborted.

Definition emit (e : Event) : M unit :=
  fun s => Ret tt (mkState (st_pos s) (st_fail s) (st_kern s)
                           (st_events s ++ [e])).

(** ALOGD / ALOGI / ALOGW / ALOGE.  ALOGV lines are compiled out and are
    not part of the trace. *)
Definition ALOG (prio : LogPrio) (fmt : string) (args : list LogArg) : M unit :=
  emit (ev_log prio fmt args).

(** A call into the platform: recorded in the trace, answered by [sys]. *)
Definition syscall (c : Syscall) : M SysRet :=
  fun s =>
    let (r, k') := sys P c (st_kern s) in
    Ret r (mkState (st_pos s) (st_fail s) k' (st_events s ++ [ev_sys c])).

(** [v[i]]: outside the vector there is no defined result. *)
Definition at_index {A} (vec : string) (v : list A) (i : Z) : M A :=
  if i <? 0 then undefined (OutOfBounds vec i (List.length v))
  else match nth_error v (Z.to_nat i) with
       | Some x => pure x
       | None => undefined (OutOfBounds vec i (List.length v))
       end.

(** Results that carry an [int] status as the source's functions do:
    [Err ret] is a non-zero return, [Ok v] is a return of 0 with the
    out-parameter set to [v]. *)
Inductive status (A : Type) :=
| Err (ret : Z)
| Ok (v : A).

Arguments Err {A} ret.
Arguments Ok {A} v.

(** How a loop body ends: fall through to the next iteration, or leave
    the function with a return value. *)
Inductive Flow :=
| Next
| Return (ret : Z).

(* ===================================================================== *)
(** * The ELF reader *)
(* ===================================================================== *)

(** [elfFile.seekg(off)]: nothing happens on a failed stream; an offset
    that is not a valid stream offset sets the failbit. *)
Definition seekg (off : Z) : M unit :=
  fun s =>
    if st_fail s then Ret tt s
    else if (0 <=? off) && (off <? 2 ^ 63)
         then Ret tt (mkState off false (st_kern s) (st_events s))
         else Ret tt (mkState (st_pos s) true (st_kern s) (st_events s)).

(** [elfFile.fail()]. *)
Definition fail : M bool := fun s => Ret (st_fail s) s.

(** [elfFile.read(buf, n)] followed by the test of the stream: the [n]
    bytes at the current position, or [None] with the failbit set when
    the file is too short.  Reading no byte succeeds on a good stream. *)
Definition read (elfFile : list Z) (n : Z) : M (option (list Z)) :=
  fun s =>
    if st_fail s then Ret None s
    else if n =? 0 then Ret (Some []) s
    else if st_pos s + n <=? Z.of_nat (List.length elfFile)
         then Ret (Some (slice (Z.to_nat (st_pos s)) (Z.to_nat n) elfFile))
                  (mkState (st_pos s + n) false (st_kern s) (st_events s))
         else Ret None (mkState (st_pos s) true (st_kern s) (st_events s)).

(** [readElfHeader], Loader.cpp:120. *)
Definition readElfHeader (elfFile : list Z) : M (status Elf64_Ehdr) :=
  seekg 0 ;;;
  f <- fail ;;
  if f then pure (Err (-1))
  else
    r <- read elfFile (Z.of_nat sizeof_Ehdr) ;;
    match r with
    | None => pure (Err (-1))
    | Some b => pure (Ok (decode_Ehdr b))
    end.

(** [readSectionHeadersAll], Loader.cpp:130.  The table is resized to
    [e_shnum] zeroed entries and [e_shnum * e_shentsize] bytes are read
    over it: more than the table holds is a buffer overflow. *)
Definition readSectionHeadersAll (elfFile : list Z)
  : M (status (list Elf64_Shdr)) :=
  r <- readElfHeader elfFile ;;
  match r with
  | Err e => pure (Err e)
  | Ok eh =>
      seekg (e_shoff eh) ;;;
      f <- fail ;;
      if f then pure (Err (-1))
      else
        let cap := (Z.to_nat (e_shnum eh) * sizeof_Shdr)%nat in
        if Z.of_nat cap <? e_shnum eh * e_shentsize eh
        then undefined (BufferOverflow "shTable")
        else
          r <- read elfFile (e_shnum eh * e_shentsize eh) ;;
          match r with
          | None => pure (Err (- ENOMEM))
          | Some b =>
              let image := b ++ repeat 0 (cap - List.length b) in
              pure (Ok (map decode_Shdr
                         (chunks (Z.to_nat (e_shnum eh)) sizeof_Shdr image)))
          end
  end.

(** [readSectionByIdx], Loader.cpp:149. *)
Definition readSectionByIdx (elfFile : list Z) (id : Z)
  : M (status (list Z)) :=
  r <- readSectionHeadersAll elfFile ;;
  match r with
  | Err e => pure (Err e)
  | Ok shTable =>
      sh <- at_index "shTable" shTable id ;;
      seekg (sh_offset sh) ;;;
      f <- fail ;;
      if f then pure (Err (-1))
      else
        r <- read elfFile (sh_size sh) ;;
        match r with
        | None => pure (Err (-1))
        | Some sec => pure (Ok sec)
        end
  end.

(** [readSectionHeaderStrtab], Loader.cpp:164. *)
Definition readSectionHeaderStrtab (elfFile : list Z)
  : M (status (list Z)) :=
  r <- readElfHeader elfFile ;;
  match r with
  | Err e => pure (Err e)
  | Ok eh => readSectionByIdx elfFile (e_shstrndx eh)
  end.

(** [getSymName], Loader.cpp:176.  [nameOff] is an [int]: a negative
    offset passes the size test and reads before the table. *)
Definition getSymName (elfFile : list Z) (nameOff : Z) : M (status string) :=
  r <- readSectionHeaderStrtab elfFile ;;
  match r with
  | Err e => pure (Err e)
  | Ok secStrTab =>
      if to_int (Z.of_nat (List.length secStrTab)) <=? nameOff
      then pure (Err (-1))
      else if nameOff <? 0
      then undefined (OutOfBounds "secStrTab" nameOff (List.length secStrTab))
      else match cstring (skipn (Z.to_nat nameOff) secStrTab) with
           | None => undefined (Unterminated "secStrTab")
           | Some name => pure (Ok name)
           end
  end.

(** The section read once its header is found (Loader.cpp:206-215 and
    254-263): resize, seek, read. *)
Definition readSectionData (elfFile : list Z) (sh : Elf64_Shdr)
  : M (status (list Z)) :=
  seekg (sh_offset sh) ;;;
  f <- fail ;;
  if f then pure (Err (-1))
  else
    r <- read elfFile (sh_size sh) ;;
    match r with
    | None => pure (Err (-1))
    | Some dataTmp => pure (Ok dataTmp)
    end.

(** The loop of [readSectionByName], Loader.cpp:201.  [data()] of an
    empty vector is the null pointer, which the loop skips when the name
    offset is 0. *)
Fixpoint readSectionByName_loop (elfFile : list Z) (name : string)
    (secStrTab : list Z) (shs : list Elf64_Shdr) : M (status (list Z)) :=
  match shs with
  | [] => pure (Err (-2))
  | sh :: rest =>
      if (List.length secStrTab =? 0)%nat && (sh_name sh =? 0)
      then readSectionByName_loop elfFile name secStrTab rest
      else
        match strcmp_eq (skipn (Z.to_nat (sh_name sh)) secStrTab) name with
        | None =>
            undefined (OutOfBounds "secStrTab" (sh_name sh)
                                   (List.length secStrTab))
        | Some true => readSectionData elfFile sh
        | Some false => readSectionByName_loop elfFile name secStrTab rest
        end
  end.

(** [readSectionByName], Loader.cpp:190. *)
Definition readSectionByName (name : string) (elfFile : list Z)
  : M (status (list Z)) :=
  r <- readSectionHeadersAll elfFile ;;
  match r with
  | Err e => pure (Err e)
  | Ok shTable =>
      r <- readSectionHeaderStrtab elfFile ;;
      match r with
      | Err e => pure (Err e)
      | Ok secStrTab => readSectionByName_loop elfFile name secStrTab shTable
      end
  end.

(** Conversion to [unsigned char]. *)
Definition to_u8 (z : Z) : Z := z mod 256.

(** [readSectionUint], Loader.cpp:221: the first four bytes of the named
    section as a little-endian 32-bit value, [defVal] when the section
    cannot be read or is shorter than four bytes. *)
Definition readSectionUint (name : string) (elfFile : list Z) (defVal : Z)
  : M Z :=
  r <- readSectionByName name elfFile ;;
  match r with
  | Err _ => pure (defVal)
  | Ok theBytes =>
      if (List.length theBytes <? 4)%nat
      then
        ALOG LOG_ERROR "Section %s too short (defaulting to %u [0x%x])."
             [ArgStr name; ArgInt defVal; ArgInt defVal] ;;;
        pure (defVal)
      else
        let value := to_u8 (nth 3 theBytes 0) in
        let value := to_u32 (Z.shiftl value 8) in
        let value := to_u32 (value + to_u8 (nth 2 theBytes 0)) in
        let value := to_u32 (Z.shiftl value 8) in
        let value := to_u32 (value + to_u8 (nth 1 theBytes 0)) in
        let value := to_u32 (Z.shiftl value 8) in
        let value := to_u32 (value + to_u8 (nth 0 theBytes 0)) in
        pure (value)
  end.

(** The loop of [readSectionByType], Loader.cpp:251. *)
Fixpoint readSectionByType_loop (elfFile : list Z) (type : Z)
    (shs : list Elf64_Shdr) : M (status (list Z)) :=
  match shs with
  | [] => pure (Err (-2))
  | sh :: rest =>
      if to_int (sh_type sh) =? type
      then readSectionData elfFile sh
      else readSectionByType_loop elfFile type rest
  end.

(** [readSectionByType], Loader.cpp:244. *)
Definition readSectionByType (elfFile : list Z) (type : Z)
  : M (status (list Z)) :=
  r <- readSectionHeadersAll elfFile ;;
  match r with
  | Err e => pure (Err e)
  | Ok shTable => readSectionByType_loop elfFile type shTable
  end.

(** [readSymTab], Loader.cpp:272. *)
Definition readSymTab (elfFile : list Z) (sort : bool)
  : M (status (list Elf64_Sym)) :=
  r <- readSectionByType elfFile SHT_SYMTAB ;;
  match r with
  | Err e => pure (Err e)
  | Ok secData =>
      let data := decode_array sizeof_Sym decode_Sym secData in
      pure (Ok (if sort then std_sort P data else data))
  end.

(* ===================================================================== *)
(** * The section classifier *)
(* ===================================================================== *)

(** The first row of [sectionNameTypes] whose prefix starts [name]. *)
Definition sectionTypeOf (name : string) : option sectionType :=
  find (fun snt => Str.StartsWith name (snt_name snt)) sectionNameTypes.

(** [getSectionType], Loader.cpp:294. *)
Definition getSectionType (name : string) : Z :=
  match sectionTypeOf name with
  | Some snt => snt_type snt
  | None =>
      if Str.StartsWith name "fuse/" then getFuseProgType P
      else BPF_PROG_TYPE_UNSPEC
  end.

(** [getExpectedAttachType], Loader.cpp:304. *)
Definition getExpectedAttachType (name : string) : Z :=
  match sectionTypeOf name with
  | Some snt => snt_expected_attach_type snt
  | None => BPF_ATTACH_TYPE_UNSPEC
  end.

(** [std::to_string] of an [int]. *)
Definition to_string (z : Z) : string :=
  DecimalString.NilZero.string_of_int (Z.to_int z).

(** [getSectionName], Loader.cpp:310. *)
Definition getSectionName (type : Z) : string :=
  match find (fun snt => snt_type snt =? type) sectionNameTypes with
  | Some snt => snt_name snt
  | None => "UNKNOWN SECTION NAME " +++ to_string type
  end.

(** [IsAllowed], Loader.cpp:380; [None] is the null allow-list. *)
Definition IsAllowed (type : Z) (allowed : option (list Z)) : bool :=
  match allowed with
  | None => true
  | Some l =>
      existsb (fun a =>
                 if a =? BPF_PROG_TYPE_UNSPEC
                 then type =? getFuseProgType P
                 else type =? a) l
  end.

(* ===================================================================== *)
(** * The definition extractor *)
(* ===================================================================== *)

(** [readProgDefs], Loader.cpp:319. *)
Definition readProgDefs (elfFile : list Z) : M (status (list bpf_prog_def)) :=
  r <- readSectionByName "progs" elfFile ;;
  match r with
  | Err e => pure (Err e)
  | Ok pdData =>
      if negb (Nat.modulo (List.length pdData) (sizeof_bpf_prog_def P) =? 0)%nat
      then
        ALOG LOG_ERROR
          "readProgDefs failed due to improper sized progs section, %zu %% %zu != 0"
          [ArgInt (Z.of_nat (List.length pdData));
           ArgInt (Z.of_nat (sizeof_bpf_prog_def P))] ;;;
        pure (Err (-1))
      else
        pure (Ok (decode_array (sizeof_bpf_prog_def P)
                              (decode_bpf_prog_def P) pdData))
  end.

(** The search for the index of the named section, Loader.cpp:350;
    [Ok (-1)] when no section has the name. *)
Fixpoint findSectionIndex (elfFile : list Z) (sectionName : string)
    (i : Z) (shs : list Elf64_Shdr) : M (status Z) :=
  match shs with
  | [] => pure (Ok (-1))
  | sh :: rest =>
      r <- getSymName elfFile (to_int (sh_name sh)) ;;
      match r with
      | Err e => pure (Err e)
      | Ok name =>
          if String.eqb name sectionName then pure (Ok i)
          else findSectionIndex elfFile sectionName (i + 1) rest
      end
  end.

(** The collection of the symbol names of section [sec_idx],
    Loader.cpp:366; the names gathered so far stay in the out-parameter
    when a name cannot be resolved. *)
Fixpoint collectSymNames (elfFile : list Z) (sec_idx : Z)
    (symbolType : option Z) (symtab : list Elf64_Sym) (names : list string)
  : M (Z * list string) :=
  match symtab with
  | [] => pure (0, names)
  | sym :: rest =>
      let skip :=
        match symbolType with
        | Some t => negb (ELF_ST_TYPE (st_info sym) =? t)
        | None => false
        end in
      if skip then collectSymNames elfFile sec_idx symbolType rest names
      else if st_shndx sym =? sec_idx
      then
        r <- getSymName elfFile (to_int (st_name sym)) ;;
        match r with
        | Err e => pure (e, names)
        | Ok s =>
            collectSymNames elfFile sec_idx symbolType rest (names ++ [s])
        end
      else collectSymNames elfFile sec_idx symbolType rest names
  end.

(** [getSectionSymNames], Loader.cpp:335: the return value and the
    [names] out-parameter (empty on entry at every call site). *)
Definition getSectionSymNames (elfFile : list Z) (sectionName : string)
    (symbolType : option Z) : M (Z * list string) :=
  r <- readSymTab elfFile true ;;
  match r with
  | Err e => pure (e, [])
  | Ok symtab =>
      r <- readSectionHeadersAll elfFile ;;
      match r with
      | Err e => pure (e, [])
      | Ok shTable =>
          r <- findSectionIndex elfFile sectionName 0 shTable ;;
          match r with
          | Err e => pure (e, [])
          | Ok sec_idx =>
              if sec_idx =? -1
              then
                ALOG LOG_WARN "No %s section could be found in elf object"
                     [ArgStr sectionName] ;;;
                pure (-1, [])
              else collectSymNames elfFile sec_idx symbolType symtab []
          end
      end
  end.

(** [getSymNameByIdx], Loader.cpp:472.  [index] is an [int]: a negative
    index passes the size test. *)
Definition getSymNameByIdx (elfFile : list Z) (index : Z) : M (status string) :=
  r <- readSymTab elfFile false ;;
  match r with
  | Err e => pure (Err e)
  | Ok symtab =>
      if to_int (Z.of_nat (List.length symtab)) <=? index
      then pure (Err (-1))
      else
        sym <- at_index "symtab" symtab index ;;
        getSymName elfFile (to_int (st_name sym))
  end.

(* ===================================================================== *)
(** * Code sections *)
(* ===================================================================== *)

(** The pairing loop of Loader.cpp:445: the ProgDef at the index of the
    first name equal to [target]. *)
Fixpoint findProgDef (pd : list bpf_prog_def) (i : Z)
    (progDefNames : list string) (target : string)
  : M (option bpf_prog_def) :=
  match progDefNames with
  | [] => pure (None)
  | n :: rest =>
      if String.eqb n target
      then d <- at_index "pd" pd i ;; pure (Some d)
      else findProgDef pd (i + 1) rest target
  end.

(** The check for a relocation section, Loader.cpp:453: [Err ret] leaves
    [readCodeSections] with [ret], [Ok rel] carries on with [rel_data]. *)
Definition readRelSection (elfFile : list Z) (shTable : list Elf64_Shdr)
    (entries i : Z) (data : list Z) (oldName : string)
  : M (status (list Z)) :=
  if (0 <? Z.of_nat (List.length data)) && (i <? entries)
  then
    sh1 <- at_index "shTable" shTable (i + 1) ;;
    r <- getSymName elfFile (to_int (sh_name sh1)) ;;
    match r with
    | Err e => pure (Err e)
    | Ok name =>
        if String.eqb name (".rel" +++ oldName)
        then readSectionByIdx elfFile (i + 1)
        else pure (Ok [])
    end
  else pure (Ok []).

(** One iteration of the loop of [readCodeSections], Loader.cpp:410. *)
Definition readCodeSections_body (elfFile : list Z) (allowed : option (list Z))
    (shTable : list Elf64_Shdr) (entries : Z) (pd : list bpf_prog_def)
    (progDefNames : list string) (i : Z) (cs : list codeSection)
  : M (Flow * list codeSection) :=
  sh <- at_index "shTable" shTable i ;;
  r <- getSymName elfFile (to_int (sh_name sh)) ;;
  match r with
  | Err e => pure (Return e, cs)
  | Ok name =>
      let ptype := getSectionType name in
      if ptype =? BPF_PROG_TYPE_UNSPEC then pure (Next, cs)
      else if negb (IsAllowed ptype allowed)
      then
        ALOG LOG_ERROR "Program type %s not permitted here"
             [ArgStr (getSectionName ptype)] ;;;
        pure (Return (-1), cs)
      else
        let expected_attach_type := getExpectedAttachType name in
        let oldName := name in
        let name := Str.replace "/" "_" name in
        r <- readSectionByIdx elfFile i ;;
        match r with
        | Err e => pure (Return e, cs)
        | Ok data =>
            ' (ret, csSymNames) <-
                getSectionSymNames elfFile oldName (Some STT_FUNC) ;;
            match csSymNames with
            | [] => pure (Return ret, cs)
            | sym0 :: _ =>
                if negb (ret =? 0) then pure (Return ret, cs)
                else
                  prog_def <- findProgDef pd 0 progDefNames (sym0 +++ "_def") ;;
                  r <- readRelSection elfFile shTable entries i data oldName ;;
                  match r with
                  | Err e => pure (Return e, cs)
                  | Ok rel_data =>
                      let cs_temp :=
                        mkCodeSection ptype expected_attach_type name data
                                      rel_data prog_def (-1) in
                      if 0 <? Z.of_nat (List.length data)
                      then pure (Next, cs ++ [cs_temp])
                      else pure (Next, cs)
                  end
            end
        end
  end.

(** The loop of [readCodeSections] over the section indices still to
    visit. *)
Fixpoint readCodeSections_loop (elfFile : list Z) (allowed : option (list Z))
    (shTable : list Elf64_Shdr) (entries : Z) (pd : list bpf_prog_def)
    (progDefNames : list string) (idxs : list Z) (cs : list codeSection)
  : M (Z * list codeSection) :=
  match idxs with
  | [] => pure (0, cs)
  | i :: rest =>
      ' (flow, cs') <-
          readCodeSections_body elfFile allowed shTable entries pd
                                progDefNames i cs ;;
      match flow with
      | Return ret => pure (ret, cs')
      | Next =>
          readCodeSections_loop elfFile allowed shTable entries pd
                                progDefNames rest cs'
      end
  end.

(** The indices [0, 1, ..., n-1] of a [for (int i = 0; i < n; i++)]. *)
Definition indices (n : nat) : list Z := map Z.of_nat (seq 0 n).

(** [readCodeSections], Loader.cpp:394: the return value and the [cs]
    out-parameter. *)
Definition readCodeSections (elfFile : list Z) (allowed : option (list Z))
  : M (Z * list codeSection) :=
  r <- readSectionHeadersAll elfFile ;;
  match r with
  | Err e => pure (e, [])
  | Ok shTable =>
      let entries := to_int (Z.of_nat (List.length shTable)) in
      r <- readProgDefs elfFile ;;
      match r with
      | Err e => pure (e, [])
      | Ok pd =>
          ' (ret, progDefNames) <- getSectionSymNames elfFile "progs" None ;;
          if negb (List.length pd =? 0)%nat && negb (ret =? 0)
          then pure (ret, [])
          else
            readCodeSections_loop elfFile allowed shTable entries pd
              progDefNames (indices (Z.to_nat entries)) []
      end
  end.

(* ===================================================================== *)
(** * The map installer *)
(* ===================================================================== *)

(** [fd.ok()] of android::base::unique_fd. *)
Definition fd_ok (fd : Z) : bool := 0 <=? fd.

(** [desired_map_flags] of [mapMatchesExpectations], Loader.cpp:498. *)
Definition desired_map_flags (mapDef : bpf_map_def) (type : Z) : Z :=
  let flags := to_int (md_map_flags mapDef) in
  if (type =? BPF_MAP_TYPE_DEVMAP) || (type =? BPF_MAP_TYPE_DEVMAP_HASH)
  then to_int (Z.lor flags BPF_F_RDONLY_PROG)
  else flags.

(** The ring-buffer adjustment of [max_entries], written twice in the
    source (Loader.cpp:505 and 589). *)
Definition adjusted_max_entries (mapDef : bpf_map_def) (type : Z) : Z :=
  if type =? BPF_MAP_TYPE_RINGBUF
  then if md_max_entries mapDef <? page_size P
       then page_size P else md_max_entries mapDef
  else md_max_entries mapDef.

(** The comparison of Loader.cpp:517 on the five queried values. *)
Definition attributes_match (mapDef : bpf_map_def) (type : Z)
    (fd_type fd_key_size fd_value_size fd_max_entries fd_map_flags : Z)
  : bool :=
  (to_u32 fd_type =? to_u32 type)
  && (fd_key_size =? to_int (md_key_size mapDef))
  && (fd_value_size =? to_int (md_value_size mapDef))
  && (fd_max_entries =? to_int (adjusted_max_entries mapDef type))
  && (fd_map_flags =? desired_map_flags mapDef type).

(** [mapMatchesExpectations], Loader.cpp:484. *)
Definition mapMatchesExpectations (fd : Z) (mapName : string)
    (mapDef : bpf_map_def) (type : Z) : M bool :=
  r_type <- syscall (sys_bpfGetFdMapType fd) ;;
  r_key <- syscall (sys_bpfGetFdKeySize fd) ;;
  r_value <- syscall (sys_bpfGetFdValueSize fd) ;;
  r_entries <- syscall (sys_bpfGetFdMaxEntries fd) ;;
  r_flags <- syscall (sys_bpfGetFdMapFlags fd) ;;
  let fd_type := sr_ret r_type in
  let fd_key_size := sr_ret r_key in
  let fd_value_size := sr_ret r_value in
  let fd_max_entries := sr_ret r_entries in
  let fd_map_flags := sr_ret r_flags in
  if attributes_match mapDef type fd_type fd_key_size fd_value_size
                      fd_max_entries fd_map_flags
  then pure (true)
  else
    ALOG LOG_ERROR
      ("bpf map name %s mismatch: desired/found: " +++
       "type:%d/%d key:%u/%d value:%u/%d entries:%u/%d flags:%u/%d")
      [ArgStr mapName; ArgInt type; ArgInt fd_type;
       ArgInt (md_key_size mapDef); ArgInt fd_key_size;
       ArgInt (md_value_size mapDef); ArgInt fd_value_size;
       ArgInt (md_max_entries mapDef); ArgInt fd_max_entries;
       ArgInt (desired_map_flags mapDef type); ArgInt fd_map_flags] ;;;
    pure (false).

(** The version gate of Loader.cpp:560-572. *)
Definition map_version_excluded (mapDef : bpf_map_def) : bool :=
  (kernelVersion P <? md_min_kver mapDef)
  || (md_max_kver mapDef <=? kernelVersion P).

(** The type the map is created with, Loader.cpp:574. *)
Definition effective_map_type (mapDef : bpf_map_def) : Z :=
  if (md_type mapDef =? BPF_MAP_TYPE_DEVMAP_HASH)
     && negb (isAtLeastKernelVersion P 5 4 0)
  then BPF_MAP_TYPE_HASH
  else md_type mapDef.

(** The pin location of a map, Loader.cpp:597. *)
Definition mapPinLoc (prefix objName : string) (mapDef : bpf_map_def)
    (mapName : string) : string :=
  BPF_FS_PATH +++ prefix +++ "map_" +++
  (if md_shared mapDef then "" else objName) +++ "_" +++ mapName.

(** [strlcpy] into the 16-byte [map_name] / [prog_name] of bpf_attr. *)
Definition obj_name (s : string) : string := Str.prefix_len 15 s.

(** The request of Loader.cpp:609. *)
Definition map_create_request (mapDef : bpf_map_def) (type max_entries : Z)
    (mapName : string) : map_create_req :=
  mkMapCreate type (md_key_size mapDef) (md_value_size mapDef) max_entries
              (md_map_flags mapDef) (obj_name mapName).

(** Loader.cpp:603-620: the FD of the map, from the pin when there is
    one and from the kernel otherwise, with [errno] and [reuse]. *)
Definition obtainMapFd (pinLoc : string) (mapDef : bpf_map_def)
    (type max_entries : Z) (mapName : string) : M (Z * positive * bool) :=
  a <- syscall (sys_access pinLoc) ;;
  if sr_ret a =? 0
  then
    r <- syscall (sys_mapRetrieveRO pinLoc) ;;
    pure (sr_ret r, sr_errno r, true)
  else
    r <- syscall (sys_BPF_MAP_CREATE
                    (map_create_request mapDef type max_entries mapName)) ;;
    pure (sr_ret r, sr_errno r, false).

(** Loader.cpp:629-650: pin, chmod and chown of a newly created map;
    the value left in [ret] and whether the function returns with it. *)
Definition pinNewMap (fd : Z) (pinLoc : string) (mapDef : bpf_map_def)
  : M Flow :=
  r <- syscall (sys_bpfFdPin fd pinLoc) ;;
  if negb (sr_ret r =? 0)
  then
    let err := Z.pos (sr_errno r) in
    ALOG LOG_ERROR "pin %s -> %d [%d:%s]"
         [ArgStr pinLoc; ArgInt (sr_ret r); ArgInt err; ArgInt err] ;;;
    pure (Return (- err))
  else
    r <- syscall (sys_chmod pinLoc (md_mode mapDef)) ;;
    if negb (sr_ret r =? 0)
    then
      let err := Z.pos (sr_errno r) in
      ALOG LOG_ERROR "chmod(%s, 0%o) = %d [%d:%s]"
           [ArgStr pinLoc; ArgInt (md_mode mapDef); ArgInt (sr_ret r);
            ArgInt err; ArgInt err] ;;;
      pure (Return (- err))
    else
      r <- syscall (sys_chown pinLoc (md_uid mapDef) (md_gid mapDef)) ;;
      if negb (sr_ret r =? 0)
      then
        let err := Z.pos (sr_errno r) in
        ALOG LOG_ERROR "chown(%s, %u, %u) = %d [%d:%s]"
             [ArgStr pinLoc; ArgInt (md_uid mapDef); ArgInt (md_gid mapDef);
              ArgInt (sr_ret r); ArgInt err; ArgInt err] ;;;
        pure (Return (- err))
      else pure (Next).

(** Loader.cpp:652-657. *)
Definition logMapId (fd : Z) (pinLoc : string) : M unit :=
  r <- syscall (sys_bpfGetFdMapId fd) ;;
  let mapId := sr_ret r in
  if mapId =? -1
  then ALOG LOG_ERROR "bpfGetFdMapId failed, ret: %d [%d]"
            [ArgInt mapId; ArgInt (Z.pos (sr_errno r))]
  else ALOG LOG_DEBUG "map %s id %d" [ArgStr pinLoc; ArgInt mapId].

(** Loader.cpp:622-659: what happens to a map once its FD is obtained. *)
Definition installMapFd (fd : Z) (saved_errno : positive) (reuse : bool)
    (pinLoc mapName : string) (mapDef : bpf_map_def) (type : Z)
    (mapFds : list Z) (ret : Z) : M (Flow * list Z * Z) :=
  if negb (fd_ok fd) then pure (Return (- Z.pos saved_errno), mapFds, ret)
  else
    ok <- mapMatchesExpectations fd mapName mapDef type ;;
    if negb ok then pure (Return (- ENOTUNIQ), mapFds, ret)
    else
      flow <- (if reuse then pure (Next) else pinNewMap fd pinLoc mapDef) ;;
      match flow with
      | Return e => pure (Return e, mapFds, ret)
      | Next =>
          let ret := if reuse then ret else 0 in
          logMapId fd pinLoc ;;;
          pure (Next, mapFds ++ [fd], ret)
      end.

(** One iteration of the loop of [createMaps], Loader.cpp:557; the
    placeholder [unique_fd()] holds -1. *)
Definition createMaps_body (prefix objName : string) (md : list bpf_map_def)
    (mapNames : list string) (i : Z) (mapFds : list Z) (ret : Z)
  : M (Flow * list Z * Z) :=
  mapDef <- at_index "md" md i ;;
  mapName <- at_index "mapNames" mapNames i ;;
  if negb (md_zero mapDef =? 0) then abort
  else if kernelVersion P <? md_min_kver mapDef
  then
    ALOG LOG_DEBUG
         "skipping map %s which requires kernel version 0x%x >= 0x%x"
         [ArgStr mapName; ArgInt (kernelVersion P);
          ArgInt (md_min_kver mapDef)] ;;;
    pure (Next, mapFds ++ [-1], ret)
  else if md_max_kver mapDef <=? kernelVersion P
  then
    ALOG LOG_DEBUG
         "skipping map %s which requires kernel version 0x%x < 0x%x"
         [ArgStr mapName; ArgInt (kernelVersion P);
          ArgInt (md_max_kver mapDef)] ;;;
    pure (Next, mapFds ++ [-1], ret)
  else
    let type := effective_map_type mapDef in
    let max_entries := adjusted_max_entries mapDef type in
    let pinLoc := mapPinLoc prefix objName mapDef mapName in
    ' (fd, saved_errno, reuse) <-
        obtainMapFd pinLoc mapDef type max_entries mapName ;;
    installMapFd fd saved_errno reuse pinLoc mapName mapDef type mapFds ret.

(** The loop of [createMaps] and its final [return ret]. *)
Fixpoint createMaps_loop (prefix objName : string) (md : list bpf_map_def)
    (mapNames : list string) (idxs : list Z) (mapFds : list Z) (ret : Z)
  : M (Z * list Z) :=
  match idxs with
  | [] => pure (ret, mapFds)
  | i :: rest =>
      ' (flow, mapFds', ret') <-
          createMaps_body prefix objName md mapNames i mapFds ret ;;
      match flow with
      | Return e => pure (e, mapFds')
      | Next => createMaps_loop prefix objName md mapNames rest mapFds' ret'
      end
  end.

(** [createMaps], Loader.cpp:532: the return value and the [mapFds]
    out-parameter. *)
Definition createMaps (elfPath : string) (elfFile : list Z) (prefix : string)
  : M (Z * list Z) :=
  let objName := pathToObjName elfPath in
  r <- readSectionByName "maps" elfFile ;;
  match r with
  | Err e => if e =? -2 then pure (0, []) else pure (e, [])
  | Ok mdData =>
      if negb (Nat.modulo (List.length mdData) (sizeof_bpf_map_def P) =? 0)%nat
      then
        ALOG LOG_ERROR
          "createMaps failed due to improper sized maps section, %zu %% %zu != 0"
          [ArgInt (Z.of_nat (List.length mdData));
           ArgInt (Z.of_nat (sizeof_bpf_map_def P))] ;;;
        pure (-1, [])
      else
        let md := decode_array (sizeof_bpf_map_def P)
                               (decode_bpf_map_def P) mdData in
        ' (ret, mapNames) <- getSectionSymNames elfFile "maps" None ;;
        if negb (ret =? 0) then pure (ret, [])
        else
          createMaps_loop prefix objName md mapNames
            (indices (List.length mapNames)) [] ret
  end.

(* ===================================================================== *)
(** * The relocator *)
(* ===================================================================== *)

(** [struct bpf_insn] in the instruction buffer (linux/bpf.h, on a
    little-endian target): byte 0 is [code], byte 1 holds [dst_reg] in
    its low and [src_reg] in its high four bits, bytes 2-3 are [off] and
    bytes 4-7 are [imm]. *)
Definition insn_byte (insns : list Z) (insnIndex : Z) (k : nat) : Z :=
  nth (Z.to_nat (8 * insnIndex) + k) insns 0.

Definition insn_code (insns : list Z) (insnIndex : Z) : Z :=
  insn_byte insns insnIndex 0.

Definition insn_dst_reg (insns : list Z) (insnIndex : Z) : Z :=
  Z.land (insn_byte insns insnIndex 1) 15.

Definition insn_src_reg (insns : list Z) (insnIndex : Z) : Z :=
  Z.land (Z.shiftr (insn_byte insns insnIndex 1) 4) 15.

Definition insn_imm (insns : list Z) (insnIndex : Z) : Z :=
  to_int (field (Z.to_nat (8 * insnIndex) + 4) 4 insns).

(** [insn->imm = v]. *)
Definition set_insn_imm (insns : list Z) (insnIndex : Z) (v : Z) : list Z :=
  write_at (Z.to_nat (8 * insnIndex) + 4) (le_encode 4 (to_u32 v)) insns.

(** [insn->src_reg = v]: the high four bits of byte 1. *)
Definition set_insn_src_reg (insns : list Z) (insnIndex : Z) (v : Z)
  : list Z :=
  write_at (Z.to_nat (8 * insnIndex) + 1)
           [Z.lor (Z.land (insn_byte insns insnIndex 1) 15)
                  (Z.shiftl (Z.land v 15) 4)]
           insns.

(** [applyRelo], Loader.cpp:665, on the bytes of the instruction buffer. *)
Definition applyRelo (insns : list Z) (offset : Z) (fd : Z) : M (list Z) :=
  let insnIndex := to_int (offset / Z.of_nat sizeof_bpf_insn) in
  if (insnIndex <? 0)
     || (Z.of_nat (List.length insns) <? 8 * insnIndex + 8)
  then undefined (OutOfBounds "insns" insnIndex
                    (List.length insns / sizeof_bpf_insn))
  else if negb (insn_code insns insnIndex
                =? Z.lor (Z.lor BPF_LD BPF_IMM) BPF_DW)
  then
    ALOG LOG_ERROR "invalid relo for insn %d: code 0x%x"
         [ArgInt insnIndex; ArgInt (insn_code insns insnIndex)] ;;;
    pure (insns)
  else
    pure (set_insn_src_reg (set_insn_imm insns insnIndex fd) insnIndex
            BPF_PSEUDO_MAP_FD).

(** The scan of Loader.cpp:708: the index of the first map name equal
    to [symName]. *)
Fixpoint findMapIndex (mapNames : list string) (symName : string) (j : Z)
  : option Z :=
  match mapNames with
  | [] => None
  | n :: rest =>
      if String.eqb n symName then Some j
      else findMapIndex rest symName (j + 1)
  end.

(** One relocation entry, Loader.cpp:701-713: [Err] leaves
    [applyMapRelo], [Ok data] is the instruction buffer afterwards. *)
Definition applyMapRelo_entry (elfFile : list Z) (mapNames : list string)
    (mapFds : list Z) (rel : Elf64_Rel) (data : list Z)
  : M (status (list Z)) :=
  let symIndex := to_int (ELF64_R_SYM (r_info rel)) in
  r <- getSymNameByIdx elfFile symIndex ;;
  match r with
  | Err e => pure (Err e)
  | Ok symName =>
      match findMapIndex mapNames symName 0 with
      | None => pure (Ok data)
      | Some j =>
          fd <- at_index "mapFds" mapFds j ;;
          data' <- applyRelo data (r_offset rel) fd ;;
          pure (Ok data')
      end
  end.

(** The relocation entries of one code section, Loader.cpp:700: the
    buffer afterwards and whether [applyMapRelo] goes on. *)
Fixpoint applyMapRelo_entries (elfFile : list Z) (mapNames : list string)
    (mapFds : list Z) (rels : list Elf64_Rel) (data : list Z)
  : M (bool * list Z) :=
  match rels with
  | [] => pure (true, data)
  | rel :: rest =>
      r <- applyMapRelo_entry elfFile mapNames mapFds rel data ;;
      match r with
      | Err _ => pure (false, data)
      | Ok data' => applyMapRelo_entries elfFile mapNames mapFds rest data'
      end
  end.

(** A code section with its instruction buffer replaced. *)
Definition with_data (c : codeSection) (data : list Z) : codeSection :=
  mkCodeSection (cs_type c) (cs_expected_attach_type c) (cs_name c) data
                (cs_rel_data c) (cs_prog_def c) (cs_prog_fd c).

(** The loop over the code sections, Loader.cpp:696. *)
Fixpoint applyMapRelo_sections (elfFile : list Z) (mapNames : list string)
    (mapFds : list Z) (cs : list codeSection) : M (list codeSection) :=
  match cs with
  | [] => pure ([])
  | c :: rest =>
      let rels := decode_array sizeof_Rel decode_Rel (cs_rel_data c) in
      ' (go_on, data) <-
          applyMapRelo_entries elfFile mapNames mapFds rels (cs_data c) ;;
      if go_on
      then
        rest' <- applyMapRelo_sections elfFile mapNames mapFds rest ;;
        pure (with_data c data :: rest')
      else pure (with_data c data :: rest)
  end.

(** [applyMapRelo], Loader.cpp:690: the code sections afterwards. *)
Definition applyMapRelo (elfFile : list Z) (mapFds : list Z)
    (cs : list codeSection) : M (list codeSection) :=
  ' (ret, mapNames) <- getSectionSymNames elfFile "maps" None ;;
  if negb (ret =? 0) then pure (cs)
  else applyMapRelo_sections elfFile mapNames mapFds cs.

(* ===================================================================== *)
(** * The program installer *)
(* ===================================================================== *)

(** The version gate of Loader.cpp:741. *)
Definition prog_version_excluded (pd : bpf_prog_def) : bool :=
  (kernelVersion P <? pd_min_kver pd) || (pd_max_kver pd <=? kernelVersion P).

(** The pin location of a program, Loader.cpp:750-756. *)
Definition progPinLoc (prefix objName name : string) : string :=
  let name := Str.substr0 name (Str.find_last_of name "$") in
  BPF_FS_PATH +++ prefix +++ "prog_" +++ objName +++ "_" +++ name.

Definition BPF_LOAD_LOG_SZ : Z := 1048575.

(** The request of Loader.cpp:765. *)
Definition prog_load_request (c : codeSection) (license : string)
  : prog_load_req :=
  mkProgLoad (cs_type c) (kernelVersion P) license (cs_data c)
             (to_u32 (Z.of_nat (List.length (cs_data c) / sizeof_bpf_insn)))
             1 (to_u32 BPF_LOAD_LOG_SZ) (cs_expected_attach_type c)
             (obj_name (cs_name c)).

(** A code section with its program FD replaced. *)
Definition with_prog_fd (c : codeSection) (fd : Z) : codeSection :=
  mkCodeSection (cs_type c) (cs_expected_attach_type c) (cs_name c)
                (cs_data c) (cs_rel_data c) (cs_prog_def c) fd.

(** Loader.cpp:786: one warning per line of the verifier log. *)
Fixpoint logLines (lines : list string) : M unit :=
  match lines with
  | [] => pure (tt)
  | line :: rest => ALOG LOG_WARN "%s" [ArgStr line] ;;; logLines rest
  end.

(** Loader.cpp:779-794, entered when [BPF_PROG_LOAD] gave no valid FD:
    [true] when the loop continues with the next program. *)
Definition reportLoadFailure (elfPath : string) (c : codeSection)
    (pd : bpf_prog_def) (r : SysRet) : M bool :=
  ALOG LOG_WARN "BPF_PROG_LOAD call for %s (%s) returned fd: %d (%s)"
       [ArgStr elfPath; ArgStr (cs_name c); ArgInt (sr_ret r);
        ArgInt (Z.pos (sr_errno r))] ;;;
  ALOG LOG_WARN "BPF_PROG_LOAD - BEGIN log_buf contents:" [] ;;;
  logLines (Str.Split (sr_log_buf r) "010") ;;;
  ALOG LOG_WARN "BPF_PROG_LOAD - END log_buf contents." [] ;;;
  if pd_optional pd
  then
    ALOG LOG_WARN "failed program is marked optional - continuing..." [] ;;;
    pure (true)
  else
    ALOG LOG_ERROR "non-optional program failed to load." [] ;;;
    pure (false).

(** Loader.cpp:799-818: pin, chmod 0440 and chown of a new program. *)
Definition pinNewProg (fd : Z) (pinLoc : string) (pd : bpf_prog_def)
  : M Flow :=
  r <- syscall (sys_bpfFdPin fd pinLoc) ;;
  if negb (sr_ret r =? 0)
  then
    let err := Z.pos (sr_errno r) in
    ALOG LOG_ERROR "create %s -> %d [%d:%s]"
         [ArgStr pinLoc; ArgInt (sr_ret r); ArgInt err; ArgInt err] ;;;
    pure (Return (- err))
  else
    r <- syscall (sys_chmod pinLoc 288) ;;
    if negb (sr_ret r =? 0)
    then
      let err := Z.pos (sr_errno r) in
      ALOG LOG_ERROR "chmod %s 0440 -> [%d:%s]"
           [ArgStr pinLoc; ArgInt err; ArgInt err] ;;;
      pure (Return (- err))
    else
      r <- syscall (sys_chown pinLoc (pd_uid pd) (pd_gid pd)) ;;
      if negb (sr_ret r =? 0)
      then
        let err := Z.pos (sr_errno r) in
        ALOG LOG_ERROR "chown %s %d %d -> [%d:%s]"
             [ArgStr pinLoc; ArgInt (pd_uid pd); ArgInt (pd_gid pd);
              ArgInt err; ArgInt err] ;;;
        pure (Return (- err))
      else pure (Next).

(** Loader.cpp:820-825. *)
Definition logProgId (fd : Z) (pinLoc : string) : M unit :=
  r <- syscall (sys_bpfGetFdProgId fd) ;;
  let progId := sr_ret r in
  if progId =? -1
  then ALOG LOG_ERROR "bpfGetFdProgId failed, ret: %d [%d]"
            [ArgInt progId; ArgInt (Z.pos (sr_errno r))]
  else ALOG LOG_DEBUG "prog %s id %d" [ArgStr pinLoc; ArgInt progId].

(** Loader.cpp:797-825: what happens to a program once its FD is set. *)
Definition installProgFd (fd : Z) (reuse : bool) (pinLoc : string)
    (pd : bpf_prog_def) : M Flow :=
  if negb (fd_ok fd) then pure (Return fd)
  else
    flow <- (if reuse then pure (Next) else pinNewProg fd pinLoc pd) ;;
    match flow with
    | Return e => pure (Return e)
    | Next => logProgId fd pinLoc ;;; pure (Next)
    end.

(** One iteration of the loop of [loadCodeSections], Loader.cpp:729:
    how it ends, and [cs[i]] afterwards. *)
Definition loadCodeSections_body (elfPath : string) (license prefix : string)
    (objName : string) (i : Z) (c : codeSection) : M (Flow * codeSection) :=
  let name := cs_name c in
  match cs_prog_def c with
  | None =>
      ALOG LOG_ERROR "[%d] '%s' missing program definition! bad bpf.o build?"
           [ArgInt i; ArgStr name] ;;;
      pure (Return (- EINVAL), c)
  | Some pd =>
      if prog_version_excluded pd
      then
        ALOG LOG_DEBUG
          "skipping program cs[%d].name:%s min_kver:%x max_kver:%x (kvers:%x)"
          [ArgInt i; ArgStr name; ArgInt (pd_min_kver pd);
           ArgInt (pd_max_kver pd); ArgInt (kernelVersion P)] ;;;
        pure (Next, c)
      else
        let pinLoc := progPinLoc prefix objName name in
        a <- syscall (sys_access pinLoc) ;;
        if sr_ret a =? 0
        then
          r <- syscall (sys_retrieveProgram pinLoc) ;;
          flow <- installProgFd (sr_ret r) true pinLoc pd ;;
          pure (flow, with_prog_fd c (sr_ret r))
        else
          r <- syscall (sys_BPF_PROG_LOAD (prog_load_request c license)) ;;
          let c' := with_prog_fd c (sr_ret r) in
          if negb (fd_ok (sr_ret r))
          then
            go_on <- reportLoadFailure elfPath c pd r ;;
            if go_on then pure (Next, c')
            else
              flow <- installProgFd (sr_ret r) false pinLoc pd ;;
              pure (flow, c')
          else
            flow <- installProgFd (sr_ret r) false pinLoc pd ;;
            pure (flow, c')
  end.

(** The loop of [loadCodeSections] over the sections from index [i] on;
    [done] holds the sections already visited. *)
Fixpoint loadCodeSections_loop (elfPath : string) (license prefix : string)
    (objName : string) (i : Z) (cs : list codeSection)
    (done : list codeSection) : M (Z * list codeSection) :=
  match cs with
  | [] => pure (0, done)
  | c :: rest =>
      ' (flow, c') <-
          loadCodeSections_body elfPath license prefix objName i c ;;
      match flow with
      | Return e => pure (e, done ++ c' :: rest)
      | Next =>
          loadCodeSections_loop elfPath license prefix objName (i + 1) rest
                                (done ++ [c'])
      end
  end.

(** [loadCodeSections], Loader.cpp:718: the return value and the code
    sections with their program FDs. *)
Definition loadCodeSections (elfPath : string) (cs : list codeSection)
    (license prefix : string) : M (Z * list codeSection) :=
  if kernelVersion P =? 0
  then
    ALOG LOG_ERROR "unable to get kernel version" [] ;;;
    pure (- EINVAL, cs)
  else
    loadCodeSections_loop elfPath license prefix (pathToObjName elfPath)
                          0 cs [].

(* ===================================================================== *)
(** * The loader entry *)
(* ===================================================================== *)

(** [(char* )v.data()] printed or copied as a C string. *)
Definition c_str (what : string) (v : list Z) : M string :=
  match cstring v with
  | Some s => pure (s)
  | None => undefined (Unterminated what)
  end.

(** [Location] of libbpf_android.h, the fields that [loadProg] reads:
    the pin prefix and the allow-list ([None] for a null
    [allowedProgTypes], the list holding [allowedProgTypesLength]
    types otherwise). *)
Record Location := mkLocation {
  loc_prefix : string;
  loc_allowedProgTypes : option (list Z)
}.

(** [loadProg], Loader.cpp:831, on a non-null [isCritical]: the return
    value and [*isCritical].  [None] is a file that cannot be opened. *)
Definition loadProg (elfPath : string) (file : option (list Z))
    (location : Location) : M (Z * bool) :=
  match file with
  | None => pure (-1, false)
  | Some elfFile =>
      r <- readSectionByName "critical" elfFile ;;
      let isCritical := match r with Ok _ => true | Err _ => false end in
      let critical := match r with Ok v => v | Err _ => [] end in
      r <- readSectionByName "license" elfFile ;;
      match r with
      | Err e =>
          ALOG LOG_ERROR "Couldn't find license in %s" [ArgStr elfPath] ;;;
          pure (e, isCritical)
      | Ok license =>
          criticalStr <- (if isCritical then c_str "critical" critical
                          else pure ("")) ;;
          licenseStr <- c_str "license" license ;;
          ALOG LOG_INFO
               "Platform BpfLoader loading %s%s ELF object %s with license %s"
               [ArgStr (if isCritical then "critical for " else "optional");
                ArgStr criticalStr; ArgStr elfPath; ArgStr licenseStr] ;;;
          ' (ret, cs) <-
              readCodeSections elfFile (loc_allowedProgTypes location) ;;
          if negb (ret =? 0)
          then
            ALOG LOG_ERROR "Couldn't read all code sections in %s"
                 [ArgStr elfPath] ;;;
            pure (ret, isCritical)
          else
            ' (ret, mapFds) <- createMaps elfPath elfFile (loc_prefix location) ;;
            if negb (ret =? 0)
            then
              ALOG LOG_ERROR "Failed to create maps: (ret=%d) in %s"
                   [ArgInt ret; ArgStr elfPath] ;;;
              pure (ret, isCritical)
            else
              cs <- applyMapRelo elfFile mapFds cs ;;
              ' (ret, _) <-
                  loadCodeSections elfPath cs licenseStr (loc_prefix location) ;;
              (if negb (ret =? 0)
               then ALOG LOG_ERROR
                         "Failed to load programs, loadCodeSections ret=%d"
                         [ArgInt ret]
               else pure (tt)) ;;;
              pure (ret, isCritical)
      end
  end.

End Loader.

Arguments Ret {P A} a s.
Arguments Undefined {P A} f.
Arguments Aborted {P A}.
Arguments Err {A} ret.
Arguments Ok {A} v.
Arguments mkState {P} st_pos st_fail st_kern st_events.
Arguments st_pos {P} s.
Arguments st_fail {P} s.
Arguments st_kern {P} s.
Arguments st_events {P} s.

(** The state before anything has been read or called. *)
Definition initial_state {P : Platform} (k : kstate P) : State P :=
  mkState 0 false k [].

(** The state [s] with [evs] added to its trace. *)
Definition with_events {P : Platform} (s : State P) (evs : list Event)
  : State P :=
  mkState (st_pos s) (st_fail s) (st_kern s) (st_events s ++ evs).

(** The five attributes of the map behind [fd] as the wrappers report
    them, queried in the order of Loader.cpp:490-494, and the kernel
    state after the queries. *)
Definition liveAttributes (P : Platform) (fd : Z) (k : kstate P)
  : (Z * Z * Z * Z * Z) * kstate P :=
  let (r_type, k1) := sys P (sys_bpfGetFdMapType fd) k in
  let (r_key, k2) := sys P (sys_bpfGetFdKeySize fd) k1 in
  let (r_value, k3) := sys P (sys_bpfGetFdValueSize fd) k2 in
  let (r_entries, k4) := sys P (sys_bpfGetFdMaxEntries fd) k3 in
  let (r_flags, k5) := sys P (sys_bpfGetFdMapFlags fd) k4 in
  ((sr_ret r_type, sr_ret r_key, sr_ret r_value, sr_ret r_entries,
    sr_ret r_flags), k5).

(** The five query calls, as they appear in the trace. *)
Definition attributeQueries (fd : Z) : list Event :=
  [ev_sys (sys_bpfGetFdMapType fd); ev_sys (sys_bpfGetFdKeySize fd);
   ev_sys (sys_bpfGetFdValueSize fd); ev_sys (sys_bpfGetFdMaxEntries fd);
   ev_sys (sys_bpfGetFdMapFlags fd)].

(** The calls of a trace, without the log lines. *)
Definition syscalls_of (evs : list Event) : list Syscall :=
  flat_map (fun e => match e with ev_sys c => [c] | ev_log _ _ _ => [] end) evs.

(* ===================================================================== *)
(** * Object files and a kernel for the examples *)
(* ===================================================================== *)

Module Fixture.

(** ** A writer of ELF64 relocatable images *)

Record Sym := mkS {
  sym_name : string;
  sym_info : Z;
  sym_shndx : Z;
  sym_value : Z
}.

Inductive Body :=
| Raw (data : list Z)
| Symtab (syms : list Sym)
| Strtab.

Record Sec := mkSec {
  sec_name : string;
  sec_body : Body
}.

(** Every name of the file, section names first. *)
Definition all_names (secs : list Sec) : list string :=
  map sec_name secs ++
  flat_map (fun s => match sec_body s with
                     | Symtab syms => map sym_name syms
                     | _ => []
                     end) secs.

(** The one string table (it serves section and symbol names alike, as
    [getSymName] reads both from the section at [e_shstrndx]). *)
Definition strtab_bytes (names : list string) : list Z :=
  0 :: flat_map (fun n => bytes_of_string n ++ [0]) names.

Fixpoint name_offset (names : list string) (n : string) (off : nat) : nat :=
  match names with
  | [] => O
  | m :: rest =>
      if String.eqb m n then off
      else name_offset rest n (off + String.length m + 1)
  end.

Definition name_off (names : list string) (n : string) : Z :=
  if String.eqb n "" then 0 else Z.of_nat (name_offset names n 1).

Definition encode_Sym (names : list string) (s : Sym) : list Z :=
  le_encode 4 (name_off names (sym_name s)) ++ [sym_info s; 0] ++
  le_encode 2 (sym_shndx s) ++ le_encode 8 (sym_value s) ++ le_encode 8 0.

Definition body_bytes (names : list string) (b : Body) : list Z :=
  match b with
  | Raw d => d
  | Symtab syms => flat_map (encode_Sym names) syms
  | Strtab => strtab_bytes names
  end.

Definition body_type (b : Body) : Z :=
  match b with
  | Raw _ => 1
  | Symtab _ => SHT_SYMTAB
  | Strtab => 3
  end.

Definition encode_Shdr (name type offset size : Z) : list Z :=
  le_encode 4 name ++ le_encode 4 type ++ le_encode 16 0 ++
  le_encode 8 offset ++ le_encode 8 size ++ le_encode 24 0.

Fixpoint encode_Shdrs (names : list string) (off : Z) (secs : list Sec)
  : list Z :=
  match secs with
  | [] => []
  | s :: rest =>
      let size := Z.of_nat (List.length (body_bytes names (sec_body s))) in
      encode_Shdr (name_off names (sec_name s)) (body_type (sec_body s))
                  off size
      ++ encode_Shdrs names (off + size) rest
  end.

Fixpoint strtab_index (secs : list Sec) (i : Z) : Z :=
  match secs with
  | [] => 0
  | s :: rest =>
      match sec_body s with
      | Strtab => i
      | _ => strtab_index rest (i + 1)
      end
  end.

(** The image: ELF header, section contents, section header table. *)
Definition image (secs : list Sec) : list Z :=
  let names := all_names secs in
  let contents := flat_map (fun s => body_bytes names (sec_body s)) secs in
  let shoff := 64 + Z.of_nat (List.length contents) in
  le_encode 40 0 ++ le_encode 8 shoff ++ le_encode 10 0 ++
  le_encode 2 64 ++ le_encode 2 (Z.of_nat (List.length secs)) ++
  le_encode 2 (strtab_index secs 0) ++
  contents ++ encode_Shdrs names 64 secs.

(** ** Record layouts for the examples

    Twelve and five little-endian 32-bit words, in the order of the
    fields of [bpf_map_def] and [bpf_prog_def] above. *)

Definition decode_map_def (b : list Z) : bpf_map_def :=
  mkMapDef (field 0 4 b) (field 4 4 b) (field 8 4 b) (field 12 4 b)
           (field 16 4 b) (field 20 4 b) (field 24 4 b) (field 28 4 b)
           (field 32 4 b) (field 36 4 b) (field 40 4 b)
           (negb (field 44 4 b =? 0)).

Definition encode_map_def (d : bpf_map_def) : list Z :=
  flat_map (le_encode 4)
    [md_type d; md_key_size d; md_value_size d; md_max_entries d;
     md_map_flags d; md_zero d; md_uid d; md_gid d; md_mode d;
     md_min_kver d; md_max_kver d; if md_shared d then 1 else 0].

Definition decode_prog_def (b : list Z) : bpf_prog_def :=
  mkProgDef (field 0 4 b) (field 4 4 b) (field 8 4 b) (field 12 4 b)
            (negb (field 16 4 b =? 0)).

Definition encode_prog_def (d : bpf_prog_def) : list Z :=
  flat_map (le_encode 4)
    [pd_uid d; pd_gid d; pd_min_kver d; pd_max_kver d;
     if pd_optional d then 1 else 0].

(** ** A small kernel

    Maps and programs live behind increasing FDs; a pin remembers the
    attributes of the map it holds.  With [devmap_rdonly] set, device
    maps get the read-only flag from the kernel, as kernel/bpf/devmap.c
    does since 5.2.  The verifier rejects a program whose first
    instruction has opcode 255. *)

Record Kernel := mkKernel {
  k_next_fd : Z;
  k_maps : list (Z * map_create_req);
  k_pins : list (string * option map_create_req)
}.

Fixpoint lookup_fd (fd : Z) (l : list (Z * map_create_req))
  : option map_create_req :=
  match l with
  | [] => None
  | (f, a) :: rest => if f =? fd then Some a else lookup_fd fd rest
  end.

Fixpoint lookup_pin (path : string) (l : list (string * option map_create_req))
  : option (option map_create_req) :=
  match l with
  | [] => None
  | (p, a) :: rest => if String.eqb p path then Some a else lookup_pin path rest
  end.

Definition ok_ret (v : Z) : SysRet := mkSysRet v 1%positive "".
Definition err_ret (errno : positive) : SysRet := mkSysRet (-1) errno "".

Definition kernel_flags (devmap_rdonly : bool) (req : map_create_req)
  : map_create_req :=
  if devmap_rdonly
     && ((mreq_map_type req =? BPF_MAP_TYPE_DEVMAP)
         || (mreq_map_type req =? BPF_MAP_TYPE_DEVMAP_HASH))
  then mkMapCreate (mreq_map_type req) (mreq_key_size req)
                   (mreq_value_size req) (mreq_max_entries req)
                   (Z.lor (mreq_map_flags req) BPF_F_RDONLY_PROG)
                   (mreq_map_name req)
  else req.

Definition query (f : map_create_req -> Z) (fd : Z) (k : Kernel)
  : SysRet * Kernel :=
  match lookup_fd fd (k_maps k) with
  | Some a => (ok_ret (f a), k)
  | None => (err_ret 9, k)
  end.

Definition kernel_sys (devmap_rdonly : bool) (c : Syscall) (k : Kernel)
  : SysRet * Kernel :=
  match c with
  | sys_access path =>
      match lookup_pin path (k_pins k) with
      | Some _ => (ok_ret 0, k)
      | None => (err_ret 2, k)
      end
  | sys_mapRetrieveRO path =>
      match lookup_pin path (k_pins k) with
      | Some (Some a) =>
          (ok_ret (k_next_fd k),
           mkKernel (k_next_fd k + 1) ((k_next_fd k, a) :: k_maps k) (k_pins k))
      | _ => (err_ret 2, k)
      end
  | sys_BPF_MAP_CREATE req =>
      (ok_ret (k_next_fd k),
       mkKernel (k_next_fd k + 1)
                ((k_next_fd k, kernel_flags devmap_rdonly req) :: k_maps k)
                (k_pins k))
  | sys_bpfGetFdMapType fd => query mreq_map_type fd k
  | sys_bpfGetFdKeySize fd => query mreq_key_size fd k
  | sys_bpfGetFdValueSize fd => query mreq_value_size fd k
  | sys_bpfGetFdMaxEntries fd => query mreq_max_entries fd k
  | sys_bpfGetFdMapFlags fd => query mreq_map_flags fd k
  | sys_bpfGetFdMapId fd => (ok_ret (fd + 100), k)
  | sys_bpfFdPin fd path =>
      (ok_ret 0,
       mkKernel (k_next_fd k) (k_maps k)
                ((path, lookup_fd fd (k_maps k)) :: k_pins k))
  | sys_chmod _ _ => (ok_ret 0, k)
  | sys_chown _ _ _ => (ok_ret 0, k)
  | sys_retrieveProgram path =>
      match lookup_pin path (k_pins k) with
      | Some _ =>
          (ok_ret (k_next_fd k),
           mkKernel (k_next_fd k + 1) (k_maps k) (k_pins k))
      | None => (err_ret 2, k)
      end
  | sys_BPF_PROG_LOAD req =>
      if nth 0 (preq_insns req) 0 =? 255
      then (mkSysRet (-1) 13 ("0: (ff) unknown opcode" +++
                              String "010" "processed 0 insns"), k)
      else (ok_ret (k_next_fd k),
            mkKernel (k_next_fd k + 1) (k_maps k) (k_pins k))
  | sys_bpfGetFdProgId fd => (ok_ret (fd + 100), k)
  end.

(** Insertion by [symCompare]; it keeps the order of equal values. *)
Fixpoint insert_sym (x : Elf64_Sym) (l : list Elf64_Sym) : list Elf64_Sym :=
  match l with
  | [] => [x]
  | y :: rest => if symCompare y x
                 then y :: insert_sym x rest
                 else x :: y :: rest
  end.

Definition sort_syms (l : list Elf64_Sym) : list Elf64_Sym :=
  fold_right insert_sym [] l.

(** A platform running kernel 5.10 with 4 KiB pages and no fuse-bpf. *)
Definition platform : Platform :=
  mkPlatform Kernel (kernel_sys true) (KVER 5 10 0) 4096 BPF_PROG_TYPE_UNSPEC
             sort_syms 48 decode_map_def 20 decode_prog_def.

(** The same with a kernel that leaves the flags of device maps alone. *)
Definition plain_platform : Platform :=
  mkPlatform Kernel (kernel_sys false) (KVER 5 10 0) 4096
             BPF_PROG_TYPE_UNSPEC sort_syms 48 decode_map_def 20
             decode_prog_def.

Definition boot : Kernel := mkKernel 3 [] [].

End Fixture.

(* ===================================================================== *)
(** * Object files for the examples *)
(* ===================================================================== *)

Module Objects.

Import Fixture.

Definition hash_map_def : bpf_map_def :=
  mkMapDef BPF_MAP_TYPE_HASH 4 8 16 0 0 0 0 432 0 4294967295 false.

Definition devmap_def : bpf_map_def :=
  mkMapDef BPF_MAP_TYPE_DEVMAP 4 4 64 0 0 0 0 432 0 4294967295 false.

(** A map for kernels from 6.1 on: excluded on the 5.10 platform. *)
Definition future_map_def : bpf_map_def :=
  mkMapDef BPF_MAP_TYPE_HASH 4 8 16 0 0 0 0 432 (KVER 6 1 0) 4294967295 false.

Definition prog_def_4_14 : bpf_prog_def :=
  mkProgDef 0 0 (KVER 4 14 0) 4294967295 false.

Definition optional_prog_def : bpf_prog_def :=
  mkProgDef 0 0 (KVER 4 14 0) 4294967295 true.

Definition future_prog_def : bpf_prog_def :=
  mkProgDef 0 0 (KVER 6 1 0) 4294967295 false.

(** [r1 = map_fd ll; exit]: a 64-bit immediate load (two slots) and an
    exit instruction. *)
Definition insns_ld_map : list Z :=
  [24; 1; 0; 0; 0; 0; 0; 0;  0; 0; 0; 0; 0; 0; 0; 0;
   149; 0; 0; 0; 0; 0; 0; 0].

(** [r0 = 0; exit]. *)
Definition insns_ret0 : list Z :=
  [183; 0; 0; 0; 0; 0; 0; 0;  149; 0; 0; 0; 0; 0; 0; 0].

(** An instruction stream the example verifier rejects. *)
Definition insns_bad : list Z := [255; 0; 0; 0; 0; 0; 0; 0].

Definition null_sym : Sym := mkS "" 0 0 0.

(** The relocation of the instruction at byte 0 against symbol 1. *)
Definition rel_my_map : Elf64_Rel := mkRel 0 (1 * 2 ^ 32 + 1).

(** One map, one tracepoint program that loads the map FD. *)
Definition obj_sched : list Z :=
  image
    [ mkSec "" (Raw []);
      mkSec "license" (Raw (bytes_of_string "GPL" ++ [0]));
      mkSec "maps" (Raw (encode_map_def hash_map_def));
      mkSec "progs" (Raw (encode_prog_def prog_def_4_14));
      mkSec "tracepoint/sched_switch" (Raw insns_ld_map);
      mkSec ".reltracepoint/sched_switch"
            (Raw (le_encode 8 (r_offset rel_my_map)
                  ++ le_encode 8 (r_info rel_my_map)));
      mkSec ".symtab"
            (Symtab [null_sym; mkS "my_map" 1 2 0; mkS "tp_sw" 18 4 0;
                     mkS "tp_sw_def" 1 3 0]);
      mkSec ".strtab" Strtab ].

(** An object whose last section header is a code section. *)
Definition obj_tail_code : list Z :=
  image
    [ mkSec "" (Raw []);
      mkSec "license" (Raw (bytes_of_string "GPL" ++ [0]));
      mkSec "progs" (Raw (encode_prog_def prog_def_4_14));
      mkSec ".symtab"
            (Symtab [null_sym; mkS "probe" 18 5 0; mkS "probe_def" 1 2 0]);
      mkSec ".strtab" Strtab;
      mkSec "kprobe/probe" (Raw insns_ret0) ].

(** The same with a last section that holds no function symbol. *)
Definition obj_tail_no_func : list Z :=
  image
    [ mkSec "" (Raw []);
      mkSec "license" (Raw (bytes_of_string "GPL" ++ [0]));
      mkSec "progs" (Raw (encode_prog_def prog_def_4_14));
      mkSec ".symtab"
            (Symtab [null_sym; mkS "probe_data" 17 5 0;
                     mkS "probe_def" 1 2 0]);
      mkSec ".strtab" Strtab;
      mkSec "kprobe/probe" (Raw insns_ret0) ].

(** Three code sections, the second without a function symbol. *)
Definition obj_no_func : list Z :=
  image
    [ mkSec "" (Raw []);
      mkSec "license" (Raw (bytes_of_string "GPL" ++ [0]));
      mkSec "progs" (Raw (encode_prog_def prog_def_4_14
                          ++ encode_prog_def prog_def_4_14));
      mkSec "skfilter/first" (Raw insns_ret0);
      mkSec "kprobe/second" (Raw insns_ret0);
      mkSec "tracepoint/third" (Raw insns_ret0);
      mkSec ".symtab"
            (Symtab [null_sym; mkS "first" 18 3 0; mkS "first_def" 1 2 0;
                     mkS "second_data" 17 4 0;
                     mkS "third" 18 5 0; mkS "third_def" 1 2 20]);
      mkSec ".strtab" Strtab ].

(** An empty [progs] section and one code section. *)
Definition obj_no_prog_def : list Z :=
  image
    [ mkSec "" (Raw []);
      mkSec "license" (Raw (bytes_of_string "GPL" ++ [0]));
      mkSec "progs" (Raw []);
      mkSec "kprobe/probe" (Raw insns_ret0);
      mkSec ".symtab" (Symtab [null_sym; mkS "probe" 18 3 0]);
      mkSec ".strtab" Strtab ].

(** A map and a program, both for kernels from 6.1 on. *)
Definition obj_future : list Z :=
  image
    [ mkSec "" (Raw []);
      mkSec "license" (Raw (bytes_of_string "GPL" ++ [0]));
      mkSec "maps" (Raw (encode_map_def future_map_def));
      mkSec "progs" (Raw (encode_prog_def future_prog_def));
      mkSec "kprobe/probe" (Raw insns_ret0);
      mkSec ".symtab"
            (Symtab [null_sym; mkS "new_map" 1 2 0; mkS "probe" 18 4 0;
                     mkS "probe_def" 1 3 0]);
      mkSec ".strtab" Strtab ].

(** An optional program that the example verifier rejects. *)
Definition obj_optional_bad : list Z :=
  image
    [ mkSec "" (Raw []);
      mkSec "license" (Raw (bytes_of_string "GPL" ++ [0]));
      mkSec "progs" (Raw (encode_prog_def optional_prog_def));
      mkSec "kprobe/probe" (Raw insns_bad);
      mkSec ".symtab"
            (Symtab [null_sym; mkS "probe" 18 3 0; mkS "probe_def" 1 2 0]);
      mkSec ".strtab" Strtab ].

(** Two sections with the name [license]. *)
Definition obj_two_licenses : list Z :=
  image
    [ mkSec "" (Raw []);
      mkSec "license" (Raw (bytes_of_string "GPL" ++ [0]));
      mkSec "license" (Raw (bytes_of_string "MIT" ++ [0]));
      mkSec ".strtab" Strtab ].

(** Two sections named [kprobe/probe]: the first holds the function
    [probe], the second holds no symbol; a tracepoint section follows. *)
Definition obj_twin_sections : list Z :=
  image
    [ mkSec "" (Raw []);
      mkSec "license" (Raw (bytes_of_string "GPL" ++ [0]));
      mkSec "progs" (Raw (encode_prog_def prog_def_4_14
                          ++ encode_prog_def prog_def_4_14));
      mkSec "kprobe/probe" (Raw insns_ret0);
      mkSec "kprobe/probe" (Raw insns_ret0);
      mkSec "tracepoint/third" (Raw insns_ret0);
      mkSec ".symtab"
            (Symtab [null_sym; mkS "probe" 18 3 0; mkS "probe_def" 1 2 0;
                     mkS "third" 18 5 0; mkS "third_def" 1 2 20]);
      mkSec ".strtab" Strtab ].

(** A kernel where the program [kprobe_probe] of [obj.o] is pinned. *)
Definition pinned_prog : Kernel :=
  mkKernel 3 [] [("/sys/fs/bpf/test_prog_obj_kprobe_probe", None)].

Definition s0 : State platform := @initial_state platform boot.

(** A kernel where the map of [sched.o] is pinned with a value size
    of 4. *)
Definition stale_sched_pin : Kernel :=
  mkKernel 3 []
    [("/sys/fs/bpf/test_map_sched_my_map",
      Some (mkMapCreate BPF_MAP_TYPE_HASH 4 4 16 0 "my_map"))].

(** The value and the final state of a run that returns. *)
Definition value_or {P : Platform} {A} (o : Outcome P A) (dflt : A) : A :=
  match o with
  | Ret a _ => a
  | _ => dflt
  end.

Definition state_or {P : Platform} {A} (o : Outcome P A) (dflt : State P)
  : State P :=
  match o with
  | Ret _ s => s
  | _ => dflt
  end.

Definition ok_or {A} (r : status A) (dflt : A) : A :=
  match r with
  | Ok v => v
  | Err _ => dflt
  end.

(** The section header table of an image. *)
Definition headers_of (elfFile : list Z) : list Elf64_Shdr :=
  ok_or (value_or (readSectionHeadersAll platform elfFile s0) (Err 0)) [].

(** A kernel where [foo.o]'s map [m] is already pinned with a value
    size of 4. *)
Definition stale_pin : Kernel :=
  mkKernel 3 []
    [("/sys/fs/bpf/test_map_foo_m",
      Some (mkMapCreate BPF_MAP_TYPE_HASH 4 4 16 0 "m"))].

Definition code_of (pd : option bpf_prog_def) (name : string)
    (data : list Z) : codeSection :=
  mkCodeSection BPF_PROG_TYPE_KPROBE BPF_ATTACH_TYPE_UNSPEC name data [] pd
                (-1).

End Objects.

(* ===================================================================== *)
(** * Vocabulary of the properties *)
(* ===================================================================== *)

(** [comp] is the final component of [path]: it has no slash, and it is
    the whole path or what follows its last slash. *)
Definition is_final_component (path comp : string) : Prop :=
  Str.lacks "/" comp = true /\
  (path = comp \/ exists dir, path = dir +++ String "/" comp).

(** [r] is [s] cut before its last [c]; all of [s] when [c] is absent. *)
Definition cut_at_last (c : ascii) (s r : string) : Prop :=
  (Str.lacks c s = true /\ r = s) \/
  (exists tail, s = r +++ String c tail /\ Str.lacks c tail = true).

(** The table read as a bijection: a program type belongs to one prefix
    only (each row has one type by construction). *)
Definition table_is_bijective : Prop :=
  forall a b : sectionType,
    In a sectionNameTypes -> In b sectionNameTypes ->
    snt_type a = snt_type b -> snt_name a = snt_name b.

(** The round trip of the design document on the prefixes of the table. *)
Definition round_trip_keeps_prefix (P : Platform) : Prop :=
  forall e : sectionType,
    In e sectionNameTypes ->
    Str.StartsWith (getSectionName (getSectionType P (snt_name e)))
                   (snt_name e) = true.

(** What a relocation leaves of the buffer [insns] in [insns']: the
    immediate of instruction [idx] is [fd], its source register is the
    pseudo-map-FD marker, its destination register (the other half of
    the same byte) is kept, and every byte outside those two fields is
    the byte it was. *)
Definition relocated (insns insns' : list Z) (idx fd : Z) : Prop :=
  List.length insns' = List.length insns /\
  insn_imm insns' idx = fd /\
  insn_src_reg insns' idx = BPF_PSEUDO_MAP_FD /\
  insn_dst_reg insns' idx = insn_dst_reg insns idx /\
  forall p : nat,
    p <> (Z.to_nat (8 * idx) + 1)%nat ->
    ~ (Z.to_nat (8 * idx) + 4 <= p < Z.to_nat (8 * idx) + 8)%nat ->
    nth_error insns' p = nth_error insns p.

(** The index where the scan of the map names stops. *)
Definition first_index_of (names : list string) (name : string) (j : nat)
  : Prop :=
  nth_error names j = Some name /\
  forall k : nat, (k < j)%nat -> nth_error names k <> Some name.

(** The verdict of the comparison on the attributes the kernel reports
    for [fd] in state [k]. *)
Definition live_match (P : Platform) (mapDef : bpf_map_def) (type : Z)
    (fd : Z) (k : kstate P) : bool :=
  let '(t, ks, vs, me, fl) := fst (liveAttributes P fd k) in
  attributes_match P mapDef type t ks vs me fl.

(** The five live attributes equal the desired ones, as the C
    comparison reads them. *)
Definition live_equal_desired (P : Platform) (mapDef : bpf_map_def)
    (type : Z) (fd : Z) (k : kstate P) : Prop :=
  let '(t, ks, vs, me, fl) := fst (liveAttributes P fd k) in
  to_u32 t = to_u32 type /\
  ks = to_int (md_key_size mapDef) /\
  vs = to_int (md_value_size mapDef) /\
  me = to_int (adjusted_max_entries P mapDef type) /\
  fl = desired_map_flags mapDef type.

(** The read-only-from-program flag is among the flags the kernel
    reports for [fd] in state [k]. *)
Definition live_flags_rdonly_prog (P : Platform) (fd : Z) (k : kstate P)
  : Prop :=
  let '(_, _, _, _, fl) := fst (liveAttributes P fd k) in
  Z.land fl BPF_F_RDONLY_PROG = BPF_F_RDONLY_PROG.

(** The warnings that carry the verifier log, one per line. *)
Definition verifier_log_lines (log_buf : string) : list Event :=
  map (fun line => ev_log LOG_WARN "%s" [ArgStr line])
      (Str.Split log_buf "010").

(** What is logged when [BPF_PROG_LOAD] for [c] answered [r] without a
    valid FD. *)
Definition load_failure_events (elfPath : string) (c : codeSection)
    (pd : bpf_prog_def) (r : SysRet) : list Event :=
  [ev_log LOG_WARN "BPF_PROG_LOAD call for %s (%s) returned fd: %d (%s)"
          [ArgStr elfPath; ArgStr (cs_name c); ArgInt (sr_ret r);
           ArgInt (Z.pos (sr_errno r))];
   ev_log LOG_WARN "BPF_PROG_LOAD - BEGIN log_buf contents:" []]
  ++ verifier_log_lines (sr_log_buf r)
  ++ [ev_log LOG_WARN "BPF_PROG_LOAD - END log_buf contents." [];
      if pd_optional pd
      then ev_log LOG_WARN
                  "failed program is marked optional - continuing..." []
      else ev_log LOG_ERROR "non-optional program failed to load." []].

(** A computation that only moves the [ifstream]: when it returns, the
    kernel and the trace are what they were. *)
Definition quiet {P : Platform} {A} (c : M P A) : Prop :=
  forall (s : State P) (a : A) (s' : State P),
    c s = Ret a s' ->
    st_kern s' = st_kern s /\ st_events s' = st_events s.

(** The instruction streams submitted with [BPF_PROG_LOAD] in a trace. *)
Definition submitted_insns (evs : list Event) : list (list Z) :=
  flat_map (fun c => match c with
                     | sys_BPF_PROG_LOAD req => [preq_insns req]
                     | _ => []
                     end) (syscalls_of evs).

(** A computation that makes no call into the platform: when it
    returns, the kernel is what it was and the trace has gained log
    lines only. *)
Definition callfree {P : Platform} {A} (c : M P A) : Prop :=
  forall (s : State P) (a : A) (s' : State P),
    c s = Ret a s' ->
    st_kern s' = st_kern s /\
    syscalls_of (st_events s') = syscalls_of (st_events s).

(** The calls that create a kernel object or write to the BPF file
    system. *)
Definition creates_or_pins (c : Syscall) : bool :=
  match c with
  | sys_BPF_MAP_CREATE _ | sys_BPF_PROG_LOAD _ | sys_bpfFdPin _ _
  | sys_chmod _ _ | sys_chown _ _ _ => true
  | _ => false
  end.

(** A code section that differs from [c] in its program FD at most. *)
Definition same_but_prog_fd (c c' : codeSection) : Prop :=
  cs_type c' = cs_type c /\
  cs_expected_attach_type c' = cs_expected_attach_type c /\
  cs_name c' = cs_name c /\
  cs_data c' = cs_data c /\
  cs_rel_data c' = cs_rel_data c /\
  cs_prog_def c' = cs_prog_def c.

(** A code section that differs from [c] in the bytes of its
    instructions at most, not in their number. *)
Definition same_but_insns (c c' : codeSection) : Prop :=
  cs_type c' = cs_type c /\
  cs_expected_attach_type c' = cs_expected_attach_type c /\
  cs_name c' = cs_name c /\
  List.length (cs_data c') = List.length (cs_data c) /\
  cs_rel_data c' = cs_rel_data c /\
  cs_prog_def c' = cs_prog_def c /\
  cs_prog_fd c' = cs_prog_fd c.

(** A reader whose error codes are all negative. *)
Definition negative_errors {P : Platform} {A} (c : M P (status A)) : Prop :=
  forall (s : State P) (e : Z) (s' : State P),
    c s = Ret (Err e) s' -> e < 0.

(** The symbols that [getSectionSymNames] lists: those of section
    [sec_idx], of type [symbolType] when one is asked for. *)
Definition selected_symbol (sec_idx : Z) (symbolType : option Z)
    (sym : Elf64_Sym) : bool :=
  match symbolType with
  | Some t => ELF_ST_TYPE (st_info sym) =? t
  | None => true
  end && (st_shndx sym =? sec_idx).

(** [names] are the names of the symbols [syms], one for each and in
    their order, as [getSymName] reads them one after the other from
    state [s] on; [s'] is the state after the last. *)
Fixpoint resolved_names (P : Platform) (elfFile : list Z)
    (syms : list Elf64_Sym) (names : list string) (s s' : State P) : Prop :=
  match syms, names with
  | [], [] => s' = s
  | sym :: syms', name :: names' =>
      exists s1 : State P,
        getSymName P elfFile (to_int (st_name sym)) s = Ret (Ok name) s1 /\
        resolved_names P elfFile syms' names' s1 s'
  | _, _ => False
  end.

(** The calls [calls] made one after the other on kernel [k], each one
    only when the one before has returned 0: how the sequence ends
    ([Return] of minus the errno of the call that failed, which is the
    last one made), the calls made, and the kernel afterwards. *)
Fixpoint calls_until_failure (P : Platform) (calls : list Syscall)
    (k : kstate P) : Flow * list Syscall * kstate P :=
  match calls with
  | [] => (Next, [], k)
  | c :: rest =>
      let (r, k') := sys P c k in
      if sr_ret r =? 0
      then let '(flow, made, k'') := calls_until_failure P rest k' in
           (flow, c :: made, k'')
      else (Return (- Z.pos (sr_errno r)), [c], k')
  end.

(** What [readCodeSections] guarantees of a code section it keeps. *)
Definition kept_section (P : Platform) (allowed : option (list Z))
    (c : codeSection) : Prop :=
  cs_data c <> [] /\
  cs_type c <> BPF_PROG_TYPE_UNSPEC /\
  IsAllowed P (cs_type c) allowed = true /\
  Str.lacks "/" (cs_name c) = true /\
  cs_prog_fd c = -1 /\
  exists name : string,
    cs_type c = getSectionType P name /\
    cs_expected_attach_type c = getExpectedAttachType name /\
    cs_name c = Str.replace "/" "_" name.

(** No header of [shs] carries the name [name] in the string table
    [secStrTab], as the loop of [readSectionByName] compares them. *)
Definition no_section_named (name : string) (secStrTab : list Z)
    (shs : list Elf64_Shdr) : Prop :=
  Forall (fun sh =>
            ((List.length secStrTab =? 0)%nat && (sh_name sh =? 0) = true) \/
            strcmp_eq (skipn (Z.to_nat (sh_name sh)) secStrTab) name
            = Some false) shs.

(** A computation whose calls into the platform all satisfy [ok]: when
    it returns, the trace has grown by events whose calls do. *)
Definition only_calls {P : Platform} {A} (ok : Syscall -> bool) (c : M P A)
  : Prop :=
  forall (s : State P) (a : A) (s' : State P),
    c s = Ret a s' ->
    exists evs : list Event,
      st_events s' = st_events s ++ evs /\
      forallb ok (syscalls_of evs) = true.

(** The calls that neither create a kernel object nor write a pin. *)
Definition reuses (c : Syscall) : bool := negb (creates_or_pins c).

(** No symbol of [symtab] is a function of section [sec_idx]. *)
Definition no_function_symbol (sec_idx : Z) (symtab : list Elf64_Sym) : Prop :=
  Forall (fun sym => ELF_ST_TYPE (st_info sym) <> STT_FUNC \/
                     st_shndx sym <> sec_idx) symtab.

(** Unfolds the monadic steps of hypothesis [H], with a case split on
    every answer of the platform and every test met on the way. *)
Ltac run_M H :=
  repeat (first
    [ progress (unfold bind, syscall, ALOG, emit, pure in H)
    | progress (cbv beta iota in H)
    | progress (cbn [st_kern st_pos st_fail st_events] in H)
    | match type of H with
      | context [sys ?P ?c ?k] => destruct (sys P c k) as [? ?] eqn:?
      | context [if ?b then _ else _] => destruct b eqn:?
      end ]).

(** The same on the goal. *)
Ltac run_goal :=
  repeat (first
    [ progress (unfold bind, syscall, ALOG, emit, pure)
    | progress (cbv beta iota)
    | progress (cbn [st_kern st_pos st_fail st_events])
    | match goal with
      | |- context [sys ?P ?c ?k] => destruct (sys P c k) as [? ?] eqn:?
      end ]).

(** One step of a run [H : c s = Ret a s']: the next bind, test or
    match of [c]. *)
Ltac step_M H :=
  first
    [ progress cbv beta zeta in H
    | match type of H with
      | (match ?x with _ => _ end) _ = _ => destruct x eqn:?
      | (match ?x with _ => _ end) = _ => destruct x eqn:?; try discriminate
      | bind _ _ _ _ = _ => unfold bind at 1 in H
      end ].

(* ===================================================================== *)
(** * Properties of object names *)
(* ===================================================================== *)

Section StringFacts.

Variable d : ascii.

Lemma Split_nonempty (s : string) : Str.Split s d <> [].
Proof.
  destruct s as [|a s]; simpl; [discriminate|].
  destruct (Ascii.eqb a d); [discriminate|].
  destruct (Str.Split s d); discriminate.
Qed.

Lemma Split_lacks (s : string) :
  Str.lacks d s = true -> Str.Split s d = [s].
Proof.
  induction s as [|a s IH]; simpl; intros H; [reflexivity|].
  apply andb_true_iff in H as [Ha Hs].
  apply negb_true_iff in Ha. rewrite Ha, (IH Hs). reflexivity.
Qed.

Lemma Split_single (s p : string) :
  Str.Split s d = [p] -> p = s /\ Str.lacks d s = true.
Proof.
  revert p. induction s as [|a s IH]; simpl; intros p H.
  - inversion H. split; reflexivity.
  - destruct (Ascii.eqb a d) eqn:Ha.
    + inversion H as [[Hp Hnil]]. exfalso. exact (Split_nonempty s Hnil).
    + destruct (Str.Split s d) as [|q qs] eqn:Hq;
        [exfalso; exact (Split_nonempty s Hq)|].
      injection H as Hp Hqs. subst p qs.
      destruct (IH q eq_refl) as [-> Hl]. rewrite Hl. split; reflexivity.
Qed.

Lemma find_last_of_None (s : string) :
  Str.find_last_of s d = None <-> Str.lacks d s = true.
Proof.
  induction s as [|a s IH]; simpl; [tauto|].
  destruct (Str.find_last_of s d) as [n|].
  - split; [discriminate|]. intros H.
    apply andb_true_iff in H as [_ Hs]. apply IH in Hs. discriminate.
  - destruct (Ascii.eqb a d); simpl; split; try discriminate; intros _;
      [apply IH|]; reflexivity.
Qed.

Lemma find_last_of_Some (s : string) (n : nat) :
  Str.find_last_of s d = Some n ->
  exists tail, s = Str.prefix_len n s +++ String d tail /\
               Str.lacks d tail = true.
Proof.
  revert n. induction s as [|a s IH]; simpl; intros n H; [discriminate|].
  destruct (Str.find_last_of s d) as [m|] eqn:Hm.
  - inversion H; subst. destruct (IH m eq_refl) as (tail & Hs & Hl).
    exists tail. split; [|exact Hl]. simpl. rewrite <- Hs. reflexivity.
  - destruct (Ascii.eqb a d) eqn:Ha; [|discriminate].
    inversion H; subst. apply Ascii.eqb_eq in Ha. subst a.
    exists s. split; [reflexivity|]. apply find_last_of_None. exact Hm.
Qed.

Lemma substr0_find_last_of (s : string) :
  cut_at_last d s (Str.substr0 s (Str.find_last_of s d)).
Proof.
  destruct (Str.find_last_of s d) as [n|] eqn:H; simpl.
  - right. apply find_last_of_Some. exact H.
  - left. split; [apply find_last_of_None; exact H | reflexivity].
Qed.

End StringFacts.

Lemma last_cons_nonempty {A} (x : A) (l : list A) (dflt : A) :
  l <> [] -> last (x :: l) dflt = last l dflt.
Proof. destruct l; [congruence | reflexivity]. Qed.

Lemma back_Split_final (path : string) :
  is_final_component path (Str.back (Str.Split path "/")).
Proof.
  unfold is_final_component, Str.back.
  induction path as [|a s IH]; simpl.
  - split; [reflexivity | left; reflexivity].
  - destruct (Ascii.eqb a "/") eqn:Ha.
    + apply Ascii.eqb_eq in Ha. subst a.
      change (last ("" :: Str.Split s "/") "")
        with (last (EmptyString :: Str.Split s "/") EmptyString).
      rewrite (last_cons_nonempty _ _ _ (Split_nonempty "/" s)).
      destruct IH as [Hl [Hs | [dir Hs]]]; split; try exact Hl; right.
      * exists "". simpl. rewrite <- Hs. reflexivity.
      * exists (String "/" dir). simpl. rewrite <- Hs. reflexivity.
    + destruct (Str.Split s "/") as [|p ps] eqn:Hp.
      * exfalso. exact (Split_nonempty "/" s Hp).
      * destruct ps as [|q qs].
        -- destruct (Split_single "/" s p Hp) as [-> Hl]. simpl.
           rewrite Ha, Hl. split; [reflexivity | left; reflexivity].
        -- rewrite last_cons_nonempty by discriminate.
           rewrite last_cons_nonempty in IH by discriminate.
           destruct IH as [Hl [Hs | [dir Hs]]]; split; try exact Hl.
           ++ exfalso. rewrite <- Hs in Hl.
              rewrite (Split_lacks "/" s Hl) in Hp. discriminate.
           ++ right. exists (String a dir). rewrite Hs. reflexivity.
Qed.

(** C8, as the claim words it, fails: the code removes whatever follows
    the last period, not only a trailing [.o], and cuts at the last
    at-sign, not at the first. *)
Lemma pathToObjName_differs_from_spec :
  pathToObjName "/etc/bpf/bar.txt" = "bar" /\
  spec_ObjectName "/etc/bpf/bar.txt" = "bar.txt" /\
  pathToObjName "/etc/bpf/bar.txt" <> spec_ObjectName "/etc/bpf/bar.txt" /\
  pathToObjName "x@1@2.o" = "x@1" /\
  spec_ObjectName "x@1@2.o" = "x".
Proof.
  split; [reflexivity|]. split; [reflexivity|].
  split; [discriminate|]. split; reflexivity.
Qed.

(** C8 (amended): for every path, the object name is the final path
    component cut before its last period, and that cut before its last
    at-sign; [foo@1.o] and [foo.o] both give [foo]. *)
Theorem pathToObjName_cuts_at_last_period_and_at :
  (forall path : string,
      exists comp name : string,
        is_final_component path comp /\
        cut_at_last "." comp name /\
        cut_at_last "@" name (pathToObjName path)) /\
  pathToObjName "foo@1.o" = "foo" /\
  pathToObjName "foo.o" = "foo".
Proof.
  split; [|split; reflexivity].
  intros path.
  exists (Str.back (Str.Split path "/")).
  exists (Str.substr0 (Str.back (Str.Split path "/"))
            (Str.find_last_of (Str.back (Str.Split path "/")) ".")).
  split; [apply back_Split_final|].
  split; apply substr0_find_last_of.
Qed.

(* ===================================================================== *)
(** * Properties of the section classifier *)
(* ===================================================================== *)

(** C4, as the claim words it, fails: [kprobe/] and [kretprobe/] share a
    program type, and the round trip from [kretprobe/] ends at [kprobe/]. *)
Lemma sectionNameTypes_not_bijective :
  getSectionType Fixture.platform "kprobe/" =
    getSectionType Fixture.platform "kretprobe/" /\
  getSectionName (getSectionType Fixture.platform "kretprobe/") = "kprobe/" /\
  Str.StartsWith "kprobe/" "kretprobe/" = false /\
  ~ table_is_bijective /\
  ~ round_trip_keeps_prefix Fixture.platform.
Proof.
  split; [reflexivity|]. split; [reflexivity|]. split; [reflexivity|].
  split.
  - intros H.
    specialize (H (mkSectionType "kprobe/" BPF_PROG_TYPE_KPROBE
                                 BPF_ATTACH_TYPE_UNSPEC)
                  (mkSectionType "kretprobe/" BPF_PROG_TYPE_KPROBE
                                 BPF_ATTACH_TYPE_UNSPEC)).
    simpl in H. discriminate H; auto.
  - intros H.
    specialize (H (mkSectionType "kretprobe/" BPF_PROG_TYPE_KPROBE
                                 BPF_ATTACH_TYPE_UNSPEC)).
    simpl in H. discriminate H; auto.
Qed.

(** C4 (amended): every prefix of the table determines its program type,
    whatever program name follows it; the types are not distinct, and
    [getSectionName] gives back the first prefix of the type: the
    original prefix for [kprobe/], [perf_event/], [skfilter/] and
    [tracepoint/], and [kprobe/] for [kretprobe/], [uprobe/] and
    [uretprobe/]. *)
Theorem section_type_round_trip :
  Forall
    (fun e : sectionType =>
       forall (P : Platform) (rest : string),
         getSectionType P (snt_name e +++ rest) = snt_type e /\
         getSectionName (getSectionType P (snt_name e +++ rest)) =
           (if snt_type e =? BPF_PROG_TYPE_KPROBE then "kprobe/"
            else snt_name e))
    sectionNameTypes.
Proof.
  unfold sectionNameTypes.
  repeat (apply Forall_cons; [intros P rest; split; reflexivity|]).
  apply Forall_nil.
Qed.

(* ===================================================================== *)
(** * Buffers and machine integers: lemmas *)
(* ===================================================================== *)

Lemma le_decode_encode (n : nat) (z : Z) :
  le_decode (le_encode n z) = z mod 256 ^ Z.of_nat n.
Proof.
  revert z. induction n as [|n IH]; intros z.
  - simpl. rewrite Z.mod_1_r. reflexivity.
  - cbn [le_encode le_decode]. rewrite IH.
    rewrite Nat2Z.inj_succ, Z.pow_succ_r by lia.
    rewrite Z.rem_mul_r by lia. reflexivity.
Qed.

Lemma to_int_to_u32 (z : Z) :
  - 2 ^ 31 <= z < 2 ^ 31 -> to_int (to_u32 z) = z.
Proof.
  intros H. unfold to_int, to_u32.
  rewrite Z.add_mod_idemp_l by lia.
  rewrite Z.mod_small by lia. lia.
Qed.

Lemma imm_bytes_decode (fd : Z) :
  - 2 ^ 31 <= fd < 2 ^ 31 ->
  to_int (le_decode (le_encode 4 (to_u32 fd))) = fd.
Proof.
  intros H. rewrite le_decode_encode.
  change (256 ^ Z.of_nat 4) with (2 ^ 32).
  unfold to_u32 at 1. rewrite Z.mod_mod by lia.
  apply to_int_to_u32. exact H.
Qed.

Lemma low_nibble_range (b : Z) : 0 <= Z.land b 15 < 16.
Proof.
  change 15 with (Z.ones 4). rewrite Z.land_ones by lia.
  apply Z.mod_pos_bound. lia.
Qed.

Lemma nibble_cases (x : Z) :
  0 <= x < 16 ->
  x = 0 \/ x = 1 \/ x = 2 \/ x = 3 \/ x = 4 \/ x = 5 \/ x = 6 \/ x = 7 \/
  x = 8 \/ x = 9 \/ x = 10 \/ x = 11 \/ x = 12 \/ x = 13 \/ x = 14 \/ x = 15.
Proof. lia. Qed.

(** The byte that [insn->src_reg = v] leaves: [dst_reg] kept, [src_reg]
    equal to [v]. *)
Lemma regs_byte_fields (b v : Z) :
  0 <= v < 16 ->
  let b' := Z.lor (Z.land b 15) (Z.shiftl (Z.land v 15) 4) in
  Z.land b' 15 = Z.land b 15 /\ Z.land (Z.shiftr b' 4) 15 = v.
Proof.
  intros Hv b'. subst b'.
  pose proof (low_nibble_range b) as Hb.
  apply nibble_cases in Hb. apply nibble_cases in Hv.
  repeat (destruct Hb as [Hb | Hb]; [rewrite Hb | ]); try rewrite Hb;
    repeat (destruct Hv as [Hv | Hv]; [rewrite Hv; split; reflexivity | ]);
    rewrite Hv; split; reflexivity.
Qed.

Lemma write_at_app (pre bs l : list Z) (k : nat) :
  write_at (List.length pre + k) bs (pre ++ l) = pre ++ write_at k bs l.
Proof.
  induction pre as [|x pre IH]; simpl; [reflexivity|].
  rewrite IH. reflexivity.
Qed.

Lemma nth_app_plus (pre l : list Z) (k : nat) :
  nth (List.length pre + k) (pre ++ l) 0 = nth k l 0.
Proof. induction pre as [|x pre IH]; simpl; [reflexivity | exact IH]. Qed.

Lemma slice_app_plus (pre l : list Z) (k len : nat) :
  slice (List.length pre + k) len (pre ++ l) = slice k len l.
Proof.
  unfold slice. induction pre as [|x pre IH]; simpl; [reflexivity | exact IH].
Qed.

(** An instruction inside a buffer, cut out. *)
Lemma insn_decompose (n : nat) (l : list Z) :
  (n + 8 <= List.length l)%nat ->
  exists pre b0 b1 b2 b3 b4 b5 b6 b7 post,
    l = pre ++ b0 :: b1 :: b2 :: b3 :: b4 :: b5 :: b6 :: b7 :: post /\
    List.length pre = n.
Proof.
  intros H.
  exists (firstn n l).
  assert (Hs : (8 <= List.length (skipn n l))%nat)
    by (rewrite length_skipn; lia).
  destruct (skipn n l) as [|b0 [|b1 [|b2 [|b3 [|b4 [|b5 [|b6 [|b7 post]]]]]]]]
    eqn:E; simpl in Hs; try lia.
  exists b0, b1, b2, b3, b4, b5, b6, b7, post.
  split.
  - rewrite <- E. symmetry. apply firstn_skipn.
  - apply firstn_length_le. lia.
Qed.

(* ===================================================================== *)
(** * Properties of the relocator *)
(* ===================================================================== *)

Lemma set_fields_relocated (insns : list Z) (idx fd : Z) :
  0 <= idx ->
  8 * idx + 8 <= Z.of_nat (List.length insns) ->
  - 2 ^ 31 <= fd < 2 ^ 31 ->
  relocated insns
    (set_insn_src_reg (set_insn_imm insns idx fd) idx BPF_PSEUDO_MAP_FD)
    idx fd.
Proof.
  intros Hidx Hlen Hfd.
  destruct (insn_decompose (Z.to_nat (8 * idx)) insns)
    as (pre & b0 & b1 & b2 & b3 & b4 & b5 & b6 & b7 & post & -> & Hpre);
    [lia|].
  unfold relocated, set_insn_src_reg, set_insn_imm, insn_imm, insn_src_reg,
    insn_dst_reg, insn_byte, field.
  rewrite <- Hpre.
  remember (le_encode 4 (to_u32 fd)) as enc eqn:Henc.
  assert (Hl : List.length enc = 4%nat) by (subst enc; reflexivity).
  destruct enc as [|e0 [|e1 [|e2 [|e3 [|e4 enc]]]]]; try discriminate Hl.
  rewrite !write_at_app. cbn [write_at app List.length skipn].
  rewrite !nth_app_plus, !slice_app_plus. cbn [nth].
  destruct (regs_byte_fields b1 BPF_PSEUDO_MAP_FD) as [Hdst Hsrc];
    [unfold BPF_PSEUDO_MAP_FD; lia|].
  repeat split.
  - rewrite !length_app. reflexivity.
  - unfold slice. cbn [skipn firstn]. rewrite Henc.
    apply imm_bytes_decode. exact Hfd.
  - exact Hsrc.
  - exact Hdst.
  - intros p Hp1 Hp2.
    destruct (Nat.lt_ge_cases p (List.length pre)) as [Hlt | Hge].
    + rewrite !nth_error_app1 by exact Hlt. reflexivity.
    + rewrite !nth_error_app2 by exact Hge.
      remember (p - List.length pre)%nat as q eqn:Hq.
      do 8 (destruct q as [|q]; [try reflexivity; exfalso; lia|]).
      reflexivity.
Qed.

Lemma findMapIndex_first (names : list string) (name : string) (start : Z) :
  In name names ->
  exists j : nat,
    findMapIndex names name start = Some (start + Z.of_nat j) /\
    first_index_of names name j /\ (j < List.length names)%nat.
Proof.
  revert start. induction names as [|n names IH]; intros start Hin;
    [contradiction|].
  simpl. destruct (String.eqb n name) eqn:E.
  - apply String.eqb_eq in E. subst n. exists O.
    split; [f_equal; lia|]. split; [|simpl; lia].
    split; [reflexivity | intros k Hk; lia].
  - destruct Hin as [Heq | Hin];
      [subst n; rewrite String.eqb_refl in E; discriminate|].
    destruct (IH (start + 1) Hin) as (j & Hf & [Hn Hfirst] & Hj).
    exists (S j). split; [rewrite Hf; f_equal; lia|].
    split; [|simpl; lia]. split; [exact Hn|].
    intros [|k] Hk; simpl.
    + intros H. inversion H; subst. rewrite String.eqb_refl in E. discriminate.
    + apply Hfirst. lia.
Qed.

Lemma at_index_some {P : Platform} {A} (vec : string) (v : list A) (j : nat)
    (x : A) (s : State P) :
  nth_error v j = Some x ->
  at_index P vec v (Z.of_nat j) s = Ret x s.
Proof.
  intros H. unfold at_index.
  destruct (Z.of_nat j <? 0) eqn:E; [apply Z.ltb_lt in E; lia|].
  rewrite Nat2Z.id, H. reflexivity.
Qed.

(** C1: a relocation entry whose symbol resolves to a name of the
    map-name vector is paired with the FD at the first index of that
    name.  If the instruction at [offset / 8] has the opcode of the
    64-bit immediate load, then afterwards its immediate is that FD, its
    source register is the pseudo-map-FD marker and no other byte of the
    instruction stream has changed; with any other opcode the stream is
    left as it was and the entry is logged. *)
Theorem applyMapRelo_entry_patches_only_imm_and_src_reg
    (P : Platform) (elfFile : list Z) (mapNames : list string)
    (mapFds : list Z) (rel : Elf64_Rel) (data : list Z) (symName : string)
    (s s1 : State P) :
  getSymNameByIdx P elfFile (to_int (ELF64_R_SYM (r_info rel))) s
    = Ret (Ok symName) s1 ->
  In symName mapNames ->
  List.length mapFds = List.length mapNames ->
  Forall (fun fd => - 2 ^ 31 <= fd < 2 ^ 31) mapFds ->
  0 <= to_int (r_offset rel / 8) ->
  8 * to_int (r_offset rel / 8) + 8 <= Z.of_nat (List.length data) ->
  let idx := to_int (r_offset rel / 8) in
  exists (j : nat) (fd : Z),
    first_index_of mapNames symName j /\
    nth_error mapFds j = Some fd /\
    if insn_code data idx =? Z.lor (Z.lor BPF_LD BPF_IMM) BPF_DW
    then
      exists data' : list Z,
        applyMapRelo_entry P elfFile mapNames mapFds rel data s
          = Ret (Ok data') s1 /\
        relocated data data' idx fd
    else
      applyMapRelo_entry P elfFile mapNames mapFds rel data s
        = Ret (Ok data)
              (with_events s1
                 [ev_log LOG_ERROR "invalid relo for insn %d: code 0x%x"
                         [ArgInt idx; ArgInt (insn_code data idx)]]).
Proof.
  intros Hsym Hin Hlen Hfds Hidx0 Hidx8 idx.
  destruct (findMapIndex_first mapNames symName 0 Hin)
    as (j & Hfind & Hfirst & Hj).
  destruct (nth_error mapFds j) as [fd|] eqn:Hfd;
    [|apply nth_error_None in Hfd; lia].
  exists j, fd. split; [exact Hfirst|]. split; [exact Hfd|].
  assert (Hrange : - 2 ^ 31 <= fd < 2 ^ 31).
  { rewrite Forall_forall in Hfds. apply Hfds.
    eapply nth_error_In. exact Hfd. }
  unfold applyMapRelo_entry, bind. rewrite Hsym, Hfind. simpl Z.add.
  rewrite (at_index_some "mapFds" mapFds j fd s1 Hfd).
  unfold applyRelo. change (Z.of_nat sizeof_bpf_insn) with 8. fold idx.
  destruct (idx <? 0) eqn:E0; [apply Z.ltb_lt in E0; unfold idx in E0; lia|].
  destruct (Z.of_nat (List.length data) <? 8 * idx + 8) eqn:E8;
    [apply Z.ltb_lt in E8; unfold idx in E8; lia|].
  cbn [orb].
  destruct (insn_code data idx =? Z.lor (Z.lor BPF_LD BPF_IMM) BPF_DW) eqn:Ec.
  - cbn [negb]. eexists. split; [reflexivity|].
    apply set_fields_relocated; assumption.
  - cbn [negb]. reflexivity.
Qed.

(* ===================================================================== *)
(** * Running the monad *)
(* ===================================================================== *)

Section Quiet.

Variable P : Platform.

Lemma quiet_pure {A} (a : A) : quiet (pure P a).
Proof. intros s x s' H. inversion H; subst. auto. Qed.

Lemma quiet_undefined {A} (f : Fault) : quiet (@undefined P A f).
Proof. intros s x s' H. discriminate H. Qed.

Lemma quiet_bind {A B} (c : M P A) (k : A -> M P B) :
  quiet c -> (forall a, quiet (k a)) -> quiet (bind P c k).
Proof.
  intros Hc Hk s b s' H. unfold bind in H.
  destruct (c s) as [a s1| |] eqn:E; try discriminate.
  destruct (Hc s a s1 E) as [Hk1 He1].
  destruct (Hk a s1 b s' H) as [Hk2 He2].
  split; congruence.
Qed.

Lemma quiet_seekg (off : Z) : quiet (seekg P off).
Proof.
  intros s x s' H. unfold seekg in H.
  destruct (st_fail s); [inversion H; subst; auto|].
  destruct ((0 <=? off) && (off <? 2 ^ 63)); inversion H; subst; auto.
Qed.

Lemma quiet_fail : quiet (fail P).
Proof. intros s x s' H. inversion H; subst. auto. Qed.

Lemma quiet_read (elfFile : list Z) (n : Z) : quiet (read P elfFile n).
Proof.
  intros s x s' H. unfold read in H.
  destruct (st_fail s); [inversion H; subst; auto|].
  destruct (n =? 0); [inversion H; subst; auto|].
  destruct (st_pos s + n <=? Z.of_nat (List.length elfFile));
    inversion H; subst; auto.
Qed.

Lemma quiet_at_index {A} (vec : string) (v : list A) (i : Z) :
  quiet (at_index P vec v i).
Proof.
  unfold at_index. destruct (i <? 0); [apply quiet_undefined|].
  destruct (nth_error v (Z.to_nat i)); [apply quiet_pure | apply quiet_undefined].
Qed.

End Quiet.

Create HintDb quiet.

#[export] Hint Resolve quiet_pure quiet_undefined quiet_seekg quiet_fail
  quiet_read quiet_at_index : quiet.

(** Proves [quiet] of a reader by following its binds and case splits. *)
Ltac quiet_steps :=
  repeat first
    [ solve [auto with quiet]
    | apply quiet_bind; [|intros ?]
    | match goal with
      | |- quiet (match ?x with _ => _ end) => destruct x
      | |- quiet (if ?b then _ else _) => destruct b
      end ].

Section QuietReaders.

Variable P : Platform.
Variable elfFile : list Z.

Lemma quiet_readElfHeader : quiet (readElfHeader P elfFile).
Proof. unfold readElfHeader. quiet_steps. Qed.

Hint Resolve quiet_readElfHeader : quiet.

Lemma quiet_readSectionHeadersAll : quiet (readSectionHeadersAll P elfFile).
Proof. unfold readSectionHeadersAll. quiet_steps. Qed.

Hint Resolve quiet_readSectionHeadersAll : quiet.

Lemma quiet_readSectionByIdx (id : Z) : quiet (readSectionByIdx P elfFile id).
Proof. unfold readSectionByIdx. quiet_steps. Qed.

Hint Resolve quiet_readSectionByIdx : quiet.

Lemma quiet_readSectionHeaderStrtab :
  quiet (readSectionHeaderStrtab P elfFile).
Proof. unfold readSectionHeaderStrtab. quiet_steps. Qed.

Hint Resolve quiet_readSectionHeaderStrtab : quiet.

Lemma quiet_getSymName (nameOff : Z) : quiet (getSymName P elfFile nameOff).
Proof. unfold getSymName. quiet_steps. Qed.

Hint Resolve quiet_getSymName : quiet.

Lemma quiet_readSectionData (sh : Elf64_Shdr) :
  quiet (readSectionData P elfFile sh).
Proof. unfold readSectionData. quiet_steps. Qed.

Hint Resolve quiet_readSectionData : quiet.

Lemma quiet_readSectionByType (type : Z) :
  quiet (readSectionByType P elfFile type).
Proof.
  unfold readSectionByType. quiet_steps.
  match goal with
  | |- quiet (readSectionByType_loop _ _ _ ?shs) =>
      induction shs as [|sh shs IH]; cbn [readSectionByType_loop];
        quiet_steps
  end.
Qed.

Hint Resolve quiet_readSectionByType : quiet.

Lemma quiet_readSymTab (sort : bool) : quiet (readSymTab P elfFile sort).
Proof. unfold readSymTab. quiet_steps. Qed.

Lemma quiet_findSectionIndex (sectionName : string) (shs : list Elf64_Shdr) :
  forall i, quiet (findSectionIndex P elfFile sectionName i shs).
Proof.
  induction shs as [|sh shs IH]; intros i; cbn [findSectionIndex];
    quiet_steps.
Qed.

End QuietReaders.

(* ===================================================================== *)
(** * Properties of the map installer *)
(* ===================================================================== *)

Lemma live_match_true (P : Platform) mapDef type fd (k : kstate P) :
  live_match P mapDef type fd k = true <->
  live_equal_desired P mapDef type fd k.
Proof.
  unfold live_match, live_equal_desired.
  destruct (fst (liveAttributes P fd k)) as [[[[t ks] vs] me] fl].
  unfold attributes_match.
  rewrite !andb_true_iff, !Z.eqb_eq. tauto.
Qed.

Lemma mapMatchesExpectations_run (P : Platform) fd mapName mapDef type
    (s : State P) :
  exists evs : list Event,
    mapMatchesExpectations P fd mapName mapDef type s =
      Ret (live_match P mapDef type fd (st_kern s))
          (mkState (st_pos s) (st_fail s)
                   (snd (liveAttributes P fd (st_kern s)))
                   (st_events s ++ attributeQueries fd ++ evs)) /\
    (live_match P mapDef type fd (st_kern s) = true -> evs = []).
Proof.
  unfold mapMatchesExpectations, live_match, liveAttributes, attributeQueries.
  run_goal. cbn [fst snd].
  destruct (attributes_match P mapDef type _ _ _ _ _) eqn:E.
  - exists []. split; [|reflexivity].
    rewrite <- !app_assoc. reflexivity.
  - run_goal. eexists. split; [|discriminate].
    rewrite <- !app_assoc. cbn [app]. reflexivity.
Qed.

Lemma pinNewMap_cases (P : Platform) fd pinLoc mapDef (s s1 : State P) flow :
  pinNewMap P fd pinLoc mapDef s = Ret flow s1 ->
  flow = Next \/ exists e, flow = Return e /\ e < 0.
Proof.
  unfold pinNewMap. intros H. run_M H.
  all: inversion H; subst; clear H; try (left; reflexivity);
    right; eexists; split; try reflexivity; lia.
Qed.

Lemma logMapId_ret (P : Platform) fd pinLoc (s : State P) :
  exists s', logMapId P fd pinLoc s = Ret tt s'.
Proof.
  unfold logMapId. run_goal.
  destruct (sr_ret _ =? -1); run_goal; eexists; reflexivity.
Qed.

Lemma installMapFd_cases (P : Platform) fd errno reuse pinLoc mapName mapDef
    type mapFds ret (s s1 : State P) flow mapFds1 ret1 :
  installMapFd P fd errno reuse pinLoc mapName mapDef type mapFds ret s
    = Ret (flow, mapFds1, ret1) s1 ->
  (flow = Next /\ mapFds1 = mapFds ++ [fd] /\ (ret1 = ret \/ ret1 = 0) /\
   fd_ok fd = true /\ live_match P mapDef type fd (st_kern s) = true)
  \/ (exists e, flow = Return e /\ e < 0).
Proof.
  unfold installMapFd.
  destruct (fd_ok fd) eqn:Hok; cbn [negb].
  2:{ unfold pure. intros H. inversion H; subst. right. eexists.
      split; [reflexivity | lia]. }
  destruct (mapMatchesExpectations_run P fd mapName mapDef type s)
    as (evs & Hrun & _).
  unfold bind at 1. rewrite Hrun.
  destruct (live_match P mapDef type fd (st_kern s)) eqn:Hm; cbn [negb].
  2:{ unfold pure. intros H. inversion H; subst. right. eexists.
      split; [reflexivity | unfold ENOTUNIQ; lia]. }
  match goal with
  | |- context [bind P _ _ ?st] => set (s2 := st)
  end.
  unfold bind at 1.
  destruct reuse.
  - unfold pure at 1. cbv beta iota.
    destruct (logMapId_ret P fd pinLoc s2) as (s' & Hlog).
    unfold bind. rewrite Hlog. unfold pure. intros H. inversion H; subst.
    left. auto.
  - destruct (pinNewMap P fd pinLoc mapDef s2) as [fl st'| |] eqn:Hpin;
      try discriminate.
    apply pinNewMap_cases in Hpin. destruct Hpin as [-> | (e & -> & He)].
    + destruct (logMapId_ret P fd pinLoc st') as (s' & Hlog).
      unfold bind. rewrite Hlog. unfold pure. intros H. inversion H; subst.
      left. auto.
    + unfold pure. intros H. inversion H; subst. right. eexists.
      split; [reflexivity | exact He].
Qed.

(** The iteration on a MapDef that passes the version gate: the FD is
    obtained, then installed. *)
Lemma createMaps_body_included (P : Platform) prefix objName md mapNames
    (i : nat) mapFds ret (s : State P) mapDef mapName :
  nth_error md i = Some mapDef ->
  nth_error mapNames i = Some mapName ->
  md_zero mapDef = 0 ->
  map_version_excluded P mapDef = false ->
  createMaps_body P prefix objName md mapNames (Z.of_nat i) mapFds ret s =
  bind P (obtainMapFd P (mapPinLoc prefix objName mapDef mapName) mapDef
            (effective_map_type P mapDef)
            (adjusted_max_entries P mapDef (effective_map_type P mapDef))
            mapName)
       (fun x => let '(fd, saved_errno, reuse) := x in
                 installMapFd P fd saved_errno reuse
                   (mapPinLoc prefix objName mapDef mapName) mapName mapDef
                   (effective_map_type P mapDef) mapFds ret) s.
Proof.
  intros Hmd Hname Hzero Hver.
  unfold createMaps_body. unfold bind at 1.
  rewrite (at_index_some "md" md i mapDef s Hmd).
  unfold bind at 1.
  rewrite (at_index_some "mapNames" mapNames i mapName s Hname).
  rewrite Hzero. cbn [Z.eqb negb].
  unfold map_version_excluded in Hver. apply orb_false_iff in Hver.
  destruct Hver as [H1 H2]. rewrite H1, H2. reflexivity.
Qed.

(** The iteration on a MapDef that the version gate excludes. *)
Lemma createMaps_body_excluded (P : Platform) prefix objName md mapNames
    (i : nat) mapFds ret (s : State P) mapDef mapName :
  nth_error md i = Some mapDef ->
  nth_error mapNames i = Some mapName ->
  md_zero mapDef = 0 ->
  map_version_excluded P mapDef = true ->
  exists fmt args,
    createMaps_body P prefix objName md mapNames (Z.of_nat i) mapFds ret s =
    Ret (Next, mapFds ++ [-1], ret)
        (with_events s [ev_log LOG_DEBUG fmt args]).
Proof.
  intros Hmd Hname Hzero Hver.
  unfold createMaps_body. unfold bind at 1.
  rewrite (at_index_some "md" md i mapDef s Hmd).
  unfold bind at 1.
  rewrite (at_index_some "mapNames" mapNames i mapName s Hname).
  rewrite Hzero. cbn [Z.eqb negb].
  unfold map_version_excluded in Hver.
  destruct (kernelVersion P <? md_min_kver mapDef) eqn:H1.
  - do 2 eexists. reflexivity.
  - cbn [orb] in Hver. rewrite Hver. do 2 eexists. reflexivity.
Qed.

Lemma createMaps_body_cases (P : Platform) prefix objName md mapNames
    (i : nat) mapFds ret (s s1 : State P) flow mapFds1 ret1 :
  createMaps_body P prefix objName md mapNames (Z.of_nat i) mapFds ret s
    = Ret (flow, mapFds1, ret1) s1 ->
  exists mapDef,
    nth_error md i = Some mapDef /\
    ((flow = Next /\ (ret1 = ret \/ ret1 = 0) /\
      exists fd, mapFds1 = mapFds ++ [fd] /\
                 (map_version_excluded P mapDef = true -> fd = -1))
     \/ (exists e, flow = Return e /\ e < 0)).
Proof.
  intros H.
  destruct (nth_error md i) as [mapDef|] eqn:Hmd.
  2:{ unfold createMaps_body, bind, at_index in H.
      destruct (Z.of_nat i <? 0); [discriminate|].
      rewrite Nat2Z.id, Hmd in H. discriminate. }
  destruct (nth_error mapNames i) as [mapName|] eqn:Hname.
  2:{ unfold createMaps_body in H. unfold bind at 1 in H.
      rewrite (at_index_some "md" md i mapDef s Hmd) in H.
      unfold bind, at_index in H.
      destruct (Z.of_nat i <? 0); [discriminate|].
      rewrite Nat2Z.id, Hname in H. discriminate. }
  exists mapDef. split; [reflexivity|].
  destruct (md_zero mapDef =? 0) eqn:Hzero.
  2:{ unfold createMaps_body in H. unfold bind at 1 in H.
      rewrite (at_index_some "md" md i mapDef s Hmd) in H.
      unfold bind at 1 in H.
      rewrite (at_index_some "mapNames" mapNames i mapName s Hname) in H.
      rewrite Hzero in H. discriminate. }
  apply Z.eqb_eq in Hzero.
  destruct (map_version_excluded P mapDef) eqn:Hver.
  - destruct (createMaps_body_excluded P prefix objName md mapNames i mapFds
                ret s mapDef mapName Hmd Hname Hzero Hver) as (f & a & E).
    rewrite E in H. inversion H; subst. left.
    split; [reflexivity|]. split; [left; reflexivity|].
    exists (-1). auto.
  - rewrite (createMaps_body_included P prefix objName md mapNames i mapFds
               ret s mapDef mapName Hmd Hname Hzero Hver) in H.
    unfold bind at 1 in H.
    destruct (obtainMapFd P _ _ _ _ _ s) as [[[fd errno] reuse] s'| |];
      try discriminate.
    apply installMapFd_cases in H.
    destruct H as [(-> & -> & Hret & _ & _) | (e & -> & He)].
    + left. split; [reflexivity|]. split; [exact Hret|].
      exists fd. split; [reflexivity | discriminate].
    + right. exists e. auto.
Qed.

(** Index alignment: a run of the loop that returns 0 has appended one
    FD per index visited, and -1 for every MapDef the gate excludes. *)
Lemma createMaps_loop_aligned (P : Platform) prefix objName md mapNames
    (n : nat) :
  forall (a : nat) (mapFds mapFds' : list Z) (s s' : State P),
    createMaps_loop P prefix objName md mapNames
      (map Z.of_nat (seq a n)) mapFds 0 s = Ret (0, mapFds') s' ->
    List.length mapFds = a ->
    List.length mapFds' = (a + n)%nat /\
    (forall i, (i < a)%nat -> nth_error mapFds' i = nth_error mapFds i) /\
    (forall i mapDef,
        (a <= i < a + n)%nat ->
        nth_error md i = Some mapDef ->
        map_version_excluded P mapDef = true ->
        nth_error mapFds' i = Some (-1)).
Proof.
  induction n as [|n IH]; intros a mapFds mapFds' s s' Hrun Hlen.
  - cbn in Hrun. unfold pure in Hrun. inversion Hrun; subst.
    split; [lia|]. split; [reflexivity|]. intros; lia.
  - cbn [seq map createMaps_loop] in Hrun. unfold bind at 1 in Hrun.
    destruct (createMaps_body P prefix objName md mapNames (Z.of_nat a)
                mapFds 0 s) as [[[flow fds1] ret1] s1| |] eqn:Hbody;
      try discriminate.
    apply createMaps_body_cases in Hbody.
    destruct Hbody as (mapDef & Hmd & [(-> & Hret & fd & -> & Hfd)
                                      | (e & -> & He)]).
    2:{ unfold pure in Hrun. inversion Hrun; subst. lia. }
    assert (ret1 = 0) by (destruct Hret; assumption). subst ret1.
    apply IH in Hrun; [|rewrite length_app; simpl; lia].
    destruct Hrun as (Hl & Hpre & Hskip).
    split; [lia|]. split.
    + intros i Hi. rewrite Hpre by lia.
      apply nth_error_app1. lia.
    + intros i d Hi Hd Hex.
      destruct (Nat.eq_dec i a) as [-> | Hne].
      * rewrite Hpre by lia. rewrite nth_error_app2 by lia.
        rewrite Hlen, Nat.sub_diag. cbn.
        rewrite Hmd in Hd. inversion Hd; subst. rewrite (Hfd Hex). reflexivity.
      * apply (Hskip i d); try assumption. lia.
Qed.

(* ===================================================================== *)
(** * Properties of the program installer *)
(* ===================================================================== *)

Lemma with_events_nil {P : Platform} (s : State P) : with_events s [] = s.
Proof. destruct s. unfold with_events. cbn. rewrite app_nil_r. reflexivity. Qed.

Lemma with_events_app {P : Platform} (s : State P) (a b : list Event) :
  with_events (with_events s a) b = with_events s (a ++ b).
Proof. unfold with_events. cbn. rewrite app_assoc. reflexivity. Qed.

Lemma ALOG_run (P : Platform) prio fmt args (s : State P) :
  ALOG P prio fmt args s = Ret tt (with_events s [ev_log prio fmt args]).
Proof. reflexivity. Qed.

Lemma logLines_run (P : Platform) (lines : list string) (s : State P) :
  logLines P lines s =
  Ret tt (with_events s
            (map (fun line => ev_log LOG_WARN "%s" [ArgStr line]) lines)).
Proof.
  revert s. induction lines as [|l lines IH]; intros s; cbn [logLines map].
  - unfold pure. rewrite with_events_nil. reflexivity.
  - unfold bind. rewrite ALOG_run, IH, with_events_app. reflexivity.
Qed.

Lemma reportLoadFailure_run (P : Platform) elfPath c pd r (s : State P) :
  reportLoadFailure P elfPath c pd r s =
  Ret (pd_optional pd) (with_events s (load_failure_events elfPath c pd r)).
Proof.
  unfold reportLoadFailure, load_failure_events, verifier_log_lines.
  unfold bind. rewrite !ALOG_run, logLines_run, ALOG_run.
  destruct (pd_optional pd); unfold bind; rewrite ALOG_run; unfold pure;
    rewrite !with_events_app; reflexivity.
Qed.

Lemma syscalls_of_app (a b : list Event) :
  syscalls_of (a ++ b) = syscalls_of a ++ syscalls_of b.
Proof. unfold syscalls_of. apply flat_map_app. Qed.

Lemma fd_ok_false (fd : Z) : fd_ok fd = false -> fd < 0.
Proof. unfold fd_ok. intros H. apply Z.leb_gt in H. exact H. Qed.

Lemma pinNewProg_cases (P : Platform) fd pinLoc pd (s : State P) :
  exists flow s',
    pinNewProg P fd pinLoc pd s = Ret flow s' /\
    (flow = Next \/ exists e, flow = Return e /\ e < 0).
Proof.
  unfold pinNewProg. run_goal.
  destruct (negb (sr_ret _ =? 0)); run_goal.
  { do 2 eexists. split; [reflexivity|]. right. eexists.
    split; [reflexivity | lia]. }
  destruct (negb (sr_ret _ =? 0)); run_goal.
  { do 2 eexists. split; [reflexivity|]. right. eexists.
    split; [reflexivity | lia]. }
  destruct (negb (sr_ret _ =? 0)); run_goal.
  { do 2 eexists. split; [reflexivity|]. right. eexists.
    split; [reflexivity | lia]. }
  do 2 eexists. split; [reflexivity | left; reflexivity].
Qed.

Lemma logProgId_ret (P : Platform) fd pinLoc (s : State P) :
  exists s', logProgId P fd pinLoc s = Ret tt s'.
Proof.
  unfold logProgId. run_goal.
  destruct (sr_ret _ =? -1); run_goal; eexists; reflexivity.
Qed.

Lemma installProgFd_cases (P : Platform) fd reuse pinLoc pd (s : State P) :
  exists flow s',
    installProgFd P fd reuse pinLoc pd s = Ret flow s' /\
    (flow = Next \/ exists e, flow = Return e /\ e < 0).
Proof.
  unfold installProgFd.
  destruct (fd_ok fd) eqn:Hok; cbn [negb].
  2:{ do 2 eexists. split; [reflexivity|]. right. eexists.
      split; [reflexivity | apply fd_ok_false; exact Hok]. }
  destruct reuse.
  - unfold bind at 1, pure at 1. cbv beta iota.
    destruct (logProgId_ret P fd pinLoc s) as (s' & Hlog).
    unfold bind. rewrite Hlog. do 2 eexists.
    split; [reflexivity | left; reflexivity].
  - unfold bind at 1.
    destruct (pinNewProg_cases P fd pinLoc pd s)
      as (flow & s1 & Hpin & [-> | (e & -> & He)]); rewrite Hpin.
    + destruct (logProgId_ret P fd pinLoc s1) as (s' & Hlog).
      unfold bind. rewrite Hlog. do 2 eexists.
      split; [reflexivity | left; reflexivity].
    + do 2 eexists. split; [reflexivity|]. right. eexists.
      split; [reflexivity | exact He].
Qed.

(** An iteration of the program loop always ends: with the next
    program, or with a negative return value; it ends with [-EINVAL]
    and nothing but a log line when the section has no ProgDef. *)
Lemma loadCodeSections_body_cases (P : Platform) elfPath license prefix
    objName i c (s : State P) :
  exists flow c' s',
    loadCodeSections_body P elfPath license prefix objName i c s
      = Ret (flow, c') s' /\
    (flow = Next \/ exists e, flow = Return e /\ e < 0) /\
    (cs_prog_def c = None ->
     flow = Return (- EINVAL) /\ c' = c /\
     exists fmt args, s' = with_events s [ev_log LOG_ERROR fmt args]).
Proof.
  unfold loadCodeSections_body.
  destruct (cs_prog_def c) as [pd|] eqn:Hpd.
  2:{ do 3 eexists. split; [reflexivity|]. split.
      - right. eexists. split; [reflexivity | unfold EINVAL; lia].
      - intros _. split; [reflexivity|]. split; [reflexivity|].
        do 2 eexists. reflexivity. }
  destruct (prog_version_excluded P pd).
  { do 3 eexists. split; [reflexivity|]. split;
      [left; reflexivity | discriminate]. }
  unfold bind at 1, syscall at 1.
  destruct (sys P (sys_access _) (st_kern s)) as [a k1].
  destruct (sr_ret a =? 0).
  - unfold bind at 1, syscall at 1. cbn [st_kern st_pos st_fail st_events].
    destruct (sys P (sys_retrieveProgram _) k1) as [r k2].
    unfold bind at 1.
    match goal with
    | |- context [installProgFd P ?fd ?re ?pl pd ?st] =>
        destruct (installProgFd_cases P fd re pl pd st)
          as (flow & s' & Hins & Hflow); rewrite Hins
    end.
    do 3 eexists. split; [reflexivity|]. split; [exact Hflow | discriminate].
  - unfold bind at 1, syscall at 1. cbn [st_kern st_pos st_fail st_events].
    destruct (sys P (sys_BPF_PROG_LOAD _) k1) as [r k2].
    destruct (fd_ok (sr_ret r)) eqn:Hok; cbn [negb].
    + unfold bind at 1.
      match goal with
      | |- context [installProgFd P ?fd ?re ?pl pd ?st] =>
          destruct (installProgFd_cases P fd re pl pd st)
            as (flow & s' & Hins & Hflow); rewrite Hins
      end.
      do 3 eexists. split; [reflexivity|]. split; [exact Hflow | discriminate].
    + unfold bind at 1. rewrite reportLoadFailure_run.
      destruct (pd_optional pd).
      * do 3 eexists. split; [reflexivity|]. split;
          [left; reflexivity | discriminate].
      * unfold bind at 1.
        match goal with
        | |- context [installProgFd P ?fd ?re ?pl pd ?st] =>
            destruct (installProgFd_cases P fd re pl pd st)
              as (flow & s' & Hins & Hflow); rewrite Hins
        end.
        do 3 eexists. split; [reflexivity|]. split;
          [exact Hflow | discriminate].
Qed.

Lemma loadCodeSections_loop_missing_def (P : Platform) elfPath license prefix
    objName (cs : list codeSection) :
  forall i done (s : State P),
    (exists c, In c cs /\ cs_prog_def c = None) ->
    exists r cs' s',
      loadCodeSections_loop P elfPath license prefix objName i cs done s
        = Ret (r, cs') s' /\ r < 0.
Proof.
  induction cs as [|c cs IH]; intros i done s (c0 & Hin & Hnone);
    [contradiction|].
  cbn [loadCodeSections_loop]. unfold bind at 1.
  destruct (loadCodeSections_body_cases P elfPath license prefix objName i c s)
    as (flow & c' & s' & Hbody & Hflow & Hmiss).
  rewrite Hbody.
  destruct Hflow as [-> | (e & -> & He)].
  - apply IH. destruct Hin as [-> | Hin].
    + destruct (Hmiss Hnone) as [Hf _]. discriminate.
    + exists c0. auto.
  - do 3 eexists. split; [reflexivity | exact He].
Qed.

Lemma findProgDef_no_match (P : Platform) pd (names : list string)
    (target : string) :
  forall i (s : State P),
    ~ In target names ->
    findProgDef P pd i names target s = Ret None s.
Proof.
  induction names as [|n names IH]; intros i s Hnot; [reflexivity|].
  cbn [findProgDef].
  destruct (String.eqb n target) eqn:E.
  - apply String.eqb_eq in E. subst. exfalso. apply Hnot. left. reflexivity.
  - apply IH. intros H. apply Hnot. right. exact H.
Qed.

(* ===================================================================== *)
(** * The claims on installation *)
(* ===================================================================== *)

(** C2: a MapDef whose [[min_kver, max_kver)] range excludes the running
    kernel version gets the placeholder -1 appended at its position and
    nothing else happens (no call is made, the kernel is untouched); a
    run of the map loop that succeeds has one FD per MapDef, with -1 at
    the index of every excluded MapDef; and a program whose ProgDef is
    excluded is skipped with no call made. *)
Theorem version_gate_skips_maps_and_programs (P : Platform) :
  (forall prefix objName md mapNames (i : nat) mapFds ret (s : State P)
          mapDef mapName,
      nth_error md i = Some mapDef ->
      nth_error mapNames i = Some mapName ->
      md_zero mapDef = 0 ->
      map_version_excluded P mapDef = true ->
      exists s',
        createMaps_body P prefix objName md mapNames (Z.of_nat i) mapFds ret s
          = Ret (Next, mapFds ++ [-1], ret) s' /\
        st_kern s' = st_kern s /\
        syscalls_of (st_events s') = syscalls_of (st_events s)) /\
  (forall prefix objName md mapNames mapFds' (s s' : State P),
      createMaps_loop P prefix objName md mapNames
        (indices (List.length mapNames)) [] 0 s = Ret (0, mapFds') s' ->
      List.length mapFds' = List.length mapNames /\
      forall (i : nat) mapDef,
        (i < List.length mapNames)%nat ->
        nth_error md i = Some mapDef ->
        map_version_excluded P mapDef = true ->
        nth_error mapFds' i = Some (-1)) /\
  (forall elfPath license prefix objName i c pd (s : State P),
      cs_prog_def c = Some pd ->
      prog_version_excluded P pd = true ->
      exists s',
        loadCodeSections_body P elfPath license prefix objName i c s
          = Ret (Next, c) s' /\
        st_kern s' = st_kern s /\
        syscalls_of (st_events s') = syscalls_of (st_events s)).
Proof.
  split; [|split].
  - intros prefix objName md mapNames i mapFds ret s mapDef mapName
           Hmd Hname Hzero Hver.
    destruct (createMaps_body_excluded P prefix objName md mapNames i mapFds
                ret s mapDef mapName Hmd Hname Hzero Hver) as (f & a & E).
    eexists. split; [exact E|]. split; [reflexivity|].
    cbn [with_events st_events]. rewrite syscalls_of_app. cbn.
    apply app_nil_r.
  - intros prefix objName md mapNames mapFds' s s' Hrun.
    destruct (createMaps_loop_aligned P prefix objName md mapNames
                (List.length mapNames) 0 [] mapFds' s s' Hrun eq_refl)
      as (Hlen & _ & Hskip).
    split; [exact Hlen|].
    intros i mapDef Hi Hmd Hver. apply (Hskip i mapDef); auto. lia.
  - intros elfPath license prefix objName i c pd s Hpd Hver.
    unfold loadCodeSections_body. rewrite Hpd, Hver.
    eexists. split; [reflexivity|]. split; [reflexivity|].
    cbn [st_events]. rewrite syscalls_of_app. cbn. apply app_nil_r.
Qed.

(** C3: once the FD of a map is obtained, from a new map or from an
    existing pin alike, the installer queries the five live attributes
    and compares them to the desired ones; when they differ the map
    loop returns [-ENOTUNIQ], and when the iteration goes through, the
    five live attributes equal the desired ones. *)
Theorem createMaps_enforces_map_shape (P : Platform) prefix objName md
    mapNames (i : nat) rest mapFds ret (s s1 : State P) mapDef mapName
    fd saved_errno reuse :
  nth_error md i = Some mapDef ->
  nth_error mapNames i = Some mapName ->
  md_zero mapDef = 0 ->
  map_version_excluded P mapDef = false ->
  obtainMapFd P (mapPinLoc prefix objName mapDef mapName) mapDef
    (effective_map_type P mapDef)
    (adjusted_max_entries P mapDef (effective_map_type P mapDef)) mapName s
    = Ret (fd, saved_errno, reuse) s1 ->
  fd_ok fd = true ->
  let type := effective_map_type P mapDef in
  exists (s2 : State P) (evs : list Event),
    mapMatchesExpectations P fd mapName mapDef type s1
      = Ret (live_match P mapDef type fd (st_kern s1)) s2 /\
    st_events s2 = st_events s1 ++ attributeQueries fd ++ evs /\
    (live_match P mapDef type fd (st_kern s1) = false ->
     createMaps_loop P prefix objName md mapNames (Z.of_nat i :: rest)
       mapFds ret s = Ret (- ENOTUNIQ, mapFds) s2) /\
    (forall mapFds' ret' s3,
        createMaps_body P prefix objName md mapNames (Z.of_nat i) mapFds ret s
          = Ret (Next, mapFds', ret') s3 ->
        mapFds' = mapFds ++ [fd] /\
        live_equal_desired P mapDef type fd (st_kern s1)).
Proof.
  intros Hmd Hname Hzero Hver Hfd Hok type.
  destruct (mapMatchesExpectations_run P fd mapName mapDef type s1)
    as (evs & Hrun & _).
  eexists. exists evs. split; [exact Hrun|]. split; [reflexivity|].
  pose proof (createMaps_body_included P prefix objName md mapNames i mapFds
                ret s mapDef mapName Hmd Hname Hzero Hver) as Hbody.
  unfold bind at 1 in Hbody. rewrite Hfd in Hbody.
  split.
  - intros Hmis. cbn [createMaps_loop]. unfold bind at 1.
    rewrite Hbody. unfold installMapFd. rewrite Hok. cbn [negb].
    unfold bind at 1. fold type. rewrite Hrun, Hmis. reflexivity.
  - intros mapFds' ret' s3 Hnext. rewrite Hbody in Hnext.
    apply installMapFd_cases in Hnext.
    destruct Hnext as [(_ & -> & _ & _ & Hm) | (e & He & _)];
      [|discriminate].
    split; [reflexivity|]. apply live_match_true. exact Hm.
Qed.

Lemma land_rdonly_prog (z : Z) :
  Z.testbit z 7 = true ->
  Z.land z BPF_F_RDONLY_PROG = BPF_F_RDONLY_PROG.
Proof.
  intros H. apply Z.bits_inj'. intros n Hn.
  rewrite Z.land_spec.
  change BPF_F_RDONLY_PROG with (2 ^ 7).
  rewrite Z.pow2_bits_eqb by lia.
  destruct (Z.eqb_spec 7 n) as [<- | Hne].
  - rewrite H. reflexivity.
  - apply andb_false_r.
Qed.

Lemma to_int_testbit (z n : Z) :
  0 <= n < 32 -> Z.testbit (to_int z) n = Z.testbit z n.
Proof.
  intros Hn.
  assert (E : to_int z mod 2 ^ 32 = z mod 2 ^ 32).
  { unfold to_int.
    rewrite <- Zminus_mod_idemp_l, Z.mod_mod by lia.
    rewrite Zminus_mod_idemp_l.
    f_equal. lia. }
  rewrite <- (Z.mod_pow2_bits_low (to_int z) 32 n) by lia.
  rewrite E. apply Z.mod_pow2_bits_low. lia.
Qed.

Lemma desired_map_flags_devmap (mapDef : bpf_map_def) (type : Z) :
  type = BPF_MAP_TYPE_DEVMAP \/ type = BPF_MAP_TYPE_DEVMAP_HASH ->
  Z.land (desired_map_flags mapDef type) BPF_F_RDONLY_PROG
    = BPF_F_RDONLY_PROG.
Proof.
  intros Ht. unfold desired_map_flags.
  replace ((type =? BPF_MAP_TYPE_DEVMAP) || (type =? BPF_MAP_TYPE_DEVMAP_HASH))
    with true by (destruct Ht; subst; reflexivity).
  apply land_rdonly_prog.
  rewrite to_int_testbit by lia.
  rewrite Z.lor_spec. apply orb_true_r.
Qed.

(** C5 (amended): for a MapDef whose (possibly downgraded) type is a
    device-map variant, the creation request carries the MapDef's flags
    as they are; the read-only-from-program flag is ORed into the
    desired flags that the live flags are compared with, so every map
    the installer accepts, new or reused, reports that flag, and a map
    whose live flags lack it, new or reused, is rejected with
    [-ENOTUNIQ]: its FD is not appended and the map loop returns. *)
Theorem devmap_flag_is_expected_of_the_kernel (P : Platform)
    (mapDef : bpf_map_def) :
  effective_map_type P mapDef = BPF_MAP_TYPE_DEVMAP \/
  effective_map_type P mapDef = BPF_MAP_TYPE_DEVMAP_HASH ->
  let type := effective_map_type P mapDef in
  (forall max_entries mapName,
      mreq_map_flags (map_create_request mapDef type max_entries mapName)
      = md_map_flags mapDef) /\
  desired_map_flags mapDef type
    = to_int (Z.lor (to_int (md_map_flags mapDef)) BPF_F_RDONLY_PROG) /\
  Z.land (desired_map_flags mapDef type) BPF_F_RDONLY_PROG
    = BPF_F_RDONLY_PROG /\
  (forall prefix objName md mapNames (i : nat) mapFds ret mapName
          fd saved_errno reuse (s s1 s3 : State P) mapFds' ret',
      nth_error md i = Some mapDef ->
      nth_error mapNames i = Some mapName ->
      md_zero mapDef = 0 ->
      map_version_excluded P mapDef = false ->
      obtainMapFd P (mapPinLoc prefix objName mapDef mapName) mapDef type
        (adjusted_max_entries P mapDef type) mapName s
        = Ret (fd, saved_errno, reuse) s1 ->
      createMaps_body P prefix objName md mapNames (Z.of_nat i) mapFds ret s
        = Ret (Next, mapFds', ret') s3 ->
      mapFds' = mapFds ++ [fd] /\
      live_flags_rdonly_prog P fd (st_kern s1)) /\
  (forall prefix objName md mapNames (i : nat) rest mapFds ret mapName
          fd saved_errno reuse (s s1 : State P),
      nth_error md i = Some mapDef ->
      nth_error mapNames i = Some mapName ->
      md_zero mapDef = 0 ->
      map_version_excluded P mapDef = false ->
      obtainMapFd P (mapPinLoc prefix objName mapDef mapName) mapDef type
        (adjusted_max_entries P mapDef type) mapName s
        = Ret (fd, saved_errno, reuse) s1 ->
      fd_ok fd = true ->
      ~ live_flags_rdonly_prog P fd (st_kern s1) ->
      exists (s2 : State P) (evs : list Event),
        createMaps_body P prefix objName md mapNames (Z.of_nat i) mapFds ret s
          = Ret (Return (- ENOTUNIQ), mapFds, ret) s2 /\
        createMaps_loop P prefix objName md mapNames (Z.of_nat i :: rest)
          mapFds ret s = Ret (- ENOTUNIQ, mapFds) s2 /\
        st_events s2 = st_events s1 ++ attributeQueries fd ++ evs).
Proof.
  intros Ht type.
  split; [reflexivity|]. split.
  { unfold desired_map_flags. fold type.
    replace ((type =? BPF_MAP_TYPE_DEVMAP)
             || (type =? BPF_MAP_TYPE_DEVMAP_HASH))
      with true by (unfold type; destruct Ht as [-> | ->]; reflexivity).
    reflexivity. }
  split; [apply desired_map_flags_devmap; exact Ht|].
  assert (Hflag : forall fd (k : kstate P),
             live_match P mapDef type fd k = true ->
             live_flags_rdonly_prog P fd k).
  { intros fd k Hm. apply live_match_true in Hm.
    unfold live_equal_desired in Hm. unfold live_flags_rdonly_prog.
    destruct (fst (liveAttributes P fd k)) as [[[[t ks] vs] me] fl].
    destruct Hm as (_ & _ & _ & _ & ->).
    apply desired_map_flags_devmap. exact Ht. }
  split.
  - intros prefix objName md mapNames i mapFds ret mapName fd saved_errno
           reuse s s1 s3 mapFds' ret' Hmd Hname Hzero Hver Hfd H.
    rewrite (createMaps_body_included P prefix objName md mapNames i mapFds
               ret s mapDef mapName Hmd Hname Hzero Hver) in H.
    unfold bind at 1 in H. fold type in H. rewrite Hfd in H.
    apply installMapFd_cases in H.
    destruct H as [(_ & -> & _ & _ & Hm) | (e & He & _)]; [|discriminate].
    split; [reflexivity|]. apply Hflag. exact Hm.
  - intros prefix objName md mapNames i rest mapFds ret mapName fd
           saved_errno reuse s s1 Hmd Hname Hzero Hver Hfd Hok Hlack.
    destruct (mapMatchesExpectations_run P fd mapName mapDef type s1)
      as (evs & Hrun & _).
    assert (Hm : live_match P mapDef type fd (st_kern s1) = false).
    { destruct (live_match P mapDef type fd (st_kern s1)) eqn:Hm;
        [|reflexivity].
      exfalso. apply Hlack. apply Hflag. exact Hm. }
    assert (Hbody :
      createMaps_body P prefix objName md mapNames (Z.of_nat i) mapFds ret s
      = Ret (Return (- ENOTUNIQ), mapFds, ret)
            (mkState (st_pos s1) (st_fail s1)
                     (snd (liveAttributes P fd (st_kern s1)))
                     (st_events s1 ++ attributeQueries fd ++ evs))).
    { rewrite (createMaps_body_included P prefix objName md mapNames i mapFds
                 ret s mapDef mapName Hmd Hname Hzero Hver).
      unfold bind at 1. fold type. rewrite Hfd.
      unfold installMapFd. rewrite Hok. cbn [negb].
      unfold bind at 1. rewrite Hrun, Hm. reflexivity. }
    eexists. exists evs. split; [exact Hbody|].
    split; [|reflexivity].
    cbn [createMaps_loop]. unfold bind at 1. rewrite Hbody. reflexivity.
Qed.

(** An iteration of the scan on a recognized and allowed code section
    with instructions for which the lookup by name found function
    symbols: the section is kept, with the ProgDef the pairing gives. *)
Lemma readCodeSections_body_keeps (P : Platform) elfFile allowed shTable
    entries pd progDefNames (i : nat) cs sh name data sym0 syms prog_def
    rel_data (s s1 s2 s3 s4 s5 : State P) :
  nth_error shTable i = Some sh ->
  getSymName P elfFile (to_int (sh_name sh)) s = Ret (Ok name) s1 ->
  getSectionType P name <> BPF_PROG_TYPE_UNSPEC ->
  IsAllowed P (getSectionType P name) allowed = true ->
  readSectionByIdx P elfFile (Z.of_nat i) s1 = Ret (Ok data) s2 ->
  data <> [] ->
  getSectionSymNames P elfFile name (Some STT_FUNC) s2
    = Ret (0, sym0 :: syms) s3 ->
  findProgDef P pd 0 progDefNames (sym0 +++ "_def") s3 = Ret prog_def s4 ->
  readRelSection P elfFile shTable entries (Z.of_nat i) data name s4
    = Ret (Ok rel_data) s5 ->
  readCodeSections_body P elfFile allowed shTable entries pd progDefNames
    (Z.of_nat i) cs s
  = Ret (Next,
         cs ++ [mkCodeSection (getSectionType P name)
                              (getExpectedAttachType name)
                              (Str.replace "/" "_" name) data rel_data
                              prog_def (-1)]) s5.
Proof.
  intros Hsh Hname Htype Hallowed Hdata Hne Hsyms Hpair Hrel.
  unfold readCodeSections_body.
  unfold bind at 1. rewrite (at_index_some "shTable" shTable i sh s Hsh).
  unfold bind at 1. rewrite Hname.
  apply Z.eqb_neq in Htype. rewrite Htype, Hallowed. cbn [negb].
  unfold bind at 1. rewrite Hdata.
  unfold bind at 1. rewrite Hsyms. cbn [Z.eqb negb].
  unfold bind at 1. rewrite Hpair.
  unfold bind at 1. rewrite Hrel.
  destruct data as [|b data]; [contradiction|]. reflexivity.
Qed.

(** The scan only adds to the list of code sections. *)
Lemma readCodeSections_body_extends (P : Platform) elfFile allowed shTable
    entries pd progDefNames i cs (s s' : State P) flow cs' :
  readCodeSections_body P elfFile allowed shTable entries pd progDefNames
    i cs s = Ret (flow, cs') s' ->
  exists more, cs' = cs ++ more.
Proof.
  intros H. unfold readCodeSections_body in H.
  repeat step_M H;
    unfold bind, ALOG, emit, pure in H; inversion H; subst;
    first [ exists []; symmetry; apply app_nil_r | eexists; reflexivity ].
Qed.

Lemma readCodeSections_loop_extends (P : Platform) elfFile allowed shTable
    entries pd progDefNames idxs :
  forall cs (s s' : State P) r cs',
    readCodeSections_loop P elfFile allowed shTable entries pd progDefNames
      idxs cs s = Ret (r, cs') s' ->
    exists more, cs' = cs ++ more.
Proof.
  induction idxs as [|i idxs IH]; intros cs s s' r cs' H;
    cbn [readCodeSections_loop] in H.
  - unfold pure in H. inversion H; subst. exists [].
    symmetry. apply app_nil_r.
  - unfold bind at 1 in H.
    destruct (readCodeSections_body P elfFile allowed shTable entries pd
                progDefNames i cs s) as [[flow cs1] s1| |] eqn:Hbody;
      try discriminate.
    apply readCodeSections_body_extends in Hbody.
    destruct Hbody as (more1 & ->).
    destruct flow.
    + apply IH in H. destruct H as (more2 & ->).
      exists (more1 ++ more2). symmetry. apply app_assoc.
    + unfold pure in H. inversion H; subst. exists more1. reflexivity.
Qed.

(** Relocation leaves the ProgDefs of the code sections as they are. *)
Lemma applyMapRelo_sections_prog_defs (P : Platform) elfFile mapNames mapFds
    cs :
  forall (s s' : State P) cs',
    applyMapRelo_sections P elfFile mapNames mapFds cs s = Ret cs' s' ->
    map cs_prog_def cs' = map cs_prog_def cs.
Proof.
  induction cs as [|c cs IH]; intros s s' cs' H;
    cbn [applyMapRelo_sections] in H.
  - unfold pure in H. inversion H; subst. reflexivity.
  - cbv zeta in H. unfold bind at 1 in H.
    destruct (applyMapRelo_entries P elfFile mapNames mapFds _ (cs_data c) s)
      as [[go_on data] s1| |]; try discriminate.
    destruct go_on.
    + unfold bind at 1 in H.
      destruct (applyMapRelo_sections P elfFile mapNames mapFds cs s1)
        as [rest' s2| |] eqn:Hr; try discriminate.
      unfold pure in H. inversion H; subst.
      cbn [map]. rewrite (IH s1 s' rest' Hr). reflexivity.
    + unfold pure in H. inversion H; subst. reflexivity.
Qed.

Lemma applyMapRelo_keeps_missing_def (P : Platform) elfFile mapFds cs cs'
    (s s' : State P) :
  applyMapRelo P elfFile mapFds cs s = Ret cs' s' ->
  (exists c, In c cs /\ cs_prog_def c = None) ->
  exists c', In c' cs' /\ cs_prog_def c' = None.
Proof.
  intros H (c & Hin & Hnone).
  assert (Hmap : map cs_prog_def cs' = map cs_prog_def cs).
  { unfold applyMapRelo in H. unfold bind at 1 in H.
    destruct (getSectionSymNames P elfFile "maps" None s)
      as [[ret mapNames] s1| |]; try discriminate.
    destruct (negb (ret =? 0)).
    - unfold pure in H. inversion H; subst. reflexivity.
    - eapply applyMapRelo_sections_prog_defs. exact H. }
  assert (Hin' : In None (map cs_prog_def cs')).
  { rewrite Hmap, <- Hnone. apply in_map. exact Hin. }
  apply in_map_iff in Hin'. destruct Hin' as (c' & Hc' & Hin').
  exists c'. split; assumption.
Qed.


(** C7: when [BPF_PROG_LOAD] gives no valid FD for a program that is
    not yet pinned, the installer logs the verifier log line by line;
    it goes on with the next program if and only if the ProgDef is
    marked optional (the loop can then still return 0), and otherwise
    returns the failed FD value, which is negative. *)
Theorem verifier_rejection_fatal_unless_optional (P : Platform)
    elfPath license prefix objName i c rest done (s : State P) pd a k1 r k2 :
  cs_prog_def c = Some pd ->
  prog_version_excluded P pd = false ->
  sys P (sys_access (progPinLoc prefix objName (cs_name c))) (st_kern s)
    = (a, k1) ->
  sr_ret a <> 0 ->
  sys P (sys_BPF_PROG_LOAD (prog_load_request P c license)) k1 = (r, k2) ->
  fd_ok (sr_ret r) = false ->
  let s' :=
    mkState (st_pos s) (st_fail s) k2
      (st_events s
       ++ [ev_sys (sys_access (progPinLoc prefix objName (cs_name c)));
           ev_sys (sys_BPF_PROG_LOAD (prog_load_request P c license))]
       ++ load_failure_events elfPath c pd r) in
  let c' := with_prog_fd c (sr_ret r) in
  sr_ret r < 0 /\
  loadCodeSections_loop P elfPath license prefix objName i (c :: rest) done s
  = (if pd_optional pd
     then loadCodeSections_loop P elfPath license prefix objName (i + 1)
            rest (done ++ [c']) s'
     else Ret (sr_ret r, done ++ c' :: rest) s') /\
  (pd_optional pd = true ->
   loadCodeSections_loop P elfPath license prefix objName i [c] done s
   = Ret (0, done ++ [c']) s').
Proof.
  intros Hpd Hver Hacc Ha Hload Hok s' c'.
  assert (Hbody :
    loadCodeSections_body P elfPath license prefix objName i c s =
    Ret (if pd_optional pd then Next else Return (sr_ret r), c') s').
  { unfold loadCodeSections_body. rewrite Hpd, Hver.
    unfold bind at 1, syscall at 1. rewrite Hacc.
    apply Z.eqb_neq in Ha. rewrite Ha.
    unfold bind at 1, syscall at 1. cbn [st_kern st_pos st_fail st_events].
    rewrite Hload, Hok. cbn [negb].
    unfold bind at 1. rewrite reportLoadFailure_run.
    unfold with_events. cbn [st_kern st_pos st_fail st_events].
    subst s'. rewrite <- !app_assoc. cbn [app].
    destruct (pd_optional pd).
    - reflexivity.
    - unfold bind, installProgFd. rewrite Hok. reflexivity. }
  split; [apply fd_ok_false; exact Hok|].
  split.
  - cbn [loadCodeSections_loop]. unfold bind at 1. rewrite Hbody.
    destruct (pd_optional pd); reflexivity.
  - intros Hopt. cbn [loadCodeSections_loop]. unfold bind at 1.
    rewrite Hbody, Hopt. reflexivity.
Qed.

(* ===================================================================== *)
(** * Properties of the scan for code sections *)
(* ===================================================================== *)

Lemma collectSymNames_no_function (P : Platform) elfFile sec_idx
    (symtab : list Elf64_Sym) :
  forall names (s : State P),
    no_function_symbol sec_idx symtab ->
    collectSymNames P elfFile sec_idx (Some STT_FUNC) symtab names s
    = Ret (0, names) s.
Proof.
  induction symtab as [|sym symtab IH]; intros names s Hno; [reflexivity|].
  inversion Hno as [|x l Hsym Hrest]; subst.
  cbn [collectSymNames].
  destruct (ELF_ST_TYPE (st_info sym) =? STT_FUNC) eqn:Et; cbn [negb].
  - apply Z.eqb_eq in Et. destruct Hsym as [Hsym | Hsym]; [contradiction|].
    apply Z.eqb_neq in Hsym. rewrite Hsym. apply IH. exact Hrest.
  - apply IH. exact Hrest.
Qed.

(** The lookup of the function symbols of a section that has none
    succeeds with an empty list. *)
Lemma getSectionSymNames_no_function (P : Platform) elfFile name symtab
    shTable sec_idx (s sa sb sc : State P) :
  readSymTab P elfFile true s = Ret (Ok symtab) sa ->
  readSectionHeadersAll P elfFile sa = Ret (Ok shTable) sb ->
  findSectionIndex P elfFile name 0 shTable sb = Ret (Ok sec_idx) sc ->
  sec_idx <> -1 ->
  no_function_symbol sec_idx symtab ->
  getSectionSymNames P elfFile name (Some STT_FUNC) s = Ret (0, []) sc.
Proof.
  intros Hsym Hsh Hidx Hne Hno.
  unfold getSectionSymNames.
  unfold bind at 1. rewrite Hsym.
  unfold bind at 1. rewrite Hsh.
  unfold bind at 1. rewrite Hidx.
  apply Z.eqb_neq in Hne. rewrite Hne.
  apply collectSymNames_no_function. exact Hno.
Qed.


Lemma indices_below (n : nat) (k : Z) :
  In k (indices n) -> (k <? Z.of_nat n) = true.
Proof.
  unfold indices. rewrite in_map_iff. intros (j & <- & Hj).
  apply in_seq in Hj. apply Z.ltb_lt. lia.
Qed.

(** C9 (amended): the test [i < entries] holds at every index of the
    scan; and when the last section header names a recognized code
    section that the allow-list permits, with non-empty data and at
    least one function symbol, the lookup of its relocation section
    reads [shTable[entries]], one past the end of the table. *)
Theorem last_code_section_reads_past_section_table (P : Platform)
    elfFile allowed shTable pd progDefNames (i : nat) rest cs
    sh name data sym0 syms prog_def (s s1 s2 s3 s4 : State P) :
  S i = List.length shTable ->
  nth_error shTable i = Some sh ->
  getSymName P elfFile (to_int (sh_name sh)) s = Ret (Ok name) s1 ->
  getSectionType P name <> BPF_PROG_TYPE_UNSPEC ->
  IsAllowed P (getSectionType P name) allowed = true ->
  readSectionByIdx P elfFile (Z.of_nat i) s1 = Ret (Ok data) s2 ->
  data <> [] ->
  getSectionSymNames P elfFile name (Some STT_FUNC) s2
    = Ret (0, sym0 :: syms) s3 ->
  findProgDef P pd 0 progDefNames (sym0 +++ "_def") s3 = Ret prog_def s4 ->
  let entries := Z.of_nat (List.length shTable) in
  (forall k, In k (indices (List.length shTable)) -> (k <? entries) = true) /\
  readCodeSections_loop P elfFile allowed shTable entries pd progDefNames
    (Z.of_nat i :: rest) cs s
  = Undefined (OutOfBounds "shTable" entries (List.length shTable)).
Proof.
  intros Hlast Hsh Hname Htype Hallowed Hdata Hne Hsyms Hdef entries.
  split; [intros k Hk; apply indices_below; exact Hk|].
  cbn [readCodeSections_loop]. unfold bind at 1.
  unfold readCodeSections_body.
  unfold bind at 1. rewrite (at_index_some "shTable" shTable i sh s Hsh).
  unfold bind at 1. rewrite Hname.
  apply Z.eqb_neq in Htype. rewrite Htype, Hallowed. cbn [negb].
  unfold bind at 1. rewrite Hdata.
  unfold bind at 1. rewrite Hsyms. cbn [Z.eqb negb].
  unfold bind at 1. rewrite Hdef.
  unfold bind at 1, readRelSection.
  assert (Hpos : (0 <? Z.of_nat (List.length data)) = true).
  { apply Z.ltb_lt. destruct data; [contradiction | cbn [List.length]; lia]. }
  assert (Hlt : (Z.of_nat i <? entries) = true)
    by (apply Z.ltb_lt; unfold entries; lia).
  rewrite Hpos, Hlt. cbn [andb].
  unfold bind at 1, at_index.
  destruct (Z.of_nat i + 1 <? 0) eqn:E; [apply Z.ltb_lt in E; lia|].
  replace (Z.to_nat (Z.of_nat i + 1)) with (List.length shTable) by lia.
  replace (nth_error shTable (List.length shTable)) with (@None Elf64_Shdr)
    by (symmetry; apply nth_error_None; lia).
  unfold undefined, entries. do 2 f_equal. lia.
Qed.

(* ===================================================================== *)
(** * The claims on the example objects *)
(* ===================================================================== *)

Section Witnesses.

Import Fixture Objects.

(** The relocation of [obj_sched] patches the first instruction with
    FD 3 and touches nothing else. *)
Lemma applyMapRelo_entry_on_obj_sched :
  (exists (j : nat) (fd : Z) (data' : list Z) (s1 : State platform),
      first_index_of ["my_map"] "my_map" j /\
      nth_error [3] j = Some fd /\
      applyMapRelo_entry platform obj_sched ["my_map"] [3] rel_my_map
        insns_ld_map s0 = Ret (Ok data') s1 /\
      relocated insns_ld_map data' 0 fd) /\
  submitted_insns
    (st_events (state_or (loadProg platform "/etc/bpf/sched.o"
                            (Some obj_sched) (mkLocation "test_" None) s0)
                         s0))
  = [[24; 17; 0; 0; 3; 0; 0; 0;  0; 0; 0; 0; 0; 0; 0; 0;
      149; 0; 0; 0; 0; 0; 0; 0]].
Proof.
  split; [|vm_compute; reflexivity].
  let v := eval vm_compute in
             (match getSymNameByIdx platform obj_sched 1 s0 with
              | Ret _ s => s
              | _ => s0
              end) in
  pose (s1 := v).
  pose proof (applyMapRelo_entry_patches_only_imm_and_src_reg
                platform obj_sched ["my_map"] [3] rel_my_map insns_ld_map
                "my_map" s0 s1) as H.
  assert (H1 : getSymNameByIdx platform obj_sched
                 (to_int (ELF64_R_SYM (r_info rel_my_map))) s0
               = Ret (Ok "my_map") s1) by (vm_compute; reflexivity).
  assert (H2 : In "my_map" ["my_map"]) by (simpl; auto).
  assert (H3 : List.length [3] = List.length ["my_map"]) by reflexivity.
  assert (H4 : Forall (fun fd => - 2 ^ 31 <= fd < 2 ^ 31) [3])
    by (repeat constructor; vm_compute; discriminate).
  assert (H5 : 0 <= to_int (r_offset rel_my_map / 8))
    by (vm_compute; discriminate).
  assert (H6 : 8 * to_int (r_offset rel_my_map / 8) + 8
               <= Z.of_nat (List.length insns_ld_map))
    by (vm_compute; discriminate).
  specialize (H H1 H2 H3 H4 H5 H6). cbv zeta in H.
  destruct H as (j & fd & Hfirst & Hfd & H).
  change (insn_code insns_ld_map (to_int (r_offset rel_my_map / 8))
          =? Z.lor (Z.lor BPF_LD BPF_IMM) BPF_DW) with true in H.
  destruct H as (data' & Hrun & Hrel).
  exists j, fd, data', s1.
  split; [exact Hfirst|]. split; [exact Hfd|]. split; [exact Hrun | exact Hrel].
Defined.

(** On the 5.10 platform a map for 6.1 gets the placeholder at its
    index and a program for 6.1 is skipped, with no call made. *)
Lemma version_gate_on_defs_for_newer_kernels :
  (exists s',
      createMaps_body platform "test_" "obj" [hash_map_def; future_map_def]
        ["a"; "b"] 1 [3] 0 s0 = Ret (Next, [3; -1], 0) s' /\
      st_kern s' = boot /\ syscalls_of (st_events s') = []) /\
  (exists mapFds' s',
      createMaps_loop platform "test_" "obj" [hash_map_def; future_map_def]
        ["a"; "b"] [0; 1] [] 0 s0 = Ret (0, mapFds') s' /\
      List.length mapFds' = 2%nat /\ nth_error mapFds' 1 = Some (-1)) /\
  (exists s',
      loadCodeSections_body platform "/etc/bpf/obj.o" "GPL" "test_" "obj" 0
        (code_of (Some future_prog_def) "kprobe_probe" insns_ret0) s0
      = Ret (Next, code_of (Some future_prog_def) "kprobe_probe" insns_ret0)
            s' /\
      st_kern s' = boot /\ syscalls_of (st_events s') = []) /\
  (let run := loadProg platform "/etc/bpf/future.o" (Some obj_future)
                (mkLocation "test_" None) s0 in
   value_or run (1, false) = (0, false) /\
   st_kern (state_or run s0) = boot /\
   syscalls_of (st_events (state_or run s0)) = []).
Proof.
  destruct (version_gate_skips_maps_and_programs platform)
    as (Hmap & Hloop & Hprog).
  split; [|split; [|split; [|vm_compute; repeat split]]].
  - apply (Hmap "test_" "obj" [hash_map_def; future_map_def] ["a"; "b"]
                1%nat [3] 0 s0 future_map_def "b"); reflexivity.
  - pose (run := createMaps_loop platform "test_" "obj"
                   [hash_map_def; future_map_def] ["a"; "b"] [0; 1] [] 0 s0).
    exists (snd (value_or run (0, []))), (state_or run s0).
    assert (Hrun : run = Ret (0, snd (value_or run (0, []))) (state_or run s0))
      by (vm_compute; reflexivity).
    split; [exact Hrun|].
    destruct (Hloop "test_" "obj" [hash_map_def; future_map_def] ["a"; "b"]
                _ s0 _ Hrun) as (Hlen & Hskip).
    split; [exact Hlen|].
    apply (Hskip 1%nat future_map_def); [simpl; lia | reflexivity | reflexivity].
  - apply (Hprog "/etc/bpf/obj.o" "GPL" "test_" "obj" 0
                 (code_of (Some future_prog_def) "kprobe_probe" insns_ret0)
                 future_prog_def s0); reflexivity.
Defined.

(** With a pin of [foo.o]'s map [m] left from a build where the value
    size was 4, the map loop returns NOT UNIQUE. *)
Lemma createMaps_on_stale_pin :
  (exists s2 : State platform,
      createMaps_loop platform "test_" "foo" [hash_map_def] ["m"] [0] [] 0
        (@initial_state platform stale_pin) = Ret (- ENOTUNIQ, []) s2) /\
  value_or (loadProg platform "/etc/bpf/sched.o" (Some obj_sched)
              (mkLocation "test_" None)
              (@initial_state platform stale_sched_pin)) (0, false)
  = (- ENOTUNIQ, false).
Proof.
  split; [|vm_compute; reflexivity].
  pose (s := @initial_state platform stale_pin).
  pose (s1 := state_or
                (obtainMapFd platform
                   (mapPinLoc "test_" "foo" hash_map_def "m") hash_map_def
                   (effective_map_type platform hash_map_def)
                   (adjusted_max_entries platform hash_map_def
                      (effective_map_type platform hash_map_def)) "m" s) s).
  destruct (createMaps_enforces_map_shape platform "test_" "foo"
              [hash_map_def] ["m"] 0%nat [] [] 0 s s1 hash_map_def "m"
              3 1%positive true)
    as (s2 & evs & _ & _ & Hmismatch & _);
    try reflexivity.
  exists s2. apply Hmismatch. reflexivity.
Defined.

(** C5, as the claim words it, fails: for a device map with flags 0 the
    creation request carries flags 0, without the read-only flag; on a
    kernel that does not add the flag itself, the map is created without
    it and the installer answers NOT UNIQUE. *)
Lemma devmap_create_request_lacks_rdonly_flag :
  effective_map_type platform devmap_def = BPF_MAP_TYPE_DEVMAP /\
  syscalls_of
    (st_events
       (state_or (createMaps_body platform "test_" "obj" [devmap_def]
                    ["tx_port"] 0 [] 0 s0) s0))
  = [sys_access "/sys/fs/bpf/test_map_obj_tx_port";
     sys_BPF_MAP_CREATE (mkMapCreate BPF_MAP_TYPE_DEVMAP 4 4 64 0 "tx_port");
     sys_bpfGetFdMapType 3; sys_bpfGetFdKeySize 3; sys_bpfGetFdValueSize 3;
     sys_bpfGetFdMaxEntries 3; sys_bpfGetFdMapFlags 3;
     sys_bpfFdPin 3 "/sys/fs/bpf/test_map_obj_tx_port";
     sys_chmod "/sys/fs/bpf/test_map_obj_tx_port" 432;
     sys_chown "/sys/fs/bpf/test_map_obj_tx_port" 0 0;
     sys_bpfGetFdMapId 3] /\
  Z.land (mreq_map_flags (mkMapCreate BPF_MAP_TYPE_DEVMAP 4 4 64 0 "tx_port"))
         BPF_F_RDONLY_PROG <> BPF_F_RDONLY_PROG /\
  value_or (createMaps_loop plain_platform "test_" "obj" [devmap_def]
              ["tx_port"] [0] [] 0 (@initial_state plain_platform boot))
           (0, [])
  = (- ENOTUNIQ, []) /\
  k_maps (st_kern
            (state_or (createMaps_loop plain_platform "test_" "obj"
                         [devmap_def] ["tx_port"] [0] [] 0
                         (@initial_state plain_platform boot))
                      (@initial_state plain_platform boot)))
  = [(3, mkMapCreate BPF_MAP_TYPE_DEVMAP 4 4 64 0 "tx_port")].
Proof.
  split; [reflexivity|]. split; [vm_compute; reflexivity|].
  split; [vm_compute; discriminate|].
  split; vm_compute; reflexivity.
Qed.

(** A device map on the 5.10 platform: the FD the installer accepts
    reports the read-only flag; on the kernel that leaves the flags
    alone the new map is rejected. *)
Lemma devmap_accepted_with_rdonly_flag :
  (exists s1 : State platform,
      obtainMapFd platform (mapPinLoc "test_" "obj" devmap_def "tx_port")
        devmap_def BPF_MAP_TYPE_DEVMAP 64 "tx_port" s0
      = Ret (3, 1%positive, false) s1 /\
      value_or (createMaps_body platform "test_" "obj" [devmap_def]
                  ["tx_port"] 0 [] 0 s0) (Next, [], 1)
      = (Next, [3], 0) /\
      live_flags_rdonly_prog platform 3 (st_kern s1)) /\
  (exists s2 : State plain_platform,
      createMaps_loop plain_platform "test_" "obj" [devmap_def] ["tx_port"]
        [0] [] 0 (@initial_state plain_platform boot)
      = Ret (- ENOTUNIQ, []) s2).
Proof.
  pose (pin := mapPinLoc "test_" "obj" devmap_def "tx_port").
  split.
  - pose (s1 := state_or (obtainMapFd platform pin devmap_def
                            BPF_MAP_TYPE_DEVMAP 64 "tx_port" s0) s0).
    pose (run := createMaps_body platform "test_" "obj" [devmap_def]
                   ["tx_port"] 0 [] 0 s0).
    exists s1. split; [vm_compute; reflexivity|].
    split; [vm_compute; reflexivity|].
    destruct (devmap_flag_is_expected_of_the_kernel platform devmap_def)
      as (_ & _ & _ & Hacc & _); [left; reflexivity|].
    apply (Hacc "test_" "obj" [devmap_def] ["tx_port"] 0%nat [] 0 "tx_port"
                3 1%positive false s0 s1 (state_or run s0) [3] 0);
      vm_compute; reflexivity.
  - pose (b := @initial_state plain_platform boot).
    pose (s1 := state_or (obtainMapFd plain_platform pin devmap_def
                            BPF_MAP_TYPE_DEVMAP 64 "tx_port" b) b).
    destruct (devmap_flag_is_expected_of_the_kernel plain_platform devmap_def)
      as (_ & _ & _ & _ & Hrej); [left; reflexivity|].
    destruct (Hrej "test_" "obj" [devmap_def] ["tx_port"] 0%nat [] [] 0
                   "tx_port" 3 1%positive false b s1)
      as (s2 & evs & _ & Hloop & _);
      [ vm_compute; reflexivity .. | | ].
    + unfold live_flags_rdonly_prog. vm_compute. discriminate.
    + exists s2. exact Hloop.
Defined.



(** An optional program that the verifier rejects: the loop goes on and
    returns 0. *)
Lemma optional_program_rejected_by_verifier :
  (exists s' : State platform,
      loadCodeSections_loop platform "/etc/bpf/probe.o" "GPL" "" "probe" 0
        [code_of (Some optional_prog_def) "kprobe_probe" insns_bad] [] s0
      = Ret (0, [with_prog_fd
                   (code_of (Some optional_prog_def) "kprobe_probe" insns_bad)
                   (-1)]) s') /\
  value_or (loadProg platform "/etc/bpf/probe.o" (Some obj_optional_bad)
              (mkLocation "" None) s0) (1, false)
  = (0, false).
Proof.
  split; [|vm_compute; reflexivity].
  pose (c := code_of (Some optional_prog_def) "kprobe_probe" insns_bad).
  pose (r := fst (kernel_sys true
                    (sys_BPF_PROG_LOAD (prog_load_request platform c "GPL"))
                    boot)).
  destruct (verifier_rejection_fatal_unless_optional platform
              "/etc/bpf/probe.o" "GPL" "" "probe" 0 c [] [] s0
              optional_prog_def (err_ret 2) boot r boot)
    as (_ & _ & Hopt); try reflexivity; [discriminate|].
  eexists. apply Hopt. reflexivity.
Defined.

(** C9, as the claim words it, fails: the last section header of
    [obj_tail_code] names the recognized code section [kprobe/probe]
    with 16 bytes of data, and under an allow-list without kprobes
    [readCodeSections] returns -1 without reading past the table; the
    last section of [obj_tail_no_func] is the same code section without
    a function symbol, and [readCodeSections] returns 0 before the
    lookup of a relocation section. *)
Lemma disallowed_last_code_section_is_not_read_past :
  List.length (headers_of obj_tail_code) = 6%nat /\
  value_or (getSymName platform obj_tail_code
              (to_int (sh_name (nth 5 (headers_of obj_tail_code)
                                    (mkShdr 0 0 0 0)))) s0) (Err 0)
  = Ok "kprobe/probe" /\
  getSectionType platform "kprobe/probe" = BPF_PROG_TYPE_KPROBE /\
  value_or (readSectionByIdx platform obj_tail_code 5 s0) (Err 0)
  = Ok insns_ret0 /\
  (exists s',
      readCodeSections platform obj_tail_code
        (Some [BPF_PROG_TYPE_TRACEPOINT]) s0 = Ret (-1, []) s') /\
  List.length (headers_of obj_tail_no_func) = 6%nat /\
  value_or (getSymName platform obj_tail_no_func
              (to_int (sh_name (nth 5 (headers_of obj_tail_no_func)
                                    (mkShdr 0 0 0 0)))) s0) (Err 0)
  = Ok "kprobe/probe" /\
  value_or (readSectionByIdx platform obj_tail_no_func 5 s0) (Err 0)
  = Ok insns_ret0 /\
  (exists s',
      readCodeSections platform obj_tail_no_func None s0 = Ret (0, []) s').
Proof.
  repeat split; try (vm_compute; reflexivity).
  - exists (state_or (readCodeSections platform obj_tail_code
                        (Some [BPF_PROG_TYPE_TRACEPOINT]) s0) s0).
    vm_compute. reflexivity.
  - exists (state_or (readCodeSections platform obj_tail_no_func None s0) s0).
    vm_compute. reflexivity.
Qed.

(** With no allow-list, the scan of [obj_tail_code] reads
    [shTable[6]] of a table of 6 headers. *)
Lemma readCodeSections_on_obj_tail_code :
  readCodeSections platform obj_tail_code None s0
  = Undefined (OutOfBounds "shTable" 6 6).
Proof.
  pose (shTable := headers_of obj_tail_code).
  pose (sh := nth 5 shTable (mkShdr 0 0 0 0)).
  pose (pd := [prog_def_4_14]).
  pose (s1 := state_or (getSymName platform obj_tail_code
                          (to_int (sh_name sh)) s0) s0).
  pose (s2 := state_or (readSectionByIdx platform obj_tail_code 5 s1) s1).
  pose (s3 := state_or (getSectionSymNames platform obj_tail_code
                          "kprobe/probe" (Some STT_FUNC) s2) s2).
  destruct (last_code_section_reads_past_section_table platform
              obj_tail_code None shTable pd ["probe_def"] 5%nat [] []
              sh "kprobe/probe" insns_ret0 "probe" [] (Some prog_def_4_14)
              s0 s1 s2 s3 s3) as (_ & Hrun);
    [ solve [vm_compute; reflexivity | discriminate] .. | ].
  transitivity
    (readCodeSections_loop platform obj_tail_code None shTable
       (Z.of_nat (List.length shTable)) pd ["probe_def"] [Z.of_nat 5] [] s0).
  - vm_compute. reflexivity.
  - rewrite Hrun. vm_compute. reflexivity.
Defined.



End Witnesses.

(* ===================================================================== *)
(** * Further properties: names and classification *)
(* ===================================================================== *)

Lemma lacks_prefix_len (c : ascii) (n : nat) (s : string) :
  Str.lacks c s = true -> Str.lacks c (Str.prefix_len n s) = true.
Proof.
  revert s. induction n as [|n IH]; intros [|a s] H; try reflexivity.
  cbn in *. apply andb_true_iff in H as [Ha Hs].
  rewrite Ha, (IH s Hs). reflexivity.
Qed.

Lemma lacks_substr0 (c : ascii) (s : string) (pos : option nat) :
  Str.lacks c s = true -> Str.lacks c (Str.substr0 s pos) = true.
Proof. destruct pos; [apply lacks_prefix_len | trivial]. Qed.

Lemma Split_app_last (d : ascii) (dir f : string) :
  Str.lacks d f = true ->
  exists l, Str.Split (dir +++ String d f) d = l ++ [f] /\ l <> [].
Proof.
  intros Hf. induction dir as [|a dir IH]; cbn [String.append Str.Split].
  - rewrite Ascii.eqb_refl, (Split_lacks d f Hf).
    exists [EmptyString]. split; [reflexivity | discriminate].
  - destruct IH as (l & Hl & Hne). rewrite Hl.
    destruct (Ascii.eqb a d).
    + exists (EmptyString :: l). split; [reflexivity | discriminate].
    + destruct l as [|p l]; [contradiction|].
      exists (String a p :: l). split; [reflexivity | discriminate].
Qed.

Lemma find_last_of_app (c : ascii) (base tag : string) :
  Str.lacks c tag = true ->
  Str.find_last_of (base +++ String c tag) c = Some (String.length base).
Proof.
  intros Ht. induction base as [|a base IH]; cbn [String.append].
  - cbn [Str.find_last_of String.length].
    replace (Str.find_last_of tag c) with (@None nat)
      by (symmetry; apply find_last_of_None; exact Ht).
    rewrite Ascii.eqb_refl. reflexivity.
  - cbn [Str.find_last_of String.length]. rewrite IH. reflexivity.
Qed.

Lemma prefix_len_app (a b : string) :
  Str.prefix_len (String.length a) (a +++ b) = a.
Proof.
  induction a as [|x a IH]; cbn; [destruct b; reflexivity|].
  rewrite IH. reflexivity.
Qed.

(** X1: the object name never holds a slash, and it does not depend on
    the directory the object file lies in. *)
Theorem pathToObjName_ignores_directory :
  (forall path : string, Str.lacks "/" (pathToObjName path) = true) /\
  (forall dir file : string,
      Str.lacks "/" file = true ->
      pathToObjName (dir +++ String "/" file) = pathToObjName file).
Proof.
  split.
  - intros path. unfold pathToObjName.
    do 2 apply lacks_substr0.
    apply (back_Split_final path).
  - intros dir file Hf. unfold pathToObjName.
    destruct (Split_app_last "/" dir file Hf) as (l & Hl & _).
    rewrite Hl, (Split_lacks "/" file Hf).
    unfold Str.back. rewrite last_last. reflexivity.
Qed.

(** X2: a program name and the same name followed by a dollar sign and
    a suffix are pinned at the same location; a name without a dollar
    sign is pinned under itself. *)
Theorem progPinLoc_strips_dollar_suffix
    (prefix objName base tag : string) :
  Str.lacks "$" tag = true ->
  progPinLoc prefix objName (base +++ String "$" tag)
  = BPF_FS_PATH +++ prefix +++ "prog_" +++ objName +++ "_" +++ base /\
  (Str.lacks "$" base = true ->
   progPinLoc prefix objName (base +++ String "$" tag)
   = progPinLoc prefix objName base).
Proof.
  intros Ht. unfold progPinLoc.
  rewrite (find_last_of_app "$" base tag Ht).
  cbn [Str.substr0]. rewrite prefix_len_app.
  split; [reflexivity|].
  intros Hb. apply (find_last_of_None "$") in Hb. rewrite Hb. reflexivity.
Qed.

(** X3: no section name has an expected attach type other than the
    unspecified one. *)
Theorem getExpectedAttachType_is_unspecified (name : string) :
  getExpectedAttachType name = BPF_ATTACH_TYPE_UNSPEC.
Proof.
  unfold getExpectedAttachType.
  destruct (sectionTypeOf name) as [snt|] eqn:E; [|reflexivity].
  apply find_some in E. destruct E as [Hin _].
  unfold sectionNameTypes in Hin. cbn [In] in Hin.
  repeat (destruct Hin as [<- | Hin]; [reflexivity|]).
  contradiction.
Qed.

(** X4: a null allow-list permits every program type; otherwise a type
    is permitted when it is a listed type other than the unspecified
    one, or when the list holds the unspecified type and the type is the
    one the fuse file reports. *)
Theorem IsAllowed_spec (P : Platform) (type : Z) :
  IsAllowed P type None = true /\
  forall l : list Z,
    IsAllowed P type (Some l) = true <->
    (In type l /\ type <> BPF_PROG_TYPE_UNSPEC) \/
    (In BPF_PROG_TYPE_UNSPEC l /\ type = getFuseProgType P).
Proof.
  split; [reflexivity|]. intros l. unfold IsAllowed.
  rewrite existsb_exists. split.
  - intros (a & Hin & H).
    destruct (a =? BPF_PROG_TYPE_UNSPEC) eqn:Ea.
    + apply Z.eqb_eq in Ea, H. subst a. right. auto.
    + apply Z.eqb_neq in Ea. apply Z.eqb_eq in H. subst a. left. auto.
  - intros [[Hin Hne] | [Hin Heq]].
    + exists type. split; [exact Hin|].
      apply Z.eqb_neq in Hne. rewrite Hne. apply Z.eqb_refl.
    + exists BPF_PROG_TYPE_UNSPEC. split; [exact Hin|].
      rewrite Z.eqb_refl. apply Z.eqb_eq. exact Heq.
Qed.

(* ===================================================================== *)
(** * Further properties: the relocator *)
(* ===================================================================== *)

Lemma findMapIndex_absent (names : list string) (name : string) (start : Z) :
  ~ In name names -> findMapIndex names name start = None.
Proof.
  revert start. induction names as [|n names IH]; intros start Hnot;
    [reflexivity|].
  cbn [findMapIndex]. destruct (String.eqb n name) eqn:E.
  - apply String.eqb_eq in E. subst. exfalso. apply Hnot. left. reflexivity.
  - apply IH. intros H. apply Hnot. right. exact H.
Qed.

(** X5: a relocation entry whose symbol is not a map name leaves the
    instruction buffer as it is, makes no call and logs nothing. *)
Theorem applyMapRelo_entry_ignores_other_symbols (P : Platform)
    (elfFile : list Z) (mapNames : list string) (mapFds : list Z)
    (rel : Elf64_Rel) (data : list Z) (symName : string) (s s1 : State P) :
  getSymNameByIdx P elfFile (to_int (ELF64_R_SYM (r_info rel))) s
    = Ret (Ok symName) s1 ->
  ~ In symName mapNames ->
  applyMapRelo_entry P elfFile mapNames mapFds rel data s = Ret (Ok data) s1.
Proof.
  intros Hsym Hnot. unfold applyMapRelo_entry, bind.
  rewrite Hsym, (findMapIndex_absent mapNames symName 0 Hnot). reflexivity.
Qed.

Lemma set_fields_fixed_point (insns : list Z) (idx fd : Z) :
  0 <= idx ->
  8 * idx + 8 <= Z.of_nat (List.length insns) ->
  let insns' :=
    set_insn_src_reg (set_insn_imm insns idx fd) idx BPF_PSEUDO_MAP_FD in
  List.length insns' = List.length insns /\
  insn_code insns' idx = insn_code insns idx /\
  set_insn_src_reg (set_insn_imm insns' idx fd) idx BPF_PSEUDO_MAP_FD = insns'.
Proof.
  intros Hidx Hlen.
  destruct (insn_decompose (Z.to_nat (8 * idx)) insns)
    as (pre & b0 & b1 & b2 & b3 & b4 & b5 & b6 & b7 & post & -> & Hpre);
    [lia|].
  cbv zeta.
  unfold set_insn_src_reg, set_insn_imm, insn_code, insn_byte.
  rewrite <- Hpre.
  remember (le_encode 4 (to_u32 fd)) as enc eqn:Henc.
  assert (Hl : List.length enc = 4%nat) by (subst enc; reflexivity).
  destruct enc as [|e0 [|e1 [|e2 [|e3 [|e4 enc]]]]]; try discriminate Hl.
  rewrite !write_at_app. cbn [write_at app List.length skipn].
  rewrite !nth_app_plus. cbn [nth].
  destruct (regs_byte_fields b1 BPF_PSEUDO_MAP_FD) as [Hdst _];
    [unfold BPF_PSEUDO_MAP_FD; lia|].
  cbv zeta in Hdst. rewrite Hdst.
  repeat split.
  rewrite !length_app. reflexivity.
Qed.

(** X6: a relocation is idempotent on the buffer: applied again to the
    buffer it has produced, with the same offset and FD, it produces
    that buffer again. *)
Theorem applyRelo_twice (P : Platform) (insns insns' : list Z)
    (offset fd : Z) (s s1 : State P) :
  applyRelo P insns offset fd s = Ret insns' s1 ->
  List.length insns' = List.length insns /\
  exists s2, applyRelo P insns' offset fd s1 = Ret insns' s2.
Proof.
  unfold applyRelo. change (Z.of_nat sizeof_bpf_insn) with 8.
  set (idx := to_int (offset / 8)).
  destruct (idx <? 0) eqn:E0; [discriminate|].
  destruct (Z.of_nat (List.length insns) <? 8 * idx + 8) eqn:E8;
    [discriminate|].
  cbn [orb]. apply Z.ltb_ge in E0, E8.
  destruct (insn_code insns idx =? Z.lor (Z.lor BPF_LD BPF_IMM) BPF_DW)
    eqn:Ec; cbn [negb].
  - unfold pure. intros H. inversion H; subst insns' s1. clear H.
    destruct (set_fields_fixed_point insns idx fd E0 E8) as (Hl & Hc & Hf).
    split; [exact Hl|].
    rewrite Hl.
    replace (Z.of_nat (List.length insns) <? 8 * idx + 8) with false
      by (symmetry; apply Z.ltb_ge; exact E8).
    cbn [orb]. rewrite Hc, Ec. cbn [negb].
    rewrite Hf. eexists. reflexivity.
  - unfold bind, ALOG, emit, pure. intros H. inversion H; subst insns' s1.
    split; [reflexivity|].
    replace (Z.of_nat (List.length insns) <? 8 * idx + 8) with false
      by (symmetry; apply Z.ltb_ge; exact E8).
    cbn [orb]. rewrite Ec. cbn [negb]. eexists. reflexivity.
Qed.

(* ===================================================================== *)
(** * Further properties: the ELF reader *)
(* ===================================================================== *)

Lemma chunks_length (n sz : nat) (buf : list Z) :
  List.length (chunks n sz buf) = n.
Proof.
  revert buf. induction n as [|n IH]; intros buf; cbn; [reflexivity|].
  rewrite IH. reflexivity.
Qed.

(** X7: the section header table that [readSectionHeadersAll] returns
    has as many entries as the ELF header announces. *)
Theorem readSectionHeadersAll_entry_count (P : Platform) (elfFile : list Z)
    (eh : Elf64_Ehdr) (shTable : list Elf64_Shdr) (s s0 s' : State P) :
  readElfHeader P elfFile s = Ret (Ok eh) s0 ->
  readSectionHeadersAll P elfFile s = Ret (Ok shTable) s' ->
  List.length shTable = Z.to_nat (e_shnum eh).
Proof.
  intros Heh H. unfold readSectionHeadersAll in H.
  unfold bind at 1 in H. rewrite Heh in H.
  unfold bind at 1 in H.
  destruct (seekg P (e_shoff eh) s0) as [u sa| |]; try discriminate.
  unfold bind at 1, fail at 1 in H.
  destruct (st_fail sa); [discriminate|].
  destruct (Z.of_nat _ <? _); [discriminate|].
  unfold bind in H.
  destruct (read P elfFile _ sa) as [[b|] sb| |]; try discriminate.
  unfold pure in H. inversion H; subst.
  rewrite length_map. apply chunks_length.
Qed.

Lemma le32_of_bytes (b0 b1 b2 b3 : Z) :
  0 <= b0 < 256 -> 0 <= b1 < 256 -> 0 <= b2 < 256 -> 0 <= b3 < 256 ->
  to_u32 (to_u32 (Z.shiftl
     (to_u32 (to_u32 (Z.shiftl
        (to_u32 (to_u32 (Z.shiftl (to_u8 b3) 8) + to_u8 b2)) 8)
        + to_u8 b1)) 8) + to_u8 b0)
  = le_decode [b0; b1; b2; b3].
Proof.
  intros H0 H1 H2 H3. unfold to_u8, to_u32.
  rewrite !Z.shiftl_mul_pow2 by lia.
  rewrite (Z.mod_small b0), (Z.mod_small b1), (Z.mod_small b2),
    (Z.mod_small b3) by lia.
  cbn [le_decode].
  rewrite (Z.mod_small (b3 * 2 ^ 8)) by lia.
  rewrite (Z.mod_small (b3 * 2 ^ 8 + b2)) by lia.
  rewrite (Z.mod_small ((b3 * 2 ^ 8 + b2) * 2 ^ 8)) by lia.
  rewrite (Z.mod_small ((b3 * 2 ^ 8 + b2) * 2 ^ 8 + b1)) by lia.
  rewrite (Z.mod_small (((b3 * 2 ^ 8 + b2) * 2 ^ 8 + b1) * 2 ^ 8)) by lia.
  rewrite Z.mod_small by lia. lia.
Qed.

(** X8: [readSectionUint] gives the default when the section cannot be
    read, the default and an error line when it has fewer than four
    bytes, and otherwise the little-endian value of its first four
    bytes, whatever follows them; what was written with four
    little-endian bytes is read back. *)
Theorem readSectionUint_spec (P : Platform) (name : string)
    (elfFile : list Z) (defVal : Z) (r : status (list Z)) (s s1 : State P) :
  readSectionByName P name elfFile s = Ret r s1 ->
  match r with
  | Err _ => readSectionUint P name elfFile defVal s = Ret defVal s1
  | Ok theBytes =>
      ((List.length theBytes < 4)%nat ->
       exists fmt args,
         readSectionUint P name elfFile defVal s
         = Ret defVal (with_events s1 [ev_log LOG_ERROR fmt args])) /\
      (forall b0 b1 b2 b3 rest,
          theBytes = b0 :: b1 :: b2 :: b3 :: rest ->
          0 <= b0 < 256 -> 0 <= b1 < 256 -> 0 <= b2 < 256 -> 0 <= b3 < 256 ->
          readSectionUint P name elfFile defVal s
          = Ret (le_decode [b0; b1; b2; b3]) s1) /\
      (forall v rest,
          theBytes = le_encode 4 v ++ rest ->
          readSectionUint P name elfFile defVal s = Ret (to_u32 v) s1)
  end.
Proof.
  intros Hread.
  assert (Hrun : forall k : status (list Z) -> M P Z,
             bind P (readSectionByName P name elfFile) k s = k r s1)
    by (intros k; unfold bind; rewrite Hread; reflexivity).
  unfold readSectionUint. rewrite !Hrun.
  destruct r as [e | theBytes]; [reflexivity|].
  split; [|split].
  - intros Hshort.
    destruct (List.length theBytes <? 4)%nat eqn:E;
      [|apply Nat.ltb_ge in E; lia].
    do 2 eexists. reflexivity.
  - intros b0 b1 b2 b3 rest -> H0 H1 H2 H3.
    cbn [List.length Nat.ltb Nat.leb nth].
    rewrite le32_of_bytes by assumption. reflexivity.
  - intros v rest ->.
    pose proof (le_decode_encode 4 v) as Hd.
    cbn [le_encode] in Hd. cbn [le_encode app List.length Nat.ltb Nat.leb nth].
    rewrite le32_of_bytes by (apply Z.mod_pos_bound; lia).
    rewrite Hd. reflexivity.
Qed.

(* ===================================================================== *)
(** * Further properties: pairing, pinning and reuse *)
(* ===================================================================== *)

Lemma findProgDef_at_first (P : Platform) pd (names : list string)
    (target : string) (j : nat) :
  forall (i : Z) (s : State P),
    first_index_of names target j ->
    findProgDef P pd i names target s
    = bind P (at_index P "pd" pd (i + Z.of_nat j))
           (fun d => pure P (Some d)) s.
Proof.
  revert j. induction names as [|n names IH]; intros j i s [Hn Hfirst].
  - destruct j; discriminate Hn.
  - cbn [findProgDef]. destruct j as [|j].
    + cbn in Hn. inversion Hn; subst. rewrite String.eqb_refl.
      rewrite Z.add_0_r. reflexivity.
    + destruct (String.eqb n target) eqn:E.
      * apply String.eqb_eq in E. subst n.
        exfalso. apply (Hfirst O); [lia | reflexivity].
      * rewrite (IH j (i + 1) s).
        -- replace (i + 1 + Z.of_nat j) with (i + Z.of_nat (S j)) by lia.
           reflexivity.
        -- split; [exact Hn|]. intros k Hk. apply (Hfirst (S k)). lia.
Qed.

(** X9: a code section is paired with the ProgDef at the index of the
    first name of [progs] equal to its [<sym>_def]; when the ProgDef
    array is too short for that index, the pairing reads past its end. *)
Theorem findProgDef_pairs_by_first_name (P : Platform) pd
    (progDefNames : list string) (target : string) (j : nat) (s : State P) :
  first_index_of progDefNames target j ->
  (forall d, nth_error pd j = Some d ->
             findProgDef P pd 0 progDefNames target s = Ret (Some d) s) /\
  (nth_error pd j = None ->
   findProgDef P pd 0 progDefNames target s
   = Undefined (OutOfBounds "pd" (Z.of_nat j) (List.length pd))).
Proof.
  intros Hfirst.
  rewrite (findProgDef_at_first P pd progDefNames target j 0 s Hfirst).
  cbn [Z.add]. split.
  - intros d Hd. unfold bind.
    rewrite (at_index_some "pd" pd j d s Hd). reflexivity.
  - intros Hnone. unfold bind, at_index.
    destruct (Z.of_nat j <? 0) eqn:E; [apply Z.ltb_lt in E; lia|].
    rewrite Nat2Z.id, Hnone. reflexivity.
Qed.

Lemma syscalls_of_sys (evs : list Event) (c : Syscall) :
  syscalls_of (evs ++ [ev_sys c]) = syscalls_of evs ++ [c].
Proof. rewrite syscalls_of_app. reflexivity. Qed.

Lemma syscalls_of_log (evs : list Event) prio fmt args :
  syscalls_of (evs ++ [ev_log prio fmt args]) = syscalls_of evs.
Proof. rewrite syscalls_of_app. apply app_nil_r. Qed.

(** Closes a goal on the calls of an explicit trace. *)
Ltac trace_calls :=
  cbn [st_events];
  repeat first [rewrite syscalls_of_log | rewrite syscalls_of_sys];
  rewrite <- ?app_assoc; cbn [app]; reflexivity.

(** Runs pin, chmod and chown in the goal and in the unfolded
    [calls_until_failure] of hypothesis [H] side by side. *)
Ltac pin_steps H :=
  cbn [calls_until_failure] in H;
  repeat first
    [ progress (unfold bind, syscall, ALOG, emit, pure)
    | progress (cbv beta iota zeta)
    | progress (cbn [st_kern st_pos st_fail st_events negb])
    | progress (cbv beta iota zeta in H)
    | match goal with
      | |- context [sys ?P ?c ?k] => destruct (sys P c k) as [? ?]
      | |- context [sr_ret ?r =? 0] => destruct (sr_ret r =? 0)
      end ];
  inversion H; subst; clear H;
  eexists; (split; [reflexivity | split; [trace_calls | reflexivity]]).

(** X10: a new map is pinned, then given its mode, then its owner, each
    call made only when the one before has returned 0, on the kernel
    that call has left; the first call that does not return 0 is the
    last one made, and minus its errno is returned; when the three
    return 0 the map is kept.  The same holds of a new program, with
    mode 0440. *)
Theorem new_pins_are_written_in_order (P : Platform) (fd : Z)
    (pinLoc : string) :
  (forall mapDef (s : State P) flow made k',
      calls_until_failure P
        [sys_bpfFdPin fd pinLoc;
         sys_chmod pinLoc (md_mode mapDef);
         sys_chown pinLoc (md_uid mapDef) (md_gid mapDef)] (st_kern s)
      = (flow, made, k') ->
      exists s',
        pinNewMap P fd pinLoc mapDef s = Ret flow s' /\
        syscalls_of (st_events s') = syscalls_of (st_events s) ++ made /\
        st_kern s' = k') /\
  (forall pd (s : State P) flow made k',
      calls_until_failure P
        [sys_bpfFdPin fd pinLoc;
         sys_chmod pinLoc 288;
         sys_chown pinLoc (pd_uid pd) (pd_gid pd)] (st_kern s)
      = (flow, made, k') ->
      exists s',
        pinNewProg P fd pinLoc pd s = Ret flow s' /\
        syscalls_of (st_events s') = syscalls_of (st_events s) ++ made /\
        st_kern s' = k').
Proof.
  split.
  - intros mapDef s flow made k' H. unfold pinNewMap. pin_steps H.
  - intros pd s flow made k' H. unfold pinNewProg. pin_steps H.
Qed.

Section OnlyCalls.

Variable P : Platform.
Variable ok : Syscall -> bool.

Lemma only_pure {A} (a : A) : only_calls ok (pure P a).
Proof.
  intros s x s' H. inversion H; subst. exists [].
  split; [symmetry; apply app_nil_r | reflexivity].
Qed.

Lemma only_bind {A B} (c : M P A) (k : A -> M P B) :
  only_calls ok c -> (forall a, only_calls ok (k a)) ->
  only_calls ok (bind P c k).
Proof.
  intros Hc Hk s b s' H. unfold bind in H.
  destruct (c s) as [a s1| |] eqn:E; try discriminate.
  destruct (Hc s a s1 E) as (e1 & He1 & Ho1).
  destruct (Hk a s1 b s' H) as (e2 & He2 & Ho2).
  exists (e1 ++ e2). split.
  - rewrite He2, He1. symmetry. apply app_assoc.
  - rewrite syscalls_of_app, forallb_app, Ho1, Ho2. reflexivity.
Qed.

Lemma only_ALOG prio fmt args : only_calls ok (ALOG P prio fmt args).
Proof.
  intros s x s' H. inversion H; subst. eexists.
  split; [reflexivity | reflexivity].
Qed.

Lemma only_syscall (c : Syscall) :
  ok c = true -> only_calls ok (syscall P c).
Proof.
  intros Hok s x s' H. unfold syscall in H.
  destruct (sys P c (st_kern s)) as [r k']. inversion H; subst.
  eexists. split; [reflexivity|]. cbn. rewrite Hok. reflexivity.
Qed.

End OnlyCalls.

Create HintDb only.

#[export] Hint Resolve only_pure only_ALOG : only.

(** Proves [only_calls] by following binds and case splits. *)
Ltac only_steps :=
  repeat first
    [ solve [auto with only]
    | apply only_syscall; reflexivity
    | apply only_bind; [|intros ?]
    | match goal with
      | |- only_calls _ (match ?x with _ => _ end) => destruct x
      | |- only_calls _ (if ?b then _ else _) => destruct b
      end ].

Lemma only_mapMatchesExpectations (P : Platform) fd mapName mapDef type :
  only_calls reuses (mapMatchesExpectations P fd mapName mapDef type).
Proof. unfold mapMatchesExpectations. only_steps. Qed.

Lemma only_logMapId (P : Platform) fd pinLoc :
  only_calls reuses (logMapId P fd pinLoc).
Proof. unfold logMapId. only_steps. Qed.

Lemma only_logProgId (P : Platform) fd pinLoc :
  only_calls reuses (logProgId P fd pinLoc).
Proof. unfold logProgId. only_steps. Qed.

#[export] Hint Resolve only_mapMatchesExpectations only_logMapId
  only_logProgId : only.

Lemma only_installMapFd_reuse (P : Platform) fd saved_errno pinLoc mapName
    mapDef type mapFds ret :
  only_calls reuses
    (installMapFd P fd saved_errno true pinLoc mapName mapDef type mapFds ret).
Proof. unfold installMapFd. only_steps. Qed.

Lemma only_installProgFd_reuse (P : Platform) fd pinLoc pd :
  only_calls reuses (installProgFd P fd true pinLoc pd).
Proof. unfold installProgFd. only_steps. Qed.

Lemma installMapFd_reuse_ret (P : Platform) fd saved_errno pinLoc mapName
    mapDef type mapFds ret (s : State P) :
  exists x s',
    installMapFd P fd saved_errno true pinLoc mapName mapDef type mapFds ret s
    = Ret x s'.
Proof.
  unfold installMapFd.
  destruct (fd_ok fd); cbn [negb]; [|do 2 eexists; reflexivity].
  destruct (mapMatchesExpectations_run P fd mapName mapDef type s)
    as (evs & Hrun & _).
  unfold bind at 1. rewrite Hrun.
  destruct (live_match P mapDef type fd (st_kern s)); cbn [negb];
    [|do 2 eexists; reflexivity].
  match goal with
  | |- context [bind P _ _ ?st] => set (s2 := st)
  end.
  unfold bind at 1, pure at 1. cbv beta iota.
  destruct (logMapId_ret P fd pinLoc s2) as (s' & Hlog).
  unfold bind. rewrite Hlog. do 2 eexists. reflexivity.
Qed.

(** X11: a map whose pin location exists is reused: the iteration
    returns, and on the way it creates no map and writes no pin, mode or
    owner. *)
Theorem createMaps_reuses_existing_pin (P : Platform) prefix objName md
    mapNames (i : nat) mapFds ret (s : State P) mapDef mapName a k1 :
  nth_error md i = Some mapDef ->
  nth_error mapNames i = Some mapName ->
  md_zero mapDef = 0 ->
  map_version_excluded P mapDef = false ->
  sys P (sys_access (mapPinLoc prefix objName mapDef mapName)) (st_kern s)
    = (a, k1) ->
  sr_ret a = 0 ->
  exists flow mapFds' ret' s' evs,
    createMaps_body P prefix objName md mapNames (Z.of_nat i) mapFds ret s
      = Ret (flow, mapFds', ret') s' /\
    st_events s' = st_events s ++ evs /\
    forallb reuses (syscalls_of evs) = true.
Proof.
  intros Hmd Hname Hzero Hver Hacc Ha.
  rewrite (createMaps_body_included P prefix objName md mapNames i mapFds
             ret s mapDef mapName Hmd Hname Hzero Hver).
  unfold bind at 1, obtainMapFd.
  unfold bind at 1, syscall at 1. rewrite Hacc, Ha. cbn [Z.eqb].
  unfold bind at 1, syscall at 1. cbn [st_kern st_pos st_fail st_events].
  destruct (sys P (sys_mapRetrieveRO _) k1) as [r k2].
  unfold pure at 1. cbv beta iota.
  match goal with
  | |- context [installMapFd P ?fd ?e true ?pl ?mn ?d ?t ?fds ?rt ?st] =>
      set (s2 := st);
      destruct (installMapFd_reuse_ret P fd e pl mn d t fds rt s2)
        as ([[flow fds'] ret'] & s' & Hins)
  end.
  rewrite Hins.
  destruct (only_installMapFd_reuse P _ _ _ _ _ _ _ _ _ _ _ Hins)
    as (evs & Hev & Hok).
  exists flow, fds', ret', s'. eexists. split; [reflexivity|].
  split.
  - rewrite Hev. unfold s2. cbn [st_events].
    rewrite <- !app_assoc. reflexivity.
  - cbn [app]. cbn. exact Hok.
Qed.

(** X12: a program whose pin location exists is reused: the iteration
    returns, and on the way it submits no program to the verifier and
    writes no pin, mode or owner. *)
Theorem loadCodeSections_reuses_existing_pin (P : Platform) elfPath license
    prefix objName i c pd (s : State P) a k1 :
  cs_prog_def c = Some pd ->
  prog_version_excluded P pd = false ->
  sys P (sys_access (progPinLoc prefix objName (cs_name c))) (st_kern s)
    = (a, k1) ->
  sr_ret a = 0 ->
  exists flow c' s' evs,
    loadCodeSections_body P elfPath license prefix objName i c s
      = Ret (flow, c') s' /\
    st_events s' = st_events s ++ evs /\
    forallb reuses (syscalls_of evs) = true.
Proof.
  intros Hpd Hver Hacc Ha.
  unfold loadCodeSections_body. rewrite Hpd, Hver.
  unfold bind at 1, syscall at 1. rewrite Hacc, Ha. cbn [Z.eqb].
  unfold bind at 1, syscall at 1. cbn [st_kern st_pos st_fail st_events].
  destruct (sys P (sys_retrieveProgram _) k1) as [r k2].
  unfold bind at 1.
  match goal with
  | |- context [installProgFd P ?fd true ?pl pd ?st] =>
      set (s2 := st);
      destruct (installProgFd_cases P fd true pl pd s2)
        as (flow & s' & Hins & _)
  end.
  rewrite Hins.
  destruct (only_installProgFd_reuse P _ _ _ _ _ _ Hins) as (evs & Hev & Hok).
  do 3 eexists. eexists. split; [reflexivity|]. split.
  - rewrite Hev. unfold s2. cbn [st_events].
    rewrite <- !app_assoc. reflexivity.
  - cbn [app]. cbn. exact Hok.
Qed.

(* ===================================================================== *)
(** * Further properties: the results of the installers *)
(* ===================================================================== *)

Lemma installMapFd_shape (P : Platform) fd errno reuse pinLoc mapName mapDef
    type mapFds ret (s s1 : State P) flow mapFds1 ret1 :
  installMapFd P fd errno reuse pinLoc mapName mapDef type mapFds ret s
    = Ret (flow, mapFds1, ret1) s1 ->
  (flow = Next /\ mapFds1 = mapFds ++ [fd] /\ (ret1 = ret \/ ret1 = 0))
  \/ (exists e, flow = Return e /\ e < 0 /\ mapFds1 = mapFds).
Proof.
  unfold installMapFd.
  destruct (fd_ok fd) eqn:Hok; cbn [negb].
  2:{ unfold pure. intros H. inversion H; subst. right. eexists.
      split; [reflexivity|]. split; [lia | reflexivity]. }
  destruct (mapMatchesExpectations_run P fd mapName mapDef type s)
    as (evs & Hrun & _).
  unfold bind at 1. rewrite Hrun.
  destruct (live_match P mapDef type fd (st_kern s)) eqn:Hm; cbn [negb].
  2:{ unfold pure. intros H. inversion H; subst. right. eexists.
      split; [reflexivity|]. split; [unfold ENOTUNIQ; lia | reflexivity]. }
  match goal with
  | |- context [bind P _ _ ?st] => set (s2 := st)
  end.
  unfold bind at 1.
  destruct reuse.
  - unfold pure at 1. cbv beta iota.
    destruct (logMapId_ret P fd pinLoc s2) as (s' & Hlog).
    unfold bind. rewrite Hlog. unfold pure. intros H. inversion H; subst.
    left. auto.
  - destruct (pinNewMap P fd pinLoc mapDef s2) as [fl st'| |] eqn:Hpin;
      try discriminate.
    apply pinNewMap_cases in Hpin. destruct Hpin as [-> | (e & -> & He)].
    + destruct (logMapId_ret P fd pinLoc st') as (s' & Hlog).
      unfold bind. rewrite Hlog. unfold pure. intros H. inversion H; subst.
      left. auto.
    + unfold pure. intros H. inversion H; subst. right. eexists.
      split; [reflexivity|]. split; [exact He | reflexivity].
Qed.

Lemma createMaps_body_shape (P : Platform) prefix objName md mapNames
    (i : nat) mapFds ret (s s1 : State P) flow mapFds1 ret1 :
  createMaps_body P prefix objName md mapNames (Z.of_nat i) mapFds ret s
    = Ret (flow, mapFds1, ret1) s1 ->
  (flow = Next /\ List.length mapFds1 = S (List.length mapFds) /\
   (ret1 = ret \/ ret1 = 0))
  \/ (exists e, flow = Return e /\ e < 0 /\ mapFds1 = mapFds).
Proof.
  intros H.
  destruct (createMaps_body_cases P prefix objName md mapNames i mapFds ret
              s s1 flow mapFds1 ret1 H)
    as (mapDef & Hmd & [(-> & Hret & fd & -> & _) | (e & -> & He)]).
  - left. split; [reflexivity|]. split; [|exact Hret].
    rewrite length_app. cbn. lia.
  - right. exists e. split; [reflexivity|]. split; [exact He|].
    destruct (nth_error mapNames i) as [mapName|] eqn:Hname.
    2:{ unfold createMaps_body in H. unfold bind at 1 in H.
        rewrite (at_index_some "md" md i mapDef s Hmd) in H.
        unfold bind, at_index in H.
        destruct (Z.of_nat i <? 0); [discriminate|].
        rewrite Nat2Z.id, Hname in H. discriminate. }
    destruct (md_zero mapDef =? 0) eqn:Hzero.
    2:{ unfold createMaps_body in H. unfold bind at 1 in H.
        rewrite (at_index_some "md" md i mapDef s Hmd) in H.
        unfold bind at 1 in H.
        rewrite (at_index_some "mapNames" mapNames i mapName s Hname) in H.
        rewrite Hzero in H. discriminate. }
    apply Z.eqb_eq in Hzero.
    destruct (map_version_excluded P mapDef) eqn:Hver.
    + destruct (createMaps_body_excluded P prefix objName md mapNames i
                  mapFds ret s mapDef mapName Hmd Hname Hzero Hver)
        as (f & a & E).
      rewrite E in H. discriminate.
    + rewrite (createMaps_body_included P prefix objName md mapNames i mapFds
                 ret s mapDef mapName Hmd Hname Hzero Hver) in H.
      unfold bind at 1 in H.
      destruct (obtainMapFd P _ _ _ _ _ s) as [[[fd errno] reuse] s'| |];
        try discriminate.
      apply installMapFd_shape in H.
      destruct H as [(Hn & _) | (e' & _ & _ & Hfds)];
        [discriminate | exact Hfds].
Qed.

Lemma createMaps_loop_result (P : Platform) prefix objName md mapNames
    (n : nat) :
  forall (a : nat) (mapFds mapFds' : list Z) (r : Z) (s s' : State P),
    createMaps_loop P prefix objName md mapNames
      (map Z.of_nat (seq a n)) mapFds 0 s = Ret (r, mapFds') s' ->
    List.length mapFds = a ->
    (r = 0 /\ List.length mapFds' = (a + n)%nat) \/
    (r < 0 /\ (a <= List.length mapFds' < a + n)%nat).
Proof.
  induction n as [|n IH]; intros a mapFds mapFds' r s s' Hrun Hlen.
  - cbn in Hrun. unfold pure in Hrun. inversion Hrun; subst.
    left. split; [reflexivity | lia].
  - cbn [seq map createMaps_loop] in Hrun. unfold bind at 1 in Hrun.
    destruct (createMaps_body P prefix objName md mapNames (Z.of_nat a)
                mapFds 0 s) as [[[flow fds1] ret1] s1| |] eqn:Hbody;
      try discriminate.
    apply createMaps_body_shape in Hbody.
    destruct Hbody as [(-> & Hl & Hret) | (e & -> & He & ->)].
    + assert (ret1 = 0) by (destruct Hret; assumption). subst ret1.
      apply IH in Hrun; [|lia].
      destruct Hrun as [[Hr Hl'] | [Hr Hl']]; [left | right];
        (split; [exact Hr | lia]).
    + unfold pure in Hrun. inversion Hrun; subst.
      right. split; [exact He | lia].
Qed.

(** X13: the map loop returns 0 or a negative value; with 0 the FD
    vector has one entry per map name, and with a negative value it is
    shorter: it stops at the first map that fails. *)
Theorem createMaps_loop_returns_zero_or_negative (P : Platform) prefix
    objName md mapNames mapFds' r (s s' : State P) :
  createMaps_loop P prefix objName md mapNames
    (indices (List.length mapNames)) [] 0 s = Ret (r, mapFds') s' ->
  (r = 0 /\ List.length mapFds' = List.length mapNames) \/
  (r < 0 /\ (List.length mapFds' < List.length mapNames)%nat).
Proof.
  intros Hrun.
  destruct (createMaps_loop_result P prefix objName md mapNames
              (List.length mapNames) 0 [] mapFds' r s s' Hrun eq_refl)
    as [[Hr Hl] | [Hr Hl]]; [left | right]; (split; [exact Hr | lia]).
Qed.

Lemma same_but_prog_fd_refl (c : codeSection) : same_but_prog_fd c c.
Proof. repeat split. Qed.

Lemma same_but_prog_fd_with (c : codeSection) (fd : Z) :
  same_but_prog_fd c (with_prog_fd c fd).
Proof. repeat split. Qed.

Lemma loadCodeSections_body_frame (P : Platform) elfPath license prefix
    objName i c (s s' : State P) flow c' :
  loadCodeSections_body P elfPath license prefix objName i c s
    = Ret (flow, c') s' ->
  same_but_prog_fd c c'.
Proof.
  unfold loadCodeSections_body.
  destruct (cs_prog_def c) as [pd|].
  2:{ unfold bind, ALOG, emit, pure. intros H. inversion H; subst.
      apply same_but_prog_fd_refl. }
  destruct (prog_version_excluded P pd).
  { unfold bind, ALOG, emit, pure. intros H. inversion H; subst.
    apply same_but_prog_fd_refl. }
  unfold bind at 1, syscall at 1.
  destruct (sys P (sys_access _) (st_kern s)) as [a k1].
  destruct (sr_ret a =? 0).
  - unfold bind at 1, syscall at 1. cbn [st_kern st_pos st_fail st_events].
    destruct (sys P (sys_retrieveProgram _) k1) as [r k2].
    unfold bind at 1.
    destruct (installProgFd P _ _ _ _ _) as [fl st| |]; try discriminate.
    unfold pure. intros H. inversion H; subst.
    apply same_but_prog_fd_with.
  - unfold bind at 1, syscall at 1. cbn [st_kern st_pos st_fail st_events].
    destruct (sys P (sys_BPF_PROG_LOAD _) k1) as [r k2].
    destruct (fd_ok (sr_ret r)); cbn [negb].
    + unfold bind at 1.
      destruct (installProgFd P _ _ _ _ _) as [fl st| |]; try discriminate.
      unfold pure. intros H. inversion H; subst.
      apply same_but_prog_fd_with.
    + unfold bind at 1. rewrite reportLoadFailure_run.
      destruct (pd_optional pd).
      * unfold pure. intros H. inversion H; subst.
        apply same_but_prog_fd_with.
      * unfold bind at 1.
        destruct (installProgFd P _ _ _ _ _) as [fl st| |]; try discriminate.
        unfold pure. intros H. inversion H; subst.
        apply same_but_prog_fd_with.
Qed.

Lemma Forall2_same_refl (cs : list codeSection) :
  Forall2 same_but_prog_fd cs cs.
Proof.
  induction cs; constructor; [apply same_but_prog_fd_refl | assumption].
Qed.

Lemma loadCodeSections_loop_frame (P : Platform) elfPath license prefix
    objName (cs : list codeSection) :
  forall i done (s : State P),
    exists r cs' s',
      loadCodeSections_loop P elfPath license prefix objName i cs done s
        = Ret (r, done ++ cs') s' /\
      r <= 0 /\ Forall2 same_but_prog_fd cs cs'.
Proof.
  induction cs as [|c cs IH]; intros i done s.
  - exists 0, [], s. cbn. rewrite app_nil_r.
    split; [reflexivity|]. split; [lia | constructor].
  - cbn [loadCodeSections_loop]. unfold bind at 1.
    destruct (loadCodeSections_body_cases P elfPath license prefix objName
                i c s) as (flow & c' & s1 & Hbody & Hflow & _).
    rewrite Hbody.
    pose proof (loadCodeSections_body_frame P elfPath license prefix objName
                  i c s s1 flow c' Hbody) as Hsame.
    destruct Hflow as [-> | (e & -> & He)].
    + destruct (IH (i + 1) (done ++ [c']) s1)
        as (r & cs' & s' & Hrun & Hr & Hall).
      exists r, (c' :: cs'), s'. rewrite Hrun, <- app_assoc.
      split; [reflexivity|]. split; [exact Hr|].
      constructor; assumption.
    + exists e, (c' :: cs), s1.
      split; [reflexivity|]. split; [lia|].
      constructor; [exact Hsame | apply Forall2_same_refl].
Qed.

(** X14: [loadCodeSections] always returns, with 0 or a negative value,
    and the code sections it hands back are the ones it was given, in
    the same order, changed in their program FD at most: names,
    instructions, relocation entries and ProgDefs are untouched. *)
Theorem loadCodeSections_changes_prog_fds_only (P : Platform) elfPath
    (cs : list codeSection) license prefix (s : State P) :
  exists r cs' s',
    loadCodeSections P elfPath cs license prefix s = Ret (r, cs') s' /\
    r <= 0 /\ Forall2 same_but_prog_fd cs cs'.
Proof.
  unfold loadCodeSections.
  destruct (kernelVersion P =? 0).
  - do 3 eexists. split; [reflexivity|].
    split; [unfold EINVAL; lia | apply Forall2_same_refl].
  - destruct (loadCodeSections_loop_frame P elfPath license prefix
                (pathToObjName elfPath) cs 0 [] s)
      as (r & cs' & s' & Hrun & Hr & Hall).
    exists r, cs', s'. split; [exact Hrun | auto].
Qed.

(* ===================================================================== *)
(** * Further properties: the scan of the code sections *)
(* ===================================================================== *)

Section Callfree.

Variable P : Platform.

Lemma callfree_of_quiet {A} (c : M P A) : quiet c -> callfree c.
Proof.
  intros Hq s a s' H. destruct (Hq s a s' H) as [Hk He].
  split; [exact Hk | congruence].
Qed.

Lemma callfree_pure {A} (a : A) : callfree (pure P a).
Proof. apply callfree_of_quiet, quiet_pure. Qed.

Lemma callfree_undefined {A} (f : Fault) : callfree (@undefined P A f).
Proof. apply callfree_of_quiet, quiet_undefined. Qed.

Lemma callfree_bind {A B} (c : M P A) (k : A -> M P B) :
  callfree c -> (forall a, callfree (k a)) -> callfree (bind P c k).
Proof.
  intros Hc Hk s b s' H. unfold bind in H.
  destruct (c s) as [a s1| |] eqn:E; try discriminate.
  destruct (Hc s a s1 E) as [Hk1 He1].
  destruct (Hk a s1 b s' H) as [Hk2 He2].
  split; congruence.
Qed.

Lemma callfree_ALOG prio fmt args : callfree (ALOG P prio fmt args).
Proof.
  intros s a s' H. unfold ALOG, emit in H. inversion H; subst.
  cbn [st_kern st_events]. split; [reflexivity|].
  rewrite syscalls_of_app. cbn. apply app_nil_r.
Qed.

End Callfree.

#[export] Hint Resolve quiet_readElfHeader quiet_readSectionHeadersAll
  quiet_readSectionByIdx quiet_readSectionHeaderStrtab quiet_getSymName
  quiet_readSectionData quiet_readSectionByType quiet_readSymTab
  quiet_findSectionIndex : quiet.

Create HintDb callfree.

#[export] Hint Resolve callfree_pure callfree_undefined callfree_ALOG
  : callfree.

(** Proves [callfree] by following the binds and case splits. *)
Ltac callfree_steps :=
  repeat first
    [ solve [auto with callfree]
    | solve [apply callfree_of_quiet; auto with quiet]
    | apply callfree_bind; [|intros ?]
    | progress cbv zeta
    | match goal with
      | |- callfree (match ?x with _ => _ end) => destruct x
      | |- callfree (if ?b then _ else _) => destruct b
      end ].

Lemma quiet_readSectionByName_loop (P : Platform) elfFile name secStrTab shs :
  quiet (readSectionByName_loop P elfFile name secStrTab shs).
Proof.
  induction shs as [|sh shs IH]; cbn [readSectionByName_loop]; quiet_steps.
Qed.

#[export] Hint Resolve quiet_readSectionByName_loop : quiet.

Lemma quiet_readSectionByName (P : Platform) name elfFile :
  quiet (readSectionByName P name elfFile).
Proof. unfold readSectionByName. quiet_steps. Qed.

#[export] Hint Resolve quiet_readSectionByName : quiet.

Lemma callfree_readProgDefs (P : Platform) elfFile :
  callfree (readProgDefs P elfFile).
Proof. unfold readProgDefs. callfree_steps. Qed.

Lemma quiet_collectSymNames (P : Platform) elfFile sec_idx symbolType symtab :
  forall names,
    quiet (collectSymNames P elfFile sec_idx symbolType symtab names).
Proof.
  induction symtab as [|sym symtab IH]; intros names;
    cbn [collectSymNames]; cbv zeta; quiet_steps.
Qed.

#[export] Hint Resolve quiet_collectSymNames : quiet.

Lemma callfree_getSectionSymNames (P : Platform) elfFile sectionName
    symbolType :
  callfree (getSectionSymNames P elfFile sectionName symbolType).
Proof. unfold getSectionSymNames. callfree_steps. Qed.

Lemma quiet_findProgDef (P : Platform) pd progDefNames target :
  forall i, quiet (findProgDef P pd i progDefNames target).
Proof.
  induction progDefNames as [|n rest IH]; intros i; cbn [findProgDef];
    quiet_steps.
Qed.

Lemma quiet_readRelSection (P : Platform) elfFile shTable entries i data
    oldName :
  quiet (readRelSection P elfFile shTable entries i data oldName).
Proof. unfold readRelSection. quiet_steps. Qed.

#[export] Hint Resolve quiet_findProgDef quiet_readRelSection : quiet.
#[export] Hint Resolve callfree_readProgDefs callfree_getSectionSymNames
  : callfree.

Lemma callfree_readCodeSections_body (P : Platform) elfFile allowed shTable
    entries pd progDefNames i cs :
  callfree (readCodeSections_body P elfFile allowed shTable entries pd
              progDefNames i cs).
Proof. unfold readCodeSections_body. callfree_steps. Qed.

Lemma callfree_readCodeSections_loop (P : Platform) elfFile allowed shTable
    entries pd progDefNames idxs :
  forall cs,
    callfree (readCodeSections_loop P elfFile allowed shTable entries pd
                progDefNames idxs cs).
Proof.
  induction idxs as [|i idxs IH]; intros cs; cbn [readCodeSections_loop].
  - apply callfree_pure.
  - apply callfree_bind; [apply callfree_readCodeSections_body|].
    intros [flow cs']. destruct flow; [apply IH | apply callfree_pure].
Qed.

Lemma callfree_readCodeSections (P : Platform) elfFile allowed :
  callfree (readCodeSections P elfFile allowed).
Proof.
  unfold readCodeSections. callfree_steps.
  apply callfree_readCodeSections_loop.
Qed.

Lemma callfree_c_str (P : Platform) what v : callfree (c_str P what v).
Proof. unfold c_str. callfree_steps. Qed.

Lemma lacks_replace (s : string) :
  Str.lacks "/" (Str.replace "/" "_" s) = true.
Proof.
  induction s as [|a s IH]; [reflexivity|].
  cbn [Str.replace Str.lacks]. rewrite IH, andb_true_r.
  destruct (Ascii.eqb a "/") eqn:E; [reflexivity|].
  rewrite E. reflexivity.
Qed.

Lemma readCodeSections_body_kept (P : Platform) elfFile allowed shTable
    entries pd progDefNames i cs (s s' : State P) flow cs' :
  Forall (kept_section P allowed) cs ->
  readCodeSections_body P elfFile allowed shTable entries pd progDefNames
    i cs s = Ret (flow, cs') s' ->
  Forall (kept_section P allowed) cs'.
Proof.
  intros Hall H. unfold readCodeSections_body in H.
  repeat step_M H;
    try (unfold bind, ALOG, emit, pure in H; inversion H; subst; exact Hall).
  unfold pure in H. inversion H; subst.
  apply Forall_app. split; [exact Hall|].
  constructor; [|constructor].
  repeat match goal with
         | E : negb _ = false |- _ => apply negb_false_iff in E
         | E : (_ =? _) = false |- _ => apply Z.eqb_neq in E
         end.
  unfold kept_section. cbn [cs_data cs_type cs_name cs_prog_fd
                            cs_expected_attach_type].
  repeat split; try assumption.
  - intros ->. discriminate.
  - apply lacks_replace.
  - eexists. repeat split.
Qed.

Lemma readCodeSections_loop_kept (P : Platform) elfFile allowed shTable
    entries pd progDefNames idxs :
  forall cs (s s' : State P) r cs',
    Forall (kept_section P allowed) cs ->
    readCodeSections_loop P elfFile allowed shTable entries pd progDefNames
      idxs cs s = Ret (r, cs') s' ->
    Forall (kept_section P allowed) cs'.
Proof.
  induction idxs as [|i idxs IH]; intros cs s s' r cs' Hall H;
    cbn [readCodeSections_loop] in H.
  - unfold pure in H. inversion H; subst. exact Hall.
  - unfold bind at 1 in H.
    destruct (readCodeSections_body P elfFile allowed shTable entries pd
                progDefNames i cs s) as [[flow cs1] s1| |] eqn:Hbody;
      try discriminate.
    apply readCodeSections_body_kept in Hbody; [|exact Hall].
    destruct flow.
    + eapply IH; eassumption.
    + unfold pure in H. inversion H; subst. exact Hbody.
Qed.

(** X15: [readCodeSections] makes no call into the platform, and every
    code section it hands back, also with a non-zero return value, has
    instructions, a program type other than UNSPEC that the allow-list
    permits, a name without a slash and no program FD yet. *)
Theorem readCodeSections_keeps_loadable_sections_only (P : Platform)
    elfFile allowed (s s' : State P) r cs :
  readCodeSections P elfFile allowed s = Ret (r, cs) s' ->
  st_kern s' = st_kern s /\
  syscalls_of (st_events s') = syscalls_of (st_events s) /\
  Forall (kept_section P allowed) cs.
Proof.
  intros H.
  destruct (callfree_readCodeSections P elfFile allowed s (r, cs) s' H)
    as [Hk He].
  split; [exact Hk|]. split; [exact He|].
  unfold readCodeSections in H.
  repeat step_M H;
    try (unfold pure in H; inversion H; subst; constructor).
  eapply readCodeSections_loop_kept; [|eassumption]. constructor.
Qed.

(* ===================================================================== *)
(** * Further properties: relocation as a whole *)
(* ===================================================================== *)

Lemma applyRelo_length (P : Platform) (insns insns' : list Z) (offset fd : Z)
    (s s1 : State P) :
  applyRelo P insns offset fd s = Ret insns' s1 ->
  List.length insns' = List.length insns.
Proof.
  unfold applyRelo. change (Z.of_nat sizeof_bpf_insn) with 8.
  set (idx := to_int (offset / 8)).
  destruct (idx <? 0) eqn:E0; [discriminate|].
  destruct (Z.of_nat (List.length insns) <? 8 * idx + 8) eqn:E8;
    [discriminate|].
  cbn [orb]. apply Z.ltb_ge in E0, E8.
  destruct (negb _).
  - unfold bind, ALOG, emit, pure. intros H. inversion H; subst.
    reflexivity.
  - unfold pure. intros H. inversion H; subst.
    apply (set_fields_fixed_point insns idx fd E0 E8).
Qed.

Lemma callfree_applyRelo (P : Platform) insns offset fd :
  callfree (applyRelo P insns offset fd).
Proof. unfold applyRelo. callfree_steps. Qed.

Lemma quiet_getSymNameByIdx (P : Platform) elfFile index :
  quiet (getSymNameByIdx P elfFile index).
Proof. unfold getSymNameByIdx. quiet_steps. Qed.

#[export] Hint Resolve quiet_getSymNameByIdx : quiet.
#[export] Hint Resolve callfree_applyRelo : callfree.

Lemma callfree_applyMapRelo_entry (P : Platform) elfFile mapNames mapFds rel
    data :
  callfree (applyMapRelo_entry P elfFile mapNames mapFds rel data).
Proof. unfold applyMapRelo_entry. callfree_steps. Qed.

Lemma applyMapRelo_entry_length (P : Platform) elfFile mapNames mapFds rel
    data data' (s s' : State P) :
  applyMapRelo_entry P elfFile mapNames mapFds rel data s
    = Ret (Ok data') s' ->
  List.length data' = List.length data.
Proof.
  intros H. unfold applyMapRelo_entry in H.
  repeat step_M H; try (unfold pure in H; inversion H; subst; reflexivity);
    try discriminate.
  unfold pure in H. inversion H; subst.
  eapply applyRelo_length; eassumption.
Qed.

Lemma applyMapRelo_entries_frame (P : Platform) elfFile mapNames mapFds rels :
  forall data (s s' : State P) go_on data',
    applyMapRelo_entries P elfFile mapNames mapFds rels data s
      = Ret (go_on, data') s' ->
    List.length data' = List.length data /\
    st_kern s' = st_kern s /\
    syscalls_of (st_events s') = syscalls_of (st_events s).
Proof.
  induction rels as [|rel rels IH]; intros data s s' go_on data' H;
    cbn [applyMapRelo_entries] in H.
  - unfold pure in H. inversion H; subst. auto.
  - unfold bind at 1 in H.
    destruct (applyMapRelo_entry P elfFile mapNames mapFds rel data s)
      as [[e|data1] s1| |] eqn:He; try discriminate.
    + destruct (callfree_applyMapRelo_entry P elfFile mapNames mapFds rel
                  data s _ _ He) as [Hk Hev].
      unfold pure in H. inversion H; subst. auto.
    + destruct (callfree_applyMapRelo_entry P elfFile mapNames mapFds rel
                  data s _ _ He) as [Hk Hev].
      apply applyMapRelo_entry_length in He.
      destruct (IH data1 s1 s' go_on data' H) as (Hl & Hk' & Hev').
      repeat split; congruence.
Qed.

Lemma same_but_insns_refl (cs : list codeSection) :
  Forall2 same_but_insns cs cs.
Proof. induction cs; constructor; [repeat split | assumption]. Qed.

Lemma applyMapRelo_sections_frame (P : Platform) elfFile mapNames mapFds cs :
  forall (s s' : State P) cs',
    applyMapRelo_sections P elfFile mapNames mapFds cs s = Ret cs' s' ->
    st_kern s' = st_kern s /\
    syscalls_of (st_events s') = syscalls_of (st_events s) /\
    Forall2 same_but_insns cs cs'.
Proof.
  induction cs as [|c cs IH]; intros s s' cs' H;
    cbn [applyMapRelo_sections] in H.
  - unfold pure in H. inversion H; subst. repeat split. constructor.
  - cbv zeta in H. unfold bind at 1 in H.
    destruct (applyMapRelo_entries P elfFile mapNames mapFds _ (cs_data c) s)
      as [[go_on data] s1| |] eqn:He; try discriminate.
    apply applyMapRelo_entries_frame in He. destruct He as (Hl & Hk & Hev).
    assert (Hc : same_but_insns c (with_data c data))
      by (repeat split; exact Hl).
    destruct go_on.
    + unfold bind at 1 in H.
      destruct (applyMapRelo_sections P elfFile mapNames mapFds cs s1)
        as [rest' s2| |] eqn:Hr; try discriminate.
      unfold pure in H. inversion H; subst.
      destruct (IH s1 s' rest' Hr) as (Hk' & Hev' & Hall).
      split; [congruence|]. split; [congruence|].
      constructor; assumption.
    + unfold pure in H. inversion H; subst.
      split; [exact Hk|]. split; [exact Hev|].
      constructor; [exact Hc | apply same_but_insns_refl].
Qed.

(** X16: [applyMapRelo] makes no call into the platform and hands back
    the code sections it was given, in the same order and every one
    with as many instruction bytes as before: relocation rewrites
    instructions in place and touches no other field. *)
Theorem applyMapRelo_rewrites_instructions_in_place (P : Platform) elfFile
    mapFds cs cs' (s s' : State P) :
  applyMapRelo P elfFile mapFds cs s = Ret cs' s' ->
  st_kern s' = st_kern s /\
  syscalls_of (st_events s') = syscalls_of (st_events s) /\
  Forall2 same_but_insns cs cs'.
Proof.
  intros H. unfold applyMapRelo in H. unfold bind at 1 in H.
  destruct (getSectionSymNames P elfFile "maps" None s)
    as [[ret mapNames] s1| |] eqn:Hn; try discriminate.
  destruct (callfree_getSectionSymNames P elfFile "maps" None s _ _ Hn)
    as [Hk Hev].
  destruct (negb (ret =? 0)).
  - unfold pure in H. inversion H; subst.
    split; [exact Hk|]. split; [exact Hev | apply same_but_insns_refl].
  - apply applyMapRelo_sections_frame in H.
    destruct H as (Hk' & Hev' & Hall).
    split; [congruence|]. split; [congruence | exact Hall].
Qed.

(* ===================================================================== *)
(** * Further properties: the loader entry *)
(* ===================================================================== *)

(** Turns the runs of call-free steps among the hypotheses into the
    equations of their frames. *)
Ltac frame_hyps :=
  repeat match goal with
    | E : readSectionByName _ _ _ _ = Ret _ _ |- _ =>
        apply quiet_readSectionByName in E; destruct E
    | E : c_str _ _ _ _ = Ret _ _ |- _ =>
        apply callfree_c_str in E; destruct E
    | E : pure _ _ _ = Ret _ _ |- _ =>
        apply callfree_pure in E; destruct E
    | E : ALOG _ _ _ _ _ = Ret _ _ |- _ =>
        apply callfree_ALOG in E; destruct E
    | E : readCodeSections _ _ _ _ = Ret _ _ |- _ =>
        apply callfree_readCodeSections in E; destruct E
    end.

(** X17: on every return path of [loadProg] the critical flag is
    whether the [critical] section could be read, and the platform is
    called only after the scan of the code sections has returned 0 on
    a kernel that no call has touched yet. *)
Theorem loadProg_calls_platform_only_after_scan (P : Platform) elfPath
    elfFile location (s s' : State P) r crit :
  loadProg P elfPath (Some elfFile) location s = Ret (r, crit) s' ->
  exists rc s1,
    readSectionByName P "critical" elfFile s = Ret rc s1 /\
    crit = (match rc with Ok _ => true | Err _ => false end) /\
    ((st_kern s' = st_kern s /\
      syscalls_of (st_events s') = syscalls_of (st_events s)) \/
     exists s2 cs s3,
       readCodeSections P elfFile (loc_allowedProgTypes location) s2
         = Ret (0, cs) s3 /\
       st_kern s2 = st_kern s /\
       syscalls_of (st_events s2) = syscalls_of (st_events s)).
Proof.
  intros H. unfold loadProg in H. unfold bind at 1 in H.
  destruct (readSectionByName P "critical" elfFile s) as [rc s1| |] eqn:Hc;
    try discriminate.
  exists rc, s1. split; [reflexivity|].
  pose proof (quiet_readSectionByName P "critical" elfFile s rc s1 Hc)
    as [Hk1 He1].
  clear Hc. cbv beta zeta in H.
  unfold bind at 1 in H.
  destruct (readSectionByName P "license" elfFile s1) as [rl s2| |] eqn:Hl;
    try discriminate.
  destruct rl as [e|license].
  { unfold bind, ALOG, emit, pure in H. inversion H; subst.
    split; [reflexivity|]. left. frame_hyps. cbn [st_kern st_events].
    rewrite syscalls_of_app. cbn. rewrite app_nil_r.
    split; congruence. }
  unfold bind at 1 in H.
  match type of H with
  | (match ?x with _ => _ end) = _ =>
      destruct x as [criticalStr s3| |] eqn:Hcs; try discriminate
  end.
  unfold bind at 1 in H.
  destruct (c_str P "license" license s3) as [licenseStr s4| |] eqn:Hls;
    try discriminate.
  unfold bind at 1 in H.
  match type of H with
  | (match ?x with _ => _ end) = _ =>
      destruct x as [u s5| |] eqn:Hlog; try discriminate
  end.
  unfold bind at 1 in H.
  destruct (readCodeSections P elfFile (loc_allowedProgTypes location) s5)
    as [[ret cs] s6| |] eqn:Hscan; try discriminate.
  assert (Hpre : st_kern s5 = st_kern s /\
                 syscalls_of (st_events s5) = syscalls_of (st_events s)).
  { destruct rc; cbv iota in Hcs; frame_hyps; split; congruence. }
  destruct (ret =? 0) eqn:Hret; cbn [negb] in H.
  - apply Z.eqb_eq in Hret. subst ret.
    assert (Hcrit : crit = match rc with Ok _ => true | Err _ => false end).
    { repeat step_M H;
        unfold bind, ALOG, emit, pure in H; inversion H; reflexivity. }
    split; [exact Hcrit|]. right. exists s5, cs, s6.
    split; [exact Hscan | exact Hpre].
  - unfold bind, ALOG, emit, pure in H. inversion H; subst.
    split; [reflexivity|]. left.
    apply callfree_readCodeSections in Hscan. destruct Hscan as [Hk6 He6].
    cbn [st_kern st_events]. rewrite syscalls_of_app. cbn.
    rewrite app_nil_r. destruct Hpre. split; congruence.
Qed.

(* ===================================================================== *)
(** * Further properties: failed streams and absent sections *)
(* ===================================================================== *)

Section FailedStream.

Variable P : Platform.
Variable elfFile : list Z.
Variable s : State P.
Hypothesis Hfail : st_fail s = true.

Lemma failed_readElfHeader : readElfHeader P elfFile s = Ret (Err (-1)) s.
Proof.
  unfold readElfHeader, bind, seekg, fail, pure. rewrite Hfail.
  rewrite Hfail. reflexivity.
Qed.

Lemma failed_readSectionHeadersAll :
  readSectionHeadersAll P elfFile s = Ret (Err (-1)) s.
Proof.
  unfold readSectionHeadersAll. unfold bind at 1.
  rewrite failed_readElfHeader. reflexivity.
Qed.

Lemma failed_readSectionByIdx (id : Z) :
  readSectionByIdx P elfFile id s = Ret (Err (-1)) s.
Proof.
  unfold readSectionByIdx. unfold bind at 1.
  rewrite failed_readSectionHeadersAll. reflexivity.
Qed.

Lemma failed_readSectionHeaderStrtab :
  readSectionHeaderStrtab P elfFile s = Ret (Err (-1)) s.
Proof.
  unfold readSectionHeaderStrtab. unfold bind at 1.
  rewrite failed_readElfHeader. reflexivity.
Qed.

Lemma failed_getSymName (nameOff : Z) :
  getSymName P elfFile nameOff s = Ret (Err (-1)) s.
Proof.
  unfold getSymName. unfold bind at 1.
  rewrite failed_readSectionHeaderStrtab. reflexivity.
Qed.

Lemma failed_readSectionByName (name : string) :
  readSectionByName P name elfFile s = Ret (Err (-1)) s.
Proof.
  unfold readSectionByName. unfold bind at 1.
  rewrite failed_readSectionHeadersAll. reflexivity.
Qed.

Lemma failed_readSectionByType (type : Z) :
  readSectionByType P elfFile type s = Ret (Err (-1)) s.
Proof.
  unfold readSectionByType. unfold bind at 1.
  rewrite failed_readSectionHeadersAll. reflexivity.
Qed.

Lemma failed_readSymTab (sort : bool) :
  readSymTab P elfFile sort s = Ret (Err (-1)) s.
Proof.
  unfold readSymTab. unfold bind at 1.
  rewrite failed_readSectionByType. reflexivity.
Qed.

Lemma failed_getSectionSymNames (sectionName : string) (t : option Z) :
  getSectionSymNames P elfFile sectionName t s = Ret (-1, []) s.
Proof.
  unfold getSectionSymNames. unfold bind at 1.
  rewrite failed_readSymTab. reflexivity.
Qed.

End FailedStream.

(** X18: the failbit of the stream is never cleared.  On a stream that
    has failed every reader returns -1 without reading, the section
    metadata falls back to its default, the scan of the code sections
    and the map installer return -1 with nothing collected, and
    [loadProg] gives up on the license with -1 and the critical flag
    off; none of them calls the platform. *)
Theorem failed_stream_fails_every_reader (P : Platform) (elfFile : list Z)
    (s : State P) :
  st_fail s = true ->
  readElfHeader P elfFile s = Ret (Err (-1)) s /\
  readSectionHeadersAll P elfFile s = Ret (Err (-1)) s /\
  (forall id, readSectionByIdx P elfFile id s = Ret (Err (-1)) s) /\
  (forall off, getSymName P elfFile off s = Ret (Err (-1)) s) /\
  (forall name, readSectionByName P name elfFile s = Ret (Err (-1)) s) /\
  (forall type, readSectionByType P elfFile type s = Ret (Err (-1)) s) /\
  (forall sort, readSymTab P elfFile sort s = Ret (Err (-1)) s) /\
  (forall name d, readSectionUint P name elfFile d s = Ret d s) /\
  (forall allowed, readCodeSections P elfFile allowed s = Ret (-1, []) s) /\
  (forall path prefix,
     createMaps P path elfFile prefix s = Ret (-1, []) s) /\
  (forall path loc,
     loadProg P path (Some elfFile) loc s
     = Ret (-1, false)
           (with_events s [ev_log LOG_ERROR "Couldn't find license in %s"
                                  [ArgStr path]])).
Proof.
  intros Hfail.
  split; [apply failed_readElfHeader; exact Hfail|].
  split; [apply failed_readSectionHeadersAll; exact Hfail|].
  split; [intros; apply failed_readSectionByIdx; exact Hfail|].
  split; [intros; apply failed_getSymName; exact Hfail|].
  split; [intros; apply failed_readSectionByName; exact Hfail|].
  split; [intros; apply failed_readSectionByType; exact Hfail|].
  split; [intros; apply failed_readSymTab; exact Hfail|].
  split.
  { intros name d. unfold readSectionUint. unfold bind at 1.
    rewrite failed_readSectionByName by exact Hfail. reflexivity. }
  split.
  { intros allowed. unfold readCodeSections. unfold bind at 1.
    rewrite failed_readSectionHeadersAll by exact Hfail. reflexivity. }
  split.
  { intros path prefix. unfold createMaps. cbv zeta. unfold bind at 1.
    rewrite failed_readSectionByName by exact Hfail. reflexivity. }
  intros path loc. unfold loadProg. unfold bind at 1.
  rewrite failed_readSectionByName by exact Hfail. cbv beta iota zeta.
  unfold bind at 1.
  rewrite failed_readSectionByName by exact Hfail. reflexivity.
Qed.

Lemma readSectionByName_loop_absent (P : Platform) elfFile name secStrTab
    shs (s : State P) :
  no_section_named name secStrTab shs ->
  readSectionByName_loop P elfFile name secStrTab shs s = Ret (Err (-2)) s.
Proof.
  induction 1 as [|sh shs Hsh _ IH]; cbn [readSectionByName_loop];
    [reflexivity|].
  destruct ((List.length secStrTab =? 0)%nat && (sh_name sh =? 0)) eqn:E;
    [exact IH|].
  destruct Hsh as [Hsh | Hsh]; [discriminate|].
  rewrite Hsh. exact IH.
Qed.

(** X19: a section that no header names is reported with -2 and is no
    error for its optional uses: its metadata value is the default, and
    an object without a [maps] section has its maps created
    successfully, with no FD, no log line and no call. *)
Theorem absent_section_is_not_an_error (P : Platform) elfFile name shTable
    secStrTab (s s1 s2 : State P) :
  readSectionHeadersAll P elfFile s = Ret (Ok shTable) s1 ->
  readSectionHeaderStrtab P elfFile s1 = Ret (Ok secStrTab) s2 ->
  no_section_named name secStrTab shTable ->
  readSectionByName P name elfFile s = Ret (Err (-2)) s2 /\
  (forall d, readSectionUint P name elfFile d s = Ret d s2) /\
  (name = "maps" ->
   forall path prefix, createMaps P path elfFile prefix s = Ret (0, []) s2) /\
  st_kern s2 = st_kern s /\ st_events s2 = st_events s.
Proof.
  intros Hsh Hstr Habs.
  assert (Hrun : readSectionByName P name elfFile s = Ret (Err (-2)) s2).
  { unfold readSectionByName. unfold bind at 1. rewrite Hsh.
    unfold bind at 1. rewrite Hstr.
    apply readSectionByName_loop_absent. exact Habs. }
  split; [exact Hrun|]. split.
  { intros d. unfold readSectionUint. unfold bind at 1. rewrite Hrun.
    reflexivity. }
  split.
  { intros -> path prefix. unfold createMaps. cbv zeta. unfold bind at 1.
    rewrite Hrun. reflexivity. }
  apply (quiet_readSectionByName P name elfFile s _ _ Hrun).
Qed.

(* ===================================================================== *)
(** * Further properties: return values *)
(* ===================================================================== *)

(** Closes a run that has reached its [pure]: the error code is a
    literal, or the one of an earlier run among the hypotheses. *)
Create HintDb negerr.

Ltac neg_leaf H :=
  unfold bind, ALOG, emit, pure, undefined in H;
  first
    [ discriminate H
    | inversion H; subst;
      first
        [ unfold ENOMEM; lia
        | match goal with
          | E : ?c ?s = Ret (Err ?e) ?s' |- ?e < 0 =>
              let N := fresh "N" in
              assert (N : negative_errors c) by auto with negerr;
              exact (N s e s' E)
          end ] ].

Ltac neg_steps H := repeat step_M H; try neg_leaf H.

Lemma neg_readElfHeader (P : Platform) elfFile :
  negative_errors (readElfHeader P elfFile).
Proof. intros s e s' H. unfold readElfHeader in H. neg_steps H. Qed.

#[export] Hint Resolve neg_readElfHeader : negerr.

Lemma neg_readSectionHeadersAll (P : Platform) elfFile :
  negative_errors (readSectionHeadersAll P elfFile).
Proof. intros s e s' H. unfold readSectionHeadersAll in H. neg_steps H. Qed.

#[export] Hint Resolve neg_readSectionHeadersAll : negerr.

Lemma neg_readSectionByIdx (P : Platform) elfFile id :
  negative_errors (readSectionByIdx P elfFile id).
Proof. intros s e s' H. unfold readSectionByIdx in H. neg_steps H. Qed.

#[export] Hint Resolve neg_readSectionByIdx : negerr.

Lemma neg_readSectionHeaderStrtab (P : Platform) elfFile :
  negative_errors (readSectionHeaderStrtab P elfFile).
Proof.
  intros s e s' H. unfold readSectionHeaderStrtab in H. neg_steps H.
Qed.

#[export] Hint Resolve neg_readSectionHeaderStrtab : negerr.

Lemma neg_getSymName (P : Platform) elfFile nameOff :
  negative_errors (getSymName P elfFile nameOff).
Proof. intros s e s' H. unfold getSymName in H. neg_steps H. Qed.

#[export] Hint Resolve neg_getSymName : negerr.

Lemma neg_readSectionData (P : Platform) elfFile sh :
  negative_errors (readSectionData P elfFile sh).
Proof. intros s e s' H. unfold readSectionData in H. neg_steps H. Qed.

#[export] Hint Resolve neg_readSectionData : negerr.

Lemma neg_readSectionByName_loop (P : Platform) elfFile name secStrTab shs :
  negative_errors (readSectionByName_loop P elfFile name secStrTab shs).
Proof.
  induction shs as [|sh shs IH]; intros s e s' H;
    cbn [readSectionByName_loop] in H; neg_steps H.
Qed.

#[export] Hint Resolve neg_readSectionByName_loop : negerr.

Lemma neg_readSectionByName (P : Platform) name elfFile :
  negative_errors (readSectionByName P name elfFile).
Proof. intros s e s' H. unfold readSectionByName in H. neg_steps H. Qed.

#[export] Hint Resolve neg_readSectionByName : negerr.

Lemma neg_readSectionByType_loop (P : Platform) elfFile type shs :
  negative_errors (readSectionByType_loop P elfFile type shs).
Proof.
  induction shs as [|sh shs IH]; intros s e s' H;
    cbn [readSectionByType_loop] in H; neg_steps H.
Qed.

#[export] Hint Resolve neg_readSectionByType_loop : negerr.

Lemma neg_readSectionByType (P : Platform) elfFile type :
  negative_errors (readSectionByType P elfFile type).
Proof. intros s e s' H. unfold readSectionByType in H. neg_steps H. Qed.

#[export] Hint Resolve neg_readSectionByType : negerr.

Lemma neg_readSymTab (P : Platform) elfFile sort :
  negative_errors (readSymTab P elfFile sort).
Proof. intros s e s' H. unfold readSymTab in H. neg_steps H. Qed.

#[export] Hint Resolve neg_readSymTab : negerr.

Lemma neg_readProgDefs (P : Platform) elfFile :
  negative_errors (readProgDefs P elfFile).
Proof. intros s e s' H. unfold readProgDefs in H. neg_steps H. Qed.

#[export] Hint Resolve neg_readProgDefs : negerr.

Lemma neg_getSymNameByIdx (P : Platform) elfFile index :
  negative_errors (getSymNameByIdx P elfFile index).
Proof. intros s e s' H. unfold getSymNameByIdx in H. neg_steps H. Qed.

Lemma neg_findSectionIndex (P : Platform) elfFile sectionName shs :
  forall i, negative_errors (findSectionIndex P elfFile sectionName i shs).
Proof.
  induction shs as [|sh shs IH]; intros i s e s' H;
    cbn [findSectionIndex] in H; neg_steps H.
Qed.

#[export] Hint Resolve neg_findSectionIndex : negerr.

Lemma neg_readRelSection (P : Platform) elfFile shTable entries i data
    oldName :
  negative_errors (readRelSection P elfFile shTable entries i data oldName).
Proof. intros s e s' H. unfold readRelSection in H. neg_steps H. Qed.

#[export] Hint Resolve neg_readRelSection : negerr.

(** X20: the error codes of the ELF readers are negative, so that a
    caller's test of the return value against 0 never takes a failure
    for a success. *)
Theorem reader_errors_are_negative (P : Platform) (elfFile : list Z) :
  negative_errors (readElfHeader P elfFile) /\
  negative_errors (readSectionHeadersAll P elfFile) /\
  negative_errors (readSectionHeaderStrtab P elfFile) /\
  negative_errors (readProgDefs P elfFile) /\
  (forall id, negative_errors (readSectionByIdx P elfFile id)) /\
  (forall off, negative_errors (getSymName P elfFile off)) /\
  (forall name, negative_errors (readSectionByName P name elfFile)) /\
  (forall type, negative_errors (readSectionByType P elfFile type)) /\
  (forall sort, negative_errors (readSymTab P elfFile sort)) /\
  (forall index, negative_errors (getSymNameByIdx P elfFile index)).
Proof.
  repeat split; intros;
    first [ apply neg_readElfHeader | apply neg_readSectionHeadersAll
          | apply neg_readSectionHeaderStrtab | apply neg_readProgDefs
          | apply neg_readSectionByIdx | apply neg_getSymName
          | apply neg_readSectionByName | apply neg_readSectionByType
          | apply neg_readSymTab | apply neg_getSymNameByIdx ].
Qed.

Lemma collectSymNames_count (P : Platform) elfFile sec_idx symbolType symtab :
  forall names (s s' : State P) r names',
    collectSymNames P elfFile sec_idx symbolType symtab names s
      = Ret (r, names') s' ->
    r <= 0 /\
    (r = 0 ->
     List.length names'
     = (List.length names
        + List.length (filter (selected_symbol sec_idx symbolType) symtab))%nat).
Proof.
  induction symtab as [|sym symtab IH]; intros names s s' r names' H;
    cbn [collectSymNames] in H.
  - unfold pure in H. inversion H; subst. split; [lia|].
    intros _. cbn. lia.
  - cbv zeta in H. cbn [filter]. unfold selected_symbol at 1.
    destruct symbolType as [t|].
    + destruct (ELF_ST_TYPE (st_info sym) =? t); cbn [negb andb] in H |- *;
        [|apply IH in H; exact H].
      destruct (st_shndx sym =? sec_idx); [|apply IH in H; exact H].
      unfold bind at 1 in H.
      destruct (getSymName P elfFile (to_int (st_name sym)) s)
        as [[e|nm] s1| |] eqn:Hn; try discriminate.
      * unfold pure in H. inversion H; subst.
        apply neg_getSymName in Hn. split; lia.
      * apply IH in H. rewrite length_app in H. cbn [List.length] in *.
        destruct H as [Hr Hl]. split; [exact Hr|]. intros Hz.
        rewrite (Hl Hz). lia.
    + cbn [andb] in H |- *.
      destruct (st_shndx sym =? sec_idx); [|apply IH in H; exact H].
      unfold bind at 1 in H.
      destruct (getSymName P elfFile (to_int (st_name sym)) s)
        as [[e|nm] s1| |] eqn:Hn; try discriminate.
      * unfold pure in H. inversion H; subst.
        apply neg_getSymName in Hn. split; lia.
      * apply IH in H. rewrite length_app in H. cbn [List.length] in *.
        destruct H as [Hr Hl]. split; [exact Hr|]. intros Hz.
        rewrite (Hl Hz). lia.
Qed.

Lemma collectSymNames_names (P : Platform) elfFile sec_idx symbolType symtab :
  forall names (s s' : State P) names',
    collectSymNames P elfFile sec_idx symbolType symtab names s
      = Ret (0, names') s' ->
    exists added,
      names' = names ++ added /\
      resolved_names P elfFile
        (filter (selected_symbol sec_idx symbolType) symtab) added s s'.
Proof.
  induction symtab as [|sym symtab IH]; intros names s s' names' H;
    cbn [collectSymNames] in H.
  - unfold pure in H. inversion H; subst. exists [].
    split; [symmetry; apply app_nil_r | reflexivity].
  - cbv zeta in H. cbn [filter].
    assert (Hsel : forall st,
               bind P (getSymName P elfFile (to_int (st_name sym)))
                 (fun r => match r with
                           | Err e => pure P (e, names)
                           | Ok nm =>
                               collectSymNames P elfFile sec_idx symbolType
                                 symtab (names ++ [nm])
                           end) st = Ret (0, names') s' ->
               exists added,
                 names' = names ++ added /\
                 resolved_names P elfFile
                   (sym :: filter (selected_symbol sec_idx symbolType) symtab)
                   added st s').
    { intros st Hb. unfold bind at 1 in Hb.
      destruct (getSymName P elfFile (to_int (st_name sym)) st)
        as [[e|nm] s1| |] eqn:Hn; try discriminate.
      - unfold pure in Hb. inversion Hb; subst.
        apply neg_getSymName in Hn. lia.
      - apply IH in Hb. destruct Hb as (added & -> & Hres).
        exists (nm :: added). split; [rewrite <- app_assoc; reflexivity|].
        cbn [resolved_names]. exists s1. split; [exact Hn | exact Hres]. }
    unfold selected_symbol at 1.
    destruct symbolType as [t|].
    + destruct (ELF_ST_TYPE (st_info sym) =? t); cbn [negb andb] in H |- *;
        [|apply IH in H; exact H].
      destruct (st_shndx sym =? sec_idx); [|apply IH in H; exact H].
      apply Hsel. exact H.
    + cbn [andb] in H |- *.
      destruct (st_shndx sym =? sec_idx); [|apply IH in H; exact H].
      apply Hsel. exact H.
Qed.

Lemma findSectionIndex_range (P : Platform) elfFile sectionName shs :
  forall i (s s' : State P) k,
    findSectionIndex P elfFile sectionName i shs s = Ret (Ok k) s' ->
    k = -1 \/ i <= k < i + Z.of_nat (List.length shs).
Proof.
  induction shs as [|sh shs IH]; intros i s s' k Hf;
    cbn [findSectionIndex] in Hf.
  - unfold pure in Hf. inversion Hf. left. reflexivity.
  - unfold bind at 1 in Hf.
    destruct (getSymName P elfFile (to_int (sh_name sh)) s)
      as [[e|nm] s1| |]; try discriminate.
    destruct (String.eqb nm sectionName).
    + unfold pure in Hf. inversion Hf; subst. right.
      cbn [List.length]. lia.
    + apply IH in Hf. cbn [List.length]. lia.
Qed.


Lemma neg_getSectionSymNames (P : Platform) elfFile sectionName symbolType
    (s s' : State P) r names :
  getSectionSymNames P elfFile sectionName symbolType s = Ret (r, names) s' ->
  r <= 0.
Proof.
  intros H. unfold getSectionSymNames in H.
  repeat step_M H;
    try (unfold bind, ALOG, emit, pure in H; inversion H; subst;
         first [ lia
               | match goal with
                 | E : ?c ?st = Ret (Err ?e) ?st' |- ?e <= 0 =>
                     let N := fresh "N" in
                     assert (N : negative_errors c) by auto with negerr;
                     pose proof (N st e st' E); lia
                 end ]).
  apply collectSymNames_count in H. apply H.
Qed.

Lemma neg_readCodeSections_body (P : Platform) elfFile allowed shTable
    entries pd progDefNames i cs (s s' : State P) e cs' :
  readCodeSections_body P elfFile allowed shTable entries pd progDefNames
    i cs s = Ret (Return e, cs') s' ->
  e <= 0.
Proof.
  intros H. unfold readCodeSections_body in H.
  repeat step_M H;
    try (unfold bind, ALOG, emit, pure in H; inversion H; subst;
         first [ lia
               | match goal with
                 | E : ?c ?st = Ret (Err ?e) ?st' |- ?e <= 0 =>
                     let N := fresh "N" in
                     assert (N : negative_errors c) by auto with negerr;
                     pose proof (N st e st' E); lia
                 | E : getSectionSymNames _ _ _ _ _ = Ret (?e, _) _
                   |- ?e <= 0 =>
                     exact (neg_getSectionSymNames _ _ _ _ _ _ _ _ E)
                 end ]).
Qed.

Lemma neg_readCodeSections_loop (P : Platform) elfFile allowed shTable
    entries pd progDefNames idxs :
  forall cs (s s' : State P) r cs',
    readCodeSections_loop P elfFile allowed shTable entries pd progDefNames
      idxs cs s = Ret (r, cs') s' ->
    r <= 0.
Proof.
  induction idxs as [|i idxs IH]; intros cs s s' r cs' H;
    cbn [readCodeSections_loop] in H.
  - unfold pure in H. inversion H. lia.
  - unfold bind at 1 in H.
    destruct (readCodeSections_body P elfFile allowed shTable entries pd
                progDefNames i cs s) as [[[|e] cs1] s1| |] eqn:Hb;
      try discriminate.
    + eapply IH; eassumption.
    + unfold pure in H. inversion H; subst.
      eapply neg_readCodeSections_body; eassumption.
Qed.

Lemma neg_readCodeSections (P : Platform) elfFile allowed (s s' : State P)
    r cs :
  readCodeSections P elfFile allowed s = Ret (r, cs) s' -> r <= 0.
Proof.
  intros H. unfold readCodeSections in H.
  repeat step_M H;
    try (unfold bind, ALOG, emit, pure in H; inversion H; subst;
         first [ lia
               | match goal with
                 | E : ?c ?st = Ret (Err ?e) ?st' |- ?e <= 0 =>
                     let N := fresh "N" in
                     assert (N : negative_errors c) by auto with negerr;
                     pose proof (N st e st' E); lia
                 | E : getSectionSymNames _ _ _ _ _ = Ret (?e, _) _
                   |- ?e <= 0 =>
                     exact (neg_getSectionSymNames _ _ _ _ _ _ _ _ E)
                 end ]).
  eapply neg_readCodeSections_loop; eassumption.
Qed.

Lemma neg_createMaps (P : Platform) elfPath elfFile prefix (s s' : State P)
    r mapFds :
  createMaps P elfPath elfFile prefix s = Ret (r, mapFds) s' -> r <= 0.
Proof.
  intros H. unfold createMaps in H. cbv zeta in H. unfold bind at 1 in H.
  destruct (readSectionByName P "maps" elfFile s) as [[e|mdData] s1| |]
    eqn:Hmd; try discriminate.
  { apply neg_readSectionByName in Hmd.
    destruct (e =? -2); unfold pure in H; inversion H; lia. }
  destruct (negb _).
  { unfold bind, ALOG, emit, pure in H. inversion H. lia. }
  unfold bind at 1 in H.
  destruct (getSectionSymNames P elfFile "maps" None s1)
    as [[ret mapNames] s2| |] eqn:Hn; try discriminate.
  pose proof (neg_getSectionSymNames _ _ _ _ _ _ _ _ Hn) as Hret.
  destruct (ret =? 0) eqn:Hz; cbn [negb] in H.
  - apply Z.eqb_eq in Hz. subst ret.
    unfold indices in H.
    apply createMaps_loop_result in H; [lia | reflexivity].
  - unfold pure in H. inversion H; subst. exact Hret.
Qed.

(** X22: [loadProg] never returns a positive value: every value it
    returns, on any object file and with any answers of the platform,
    is 0 or negative.  A run that ends in [abort] (a MapDef with a
    non-zero [zero] field) or that indexes outside a vector returns no
    value and is not spoken of. *)
Theorem loadProg_returns_zero_or_negative (P : Platform) elfPath file
    location (s s' : State P) r crit :
  loadProg P elfPath file location s = Ret (r, crit) s' ->
  r <= 0.
Proof.
  intros H. unfold loadProg in H.
  destruct file as [elfFile|]; [|unfold pure in H; inversion H; lia].
  unfold bind at 1 in H.
  destruct (readSectionByName P "critical" elfFile s) as [rc s1| |];
    try discriminate.
  cbv beta zeta in H. unfold bind at 1 in H.
  destruct (readSectionByName P "license" elfFile s1) as [[e|license] s2| |]
    eqn:Hl; try discriminate.
  { apply neg_readSectionByName in Hl.
    unfold bind, ALOG, emit, pure in H. inversion H; subst. lia. }
  unfold bind at 1 in H.
  match type of H with
  | (match ?x with _ => _ end) = _ =>
      destruct x as [criticalStr s3| |]; try discriminate
  end.
  unfold bind at 1 in H.
  destruct (c_str P "license" license s3) as [licenseStr s4| |];
    try discriminate.
  unfold bind at 1 in H.
  match type of H with
  | (match ?x with _ => _ end) = _ =>
      destruct x as [u s5| |]; try discriminate
  end.
  unfold bind at 1 in H.
  destruct (readCodeSections P elfFile (loc_allowedProgTypes location) s5)
    as [[ret cs] s6| |] eqn:Hscan; try discriminate.
  apply neg_readCodeSections in Hscan.
  destruct (negb (ret =? 0)).
  { unfold bind, ALOG, emit, pure in H. inversion H; subst. exact Hscan. }
  unfold bind at 1 in H.
  destruct (createMaps P elfPath elfFile (loc_prefix location) s6)
    as [[ret1 mapFds] s7| |] eqn:Hmaps; try discriminate.
  apply neg_createMaps in Hmaps.
  destruct (negb (ret1 =? 0)).
  { unfold bind, ALOG, emit, pure in H. inversion H; subst. exact Hmaps. }
  unfold bind at 1 in H.
  destruct (applyMapRelo P elfFile mapFds cs s7) as [cs1 s8| |];
    try discriminate.
  unfold bind at 1 in H.
  assert (Hload : exists r2 cs2 s9,
             loadCodeSections P elfPath cs1 licenseStr (loc_prefix location) s8
               = Ret (r2, cs2) s9 /\ r2 <= 0).
  { unfold loadCodeSections. destruct (kernelVersion P =? 0).
    - do 3 eexists. split; [reflexivity | unfold EINVAL; lia].
    - destruct (loadCodeSections_loop_frame P elfPath licenseStr
                  (loc_prefix location) (pathToObjName elfPath) cs1 0 [] s8)
        as (r2 & cs2 & s9 & Hrun & Hr & _).
      exists r2, cs2, s9. split; [exact Hrun | exact Hr]. }
  destruct Hload as (r2 & cs2 & s9 & Hload & Hr2).
  rewrite Hload in H.
  destruct (negb (r2 =? 0));
    unfold bind, ALOG, emit, pure in H; inversion H; subst; exact Hr2.
Qed.

(** X23: of several sections with one name [readSectionByName] reads
    the first: the headers before it are passed over and the ones after
    it are never compared. *)
Theorem readSectionByName_reads_first_match (P : Platform) elfFile name
    secStrTab (before after : list Elf64_Shdr) (sh : Elf64_Shdr)
    (s : State P) :
  no_section_named name secStrTab before ->
  strcmp_eq (skipn (Z.to_nat (sh_name sh)) secStrTab) name = Some true ->
  secStrTab <> [] \/ sh_name sh <> 0 ->
  readSectionByName_loop P elfFile name secStrTab (before ++ sh :: after) s
  = readSectionData P elfFile sh s.
Proof.
  intros Hbefore Hsh Hnull.
  induction Hbefore as [|sh0 shs H0 _ IH]; cbn [app readSectionByName_loop].
  - replace ((List.length secStrTab =? 0)%nat && (sh_name sh =? 0))
      with false.
    + rewrite Hsh. reflexivity.
    + symmetry. apply andb_false_iff.
      destruct Hnull as [Hn | Hn].
      * left. apply Nat.eqb_neq. destruct secStrTab; [contradiction|].
        discriminate.
      * right. apply Z.eqb_neq. exact Hn.
  - destruct ((List.length secStrTab =? 0)%nat && (sh_name sh0 =? 0)) eqn:E;
      [exact IH|].
    destruct H0 as [H0 | H0]; [discriminate|].
    rewrite H0. exact IH.
Qed.

(* ===================================================================== *)
(** * Further examples *)
(* ===================================================================== *)

Section MoreExamples.

Import Fixture Objects.

(** The object name of an APEX path is the one of its file name. *)
Lemma pathToObjName_on_apex_path :
  Str.lacks "/" (pathToObjName "/apex/com.android.tethering/etc/bpf/netd@1.o")
  = true /\
  pathToObjName ("/apex/com.android.tethering/etc/bpf" +++ String "/" "netd@1.o")
  = pathToObjName "netd@1.o".
Proof.
  destruct pathToObjName_ignores_directory as [Hno Hdir].
  split; [apply Hno | apply Hdir; reflexivity].
Defined.

(** [tp_sw$5_10] of [obj.o] is pinned where [tp_sw] is. *)
Lemma progPinLoc_on_dollar_name :
  progPinLoc "test_" "obj" ("tp_sw" +++ String "$" "5_10")
  = "/sys/fs/bpf/test_prog_obj_tp_sw" /\
  progPinLoc "test_" "obj" ("tp_sw" +++ String "$" "5_10")
  = progPinLoc "test_" "obj" "tp_sw".
Proof.
  destruct (progPinLoc_strips_dollar_suffix "test_" "obj" "tp_sw" "5_10")
    as [Hloc Hsame]; [reflexivity|].
  split; [exact Hloc | apply Hsame; reflexivity].
Defined.

(** A relocation of [obj_sched] against the symbol [tp_sw], which is no
    map, changes nothing. *)
Lemma applyMapRelo_entry_on_function_symbol :
  exists s1 : State platform,
    applyMapRelo_entry platform obj_sched ["my_map"] [3]
      (mkRel 0 (2 * 2 ^ 32 + 1)) insns_ld_map s0
    = Ret (Ok insns_ld_map) s1.
Proof.
  pose (s1 := state_or (getSymNameByIdx platform obj_sched 2 s0) s0).
  exists s1.
  apply (applyMapRelo_entry_ignores_other_symbols platform obj_sched
           ["my_map"] [3] (mkRel 0 (2 * 2 ^ 32 + 1)) insns_ld_map "tp_sw"
           s0 s1).
  - vm_compute; reflexivity.
  - simpl. intros [H | []]. discriminate H.
Defined.

(** Relocating the first instruction of [insns_ld_map] twice with FD 3
    gives what relocating it once gives. *)
Lemma relocating_insns_ld_map_twice :
  let once := value_or (applyRelo platform insns_ld_map 0 3 s0) [] in
  List.length once = List.length insns_ld_map /\
  exists s2, applyRelo platform once 0 3 s0 = Ret once s2.
Proof.
  intros once.
  apply (applyRelo_twice platform insns_ld_map once 0 3 s0 s0).
  vm_compute; reflexivity.
Defined.

(** The header table of [obj_sched] has the eight entries that its ELF
    header announces. *)
Lemma readSectionHeadersAll_on_obj_sched :
  List.length (headers_of obj_sched) = 8%nat.
Proof.
  pose (eh := ok_or (value_or (readElfHeader platform obj_sched s0) (Err 0))
                    (mkEhdr 0 0 0 0)).
  pose (sa := state_or (readElfHeader platform obj_sched s0) s0).
  pose (sb := state_or (readSectionHeadersAll platform obj_sched s0) s0).
  change 8%nat with (Z.to_nat (e_shnum eh)).
  apply (readSectionHeadersAll_entry_count platform obj_sched eh
           (headers_of obj_sched) s0 sa sb);
    vm_compute; reflexivity.
Defined.

(** The four bytes of the [license] section of [obj_sched], read as a
    number. *)
Lemma readSectionUint_on_license :
  exists s1 : State platform,
    readSectionUint platform "license" obj_sched 7 s0
    = Ret (le_decode [71; 80; 76; 0]) s1.
Proof.
  pose (s1 := state_or (readSectionByName platform "license" obj_sched s0) s0).
  exists s1.
  pose proof (readSectionUint_spec platform "license" obj_sched 7
                (Ok [71; 80; 76; 0]) s0 s1) as H.
  cbv iota in H.
  destruct H as (_ & Hfour & _); [vm_compute; reflexivity|].
  apply (Hfour 71 80 76 0 []); [reflexivity | lia | lia | lia | lia].
Defined.

(** Of two names equal to the target, the first gives the ProgDef. *)
Lemma findProgDef_on_repeated_name :
  findProgDef platform [prog_def_4_14; optional_prog_def; future_prog_def] 0
    ["a_def"; "b_def"; "b_def"] "b_def" s0
  = Ret (Some optional_prog_def) s0.
Proof.
  destruct (findProgDef_pairs_by_first_name platform
              [prog_def_4_14; optional_prog_def; future_prog_def]
              ["a_def"; "b_def"; "b_def"] "b_def" 1%nat s0) as [Hsome _].
  - split; [reflexivity|].
    intros k Hk. destruct k as [|k]; [discriminate | lia].
  - apply Hsome. reflexivity.
Defined.

(** On the example kernel a new map is pinned, given its mode and its
    owner. *)
Lemma pinNewMap_on_boot_kernel :
  exists s',
    pinNewMap platform 3 "/sys/fs/bpf/test_map_obj_m" hash_map_def s0
    = Ret Next s' /\
    syscalls_of (st_events s')
    = syscalls_of (st_events s0)
      ++ [sys_bpfFdPin 3 "/sys/fs/bpf/test_map_obj_m";
          sys_chmod "/sys/fs/bpf/test_map_obj_m" 432;
          sys_chown "/sys/fs/bpf/test_map_obj_m" 0 0] /\
    st_kern s'
    = mkKernel 3 [] [("/sys/fs/bpf/test_map_obj_m", None)].
Proof.
  destruct (new_pins_are_written_in_order platform 3
              "/sys/fs/bpf/test_map_obj_m") as [Hmap _].
  apply (Hmap hash_map_def s0). vm_compute; reflexivity.
Defined.

(** With the map [m] of [foo.o] pinned, the installer creates nothing. *)
Lemma createMaps_body_on_pinned_map :
  exists flow mapFds' ret' s' evs,
    createMaps_body platform "test_" "foo" [hash_map_def] ["m"] 0 [] 0
      (@initial_state platform stale_pin) = Ret (flow, mapFds', ret') s' /\
    st_events s' = [] ++ evs /\
    forallb reuses (syscalls_of evs) = true.
Proof.
  apply (createMaps_reuses_existing_pin platform "test_" "foo" [hash_map_def]
           ["m"] 0%nat [] 0 (@initial_state platform stale_pin) hash_map_def
           "m" (ok_ret 0) stale_pin);
    reflexivity.
Defined.

(** With the program pinned, nothing is submitted to the verifier. *)
Lemma loadCodeSections_body_on_pinned_prog :
  exists flow c' s' evs,
    loadCodeSections_body platform "/etc/bpf/obj.o" "GPL" "test_" "obj" 0
      (code_of (Some prog_def_4_14) "kprobe_probe" insns_ret0)
      (@initial_state platform pinned_prog) = Ret (flow, c') s' /\
    st_events s' = [] ++ evs /\
    forallb reuses (syscalls_of evs) = true.
Proof.
  apply (loadCodeSections_reuses_existing_pin platform "/etc/bpf/obj.o" "GPL"
           "test_" "obj" 0
           (code_of (Some prog_def_4_14) "kprobe_probe" insns_ret0)
           prog_def_4_14 (@initial_state platform pinned_prog) (ok_ret 0)
           pinned_prog);
    reflexivity.
Defined.

(** The map loop over one map to create and one for a newer kernel
    returns 0 with two entries. *)
Lemma createMaps_loop_on_two_maps :
  let run := createMaps_loop platform "test_" "obj"
               [hash_map_def; future_map_def] ["a"; "b"] (indices 2) [] 0 s0 in
  fst (value_or run (1, [])) = 0 /\
  List.length (snd (value_or run (1, []))) = 2%nat.
Proof.
  intros run.
  destruct (createMaps_loop_returns_zero_or_negative platform "test_" "obj"
              [hash_map_def; future_map_def] ["a"; "b"]
              (snd (value_or run (1, []))) (fst (value_or run (1, [])))
              s0 (state_or run s0))
    as [Hok | [Hneg _]].
  - vm_compute; reflexivity.
  - exact Hok.
  - vm_compute in Hneg. discriminate Hneg.
Defined.

(** The scan of [obj_sched] calls nothing and keeps its tracepoint
    section. *)
Lemma readCodeSections_on_obj_sched :
  let run := readCodeSections platform obj_sched None s0 in
  st_kern (state_or run s0) = boot /\
  syscalls_of (st_events (state_or run s0)) = [] /\
  Forall (kept_section platform None) (snd (value_or run (1, []))).
Proof.
  intros run.
  apply (readCodeSections_keeps_loadable_sections_only platform obj_sched
           None s0 (state_or run s0) (fst (value_or run (1, [])))
           (snd (value_or run (1, [])))).
  vm_compute; reflexivity.
Defined.

(** Relocating the code sections of [obj_sched] keeps their number and
    their sizes. *)
Lemma applyMapRelo_on_obj_sched :
  let scan := readCodeSections platform obj_sched None s0 in
  let cs := snd (value_or scan (1, [])) in
  let run := applyMapRelo platform obj_sched [3] cs (state_or scan s0) in
  st_kern (state_or run s0) = st_kern (state_or scan s0) /\
  syscalls_of (st_events (state_or run s0))
  = syscalls_of (st_events (state_or scan s0)) /\
  Forall2 same_but_insns cs (value_or run []).
Proof.
  intros scan cs run.
  apply (applyMapRelo_rewrites_instructions_in_place platform obj_sched [3]
           cs (value_or run []) (state_or scan s0) (state_or run s0)).
  vm_compute; reflexivity.
Defined.

(** Loading [obj_sched] calls the platform, after a scan that returned
    0; the object is not critical. *)
Lemma loadProg_on_obj_sched :
  let run := loadProg platform "/etc/bpf/sched.o" (Some obj_sched)
               (mkLocation "test_" None) s0 in
  exists rc s1,
    readSectionByName platform "critical" obj_sched s0 = Ret rc s1 /\
    snd (value_or run (1, true))
    = (match rc with Ok _ => true | Err _ => false end) /\
    ((st_kern (state_or run s0) = st_kern s0 /\
      syscalls_of (st_events (state_or run s0))
      = syscalls_of (st_events s0)) \/
     exists s2 cs s3,
       readCodeSections platform obj_sched None s2 = Ret (0, cs) s3 /\
       st_kern s2 = st_kern s0 /\
       syscalls_of (st_events s2) = syscalls_of (st_events s0)).
Proof.
  intros run.
  apply (loadProg_calls_platform_only_after_scan platform "/etc/bpf/sched.o"
           obj_sched (mkLocation "test_" None) s0 (state_or run s0)
           (fst (value_or run (1, true))) (snd (value_or run (1, true)))).
  vm_compute; reflexivity.
Defined.

(** [obj_sched] cut after 100 bytes: reading its header table fails and
    sets the failbit, and every later read fails with -1. *)
Lemma readers_on_truncated_obj_sched :
  let cut := firstn 100 obj_sched in
  let s1 := state_or (readSectionHeadersAll platform cut s0) s0 in
  st_fail s1 = true /\
  readSectionByName platform "license" cut s1 = Ret (Err (-1)) s1 /\
  readCodeSections platform cut None s1 = Ret (-1, []) s1.
Proof.
  intros cut s1.
  assert (Hfail : st_fail s1 = true) by (vm_compute; reflexivity).
  destruct (failed_stream_fails_every_reader platform cut s1 Hfail)
    as (_ & _ & _ & _ & Hname & _ & _ & _ & Hscan & _).
  split; [exact Hfail|]. split; [apply Hname | apply Hscan].
Defined.

(** [obj_tail_code] has no [maps] section: its maps are created with
    no FD and no call. *)
Lemma createMaps_on_obj_tail_code :
  exists s2 : State platform,
    readSectionByName platform "maps" obj_tail_code s0 = Ret (Err (-2)) s2 /\
    createMaps platform "/etc/bpf/tail.o" obj_tail_code "test_" s0
    = Ret (0, []) s2 /\
    st_kern s2 = boot /\ st_events s2 = [].
Proof.
  pose (s1 := state_or (readSectionHeadersAll platform obj_tail_code s0) s0).
  pose (s2 := state_or (readSectionHeaderStrtab platform obj_tail_code s1) s1).
  pose (strtab := ok_or (value_or (readSectionHeaderStrtab platform
                                     obj_tail_code s1) (Err 0)) []).
  destruct (absent_section_is_not_an_error platform obj_tail_code "maps"
              (headers_of obj_tail_code) strtab s0 s1 s2)
    as (Hname & _ & Hmaps & Hk & He).
  - vm_compute; reflexivity.
  - vm_compute; reflexivity.
  - unfold no_section_named. vm_compute.
    repeat (apply Forall_cons; [(left; reflexivity) || (right; reflexivity)|]).
    apply Forall_nil.
  - exists s2. split; [exact Hname|].
    split; [apply Hmaps; reflexivity|].
    split; [exact Hk | exact He].
Defined.

(** The error for the section [critical], absent from [obj_sched], is
    negative. *)
Lemma readSectionByName_error_on_obj_sched :
  exists e s',
    readSectionByName platform "critical" obj_sched s0 = Ret (Err e) s' /\
    e < 0.
Proof.
  pose (run := readSectionByName platform "critical" obj_sched s0).
  assert (Hrun : run = Ret (Err (-2)) (state_or run s0))
    by (vm_compute; reflexivity).
  exists (-2), (state_or run s0). split; [exact Hrun|].
  destruct (reader_errors_are_negative platform obj_sched)
    as (_ & _ & _ & _ & _ & _ & Hname & _).
  exact (Hname "critical" s0 (-2) (state_or run s0) Hrun).
Defined.


(** Loading the object whose optional program the verifier rejects
    returns 0. *)
Lemma loadProg_result_on_obj_optional_bad :
  fst (value_or (loadProg platform "/etc/bpf/opt.o" (Some obj_optional_bad)
                   (mkLocation "test_" None) s0) (1, false)) <= 0.
Proof.
  pose (run := loadProg platform "/etc/bpf/opt.o" (Some obj_optional_bad)
                 (mkLocation "test_" None) s0).
  apply (loadProg_returns_zero_or_negative platform "/etc/bpf/opt.o"
           (Some obj_optional_bad) (mkLocation "test_" None) s0
           (state_or run s0) (fst (value_or run (1, false)))
           (snd (value_or run (1, false)))).
  vm_compute; reflexivity.
Defined.

(** Of the two [license] sections of [obj_two_licenses] the first is
    read. *)
Lemma readSectionByName_on_obj_two_licenses :
  let hs := headers_of obj_two_licenses in
  let s1 := state_or (readSectionHeadersAll platform obj_two_licenses s0) s0 in
  let s2 := state_or (readSectionHeaderStrtab platform obj_two_licenses s1)
                     s1 in
  let strtab := ok_or (value_or (readSectionHeaderStrtab platform
                                   obj_two_licenses s1) (Err 0)) [] in
  let sh := nth 1 hs (mkShdr 0 0 0 0) in
  readSectionByName_loop platform obj_two_licenses "license" strtab
    (firstn 1 hs ++ sh :: skipn 2 hs) s2
  = readSectionData platform obj_two_licenses sh s2 /\
  value_or (readSectionByName platform "license" obj_two_licenses s0) (Err 0)
  = Ok [71; 80; 76; 0].
Proof.
  intros hs s1 s2 strtab sh.
  split; [|vm_compute; reflexivity].
  apply (readSectionByName_reads_first_match platform obj_two_licenses
           "license" strtab (firstn 1 hs) (skipn 2 hs) sh s2).
  - unfold no_section_named. vm_compute.
    repeat (apply Forall_cons; [(left; reflexivity) || (right; reflexivity)|]).
    apply Forall_nil.
  - vm_compute; reflexivity.
  - right. vm_compute. discriminate.
Defined.

End MoreExamples.
